(** * Spam email processor: a shallow embedding of [spam-email.py]

    The development follows the class [SpamEmailProcessor]:
    text and bytes, the fragment of Python's [re] the program's patterns
    use, UTF-8 decoding, JSON values, the library oracles, the world
    (directories, activity log, clock), then the methods in source order
    and the properties proved about them. *)

From Stdlib Require Import String Ascii DecimalString.
From Stdlib Require Import List NArith ZArith Bool Lia Arith.
Import ListNotations.
Open Scope list_scope.

Set Implicit Arguments.
Set Warnings "-register-all".

(** ** Text and bytes

    A Python [str] is a sequence of Unicode code points, a [bytes] value a
    sequence of octets. *)

Definition codepoint := N.
Definition str := list codepoint.
Definition bytes := list Byte.byte.

(** [text "abc"] is the [str] spelled by an ASCII literal of the source. *)
Definition text (s : string) : str :=
  List.map N_of_ascii (list_ascii_of_string s).

Definition cp (c : ascii) : codepoint := N_of_ascii c.

(** [b"abc"] *)
Definition ascii_bytes (s : string) : bytes :=
  List.map byte_of_ascii (list_ascii_of_string s).

Fixpoint str_eqb (a b : str) : bool :=
  match a, b with
  | [], [] => true
  | x :: a', y :: b' => N.eqb x y && str_eqb a' b'
  | _, _ => false
  end.

Lemma str_eqb_spec (a b : str) : str_eqb a b = true <-> a = b.
Proof.
  revert b; induction a as [|x a IH]; intros [|y b]; simpl; split;
    try congruence; try reflexivity.
  - intros H. apply andb_true_iff in H as [H1 H2].
    apply N.eqb_eq in H1. apply IH in H2. congruence.
  - intros H. inversion H; subst.
    apply andb_true_iff; split; [apply N.eqb_refl | now apply IH].
Qed.

Lemma str_eqb_refl (a : str) : str_eqb a a = true.
Proof. now apply str_eqb_spec. Qed.

Definition str_eq_dec (a b : str) : {a = b} + {a <> b} :=
  list_eq_dec N.eq_dec a b.

(** [x in l] for a list of strings. *)
Definition mem_str (x : str) (l : list str) : bool := existsb (str_eqb x) l.

Lemma mem_str_In (x : str) (l : list str) : mem_str x l = true <-> In x l.
Proof.
  unfold mem_str. rewrite existsb_exists. split.
  - intros [y [Hy E]]. apply str_eqb_spec in E. now subst.
  - intros H. exists x. split; [assumption | apply str_eqb_refl].
Qed.

(** [prefix in s]: Python's substring test [needle in hay]. *)
Fixpoint starts_with (p s : str) : bool :=
  match p, s with
  | [], _ => true
  | x :: p', y :: s' => N.eqb x y && starts_with p' s'
  | _ :: _, [] => false
  end.

Fixpoint str_in (needle hay : str) : bool :=
  starts_with needle hay ||
  match hay with
  | [] => false
  | _ :: hay' => str_in needle hay'
  end.

(** ASCII case mapping; [str.lower()] in full is the Unicode database's
    (see [unicode_lower] among the library oracles). *)
Definition is_ascii (c : codepoint) : bool := (c <? 128)%N.
Definition ascii_lower (c : codepoint) : codepoint :=
  if ((65 <=? c) && (c <=? 90))%N then (c + 32)%N else c.

(** ** The fragment of [re] used by the program

    Every pattern of the source is built from literals, character
    classes, concatenation, alternation, [?] and greedy [*]/[+] over a
    single character class, and at most one capturing group. The matcher
    is a backtracking one, as [re]'s is: alternatives are tried in the
    order written, repetitions take as many characters as they can first,
    and the first way to reach the end of the pattern wins. *)

Module Re.

Inductive regex : Type :=
| Lit (c : codepoint)
| Class (p : codepoint -> bool)
| Seq (r1 r2 : regex)
| Alt (r1 r2 : regex)
| Opt (r : regex)
| Star (p : codepoint -> bool)
| Plus (p : codepoint -> bool)
| Group (r : regex).

(** A literal under [re.IGNORECASE]: besides the two ASCII cases, Python's
    Unicode matching lets [i] match U+0130 and U+0131, [k] match U+212A
    and [s] match U+017F. Without the flag the comparison is exact. The
    character classes of the program's patterns hold no cased character,
    so the flag does not change them. *)
Definition ieq (c x : codepoint) : bool :=
  let lc := ascii_lower c in
  (N.eqb (ascii_lower x) lc && is_ascii x)
  || (N.eqb lc 105 && (N.eqb x 304 || N.eqb x 305))
  || (N.eqb lc 107 && N.eqb x 8490)
  || (N.eqb lc 115 && N.eqb x 383).

Definition lit_ok (ic : bool) (c x : codepoint) : bool :=
  if ic then ieq c x else N.eqb c x.

Section Matcher.
Variable ic : bool.
Variable R : Type.

(** Greedy repetition of a class: longest run first, then shorter. *)
Fixpoint star (p : codepoint -> bool) (s : str) (k : str -> option R)
  : option R :=
  match s with
  | x :: s' =>
      if p x then
        match star p s' k with
        | Some r => Some r
        | None => k s
        end
      else k s
  | [] => k s
  end.

(** [run r s caps k]: match [r] at the start of [s]; [k] receives what
    is left of the subject and the groups captured so far. *)
Fixpoint run (r : regex) (s : str) (caps : list str)
    (k : str -> list str -> option R) : option R :=
  match r with
  | Lit c =>
      match s with
      | x :: s' => if lit_ok ic c x then k s' caps else None
      | [] => None
      end
  | Class p =>
      match s with
      | x :: s' => if p x then k s' caps else None
      | [] => None
      end
  | Seq r1 r2 => run r1 s caps (fun s1 caps1 => run r2 s1 caps1 k)
  | Alt r1 r2 =>
      match run r1 s caps k with
      | Some res => Some res
      | None => run r2 s caps k
      end
  | Opt r1 =>
      match run r1 s caps k with
      | Some res => Some res
      | None => k s caps
      end
  | Star p => star p s (fun s' => k s' caps)
  | Plus p =>
      match s with
      | x :: s' => if p x then star p s' (fun s'' => k s'' caps) else None
      | [] => None
      end
  | Group r1 =>
      run r1 s caps
        (fun s1 caps1 =>
           k s1 (caps1 ++ [firstn (length s - length s1) s]))
  end.
End Matcher.

(** The match starting exactly at the head of [s]: matched text and groups. *)
Definition match_at (ic : bool) (r : regex) (s : str)
  : option (str * list str) :=
  run ic r s []
    (fun s' caps => Some (firstn (length s - length s') s, caps)).

(** [re.search]: the leftmost position with a match. *)
Fixpoint search (ic : bool) (r : regex) (s : str) : option (str * list str) :=
  match match_at ic r s with
  | Some m => Some m
  | None =>
      match s with
      | [] => None
      | _ :: s' => search ic r s'
      end
  end.

(** [re.findall]'s scan: leftmost matches that do not overlap. [skip]
    counts the characters of the previous match still to step over. The
    patterns of the program never match the empty string
    (see [match_at_nonempty] for the one the proofs need), so [re]'s rule
    for what follows an empty match is not modelled. *)
Fixpoint scan (ic : bool) (r : regex) (s : str) (skip : nat)
  : list (str * list str) :=
  match s with
  | [] =>
      match skip with
      | O => match match_at ic r [] with Some m => [m] | None => [] end
      | S _ => []
      end
  | _ :: s' =>
      match skip with
      | S n => scan ic r s' n
      | O =>
          match match_at ic r s with
          | Some (w, caps) => (w, caps) :: scan ic r s' (pred (length w))
          | None => scan ic r s' 0
          end
      end
  end.

(** [re.findall] returns the whole match when the pattern has no group
    and the group's text when it has one. *)
Definition pick (m : str * list str) : str :=
  match snd m with
  | [] => fst m
  | g :: _ => g
  end.

Definition findall (ic : bool) (r : regex) (s : str) : list str :=
  List.map pick (scan ic r s 0).

(** Pattern builders. *)
Fixpoint lits (l : str) : regex :=
  match l with
  | [] => Opt (Class (fun _ => false))  (* the literals are never empty *)
  | [c] => Lit c
  | c :: l' => Seq (Lit c) (lits l')
  end.

Definition word (s : string) : regex := lits (text s).

(** [.] without [re.DOTALL]: anything but a newline. *)
Definition dot (x : codepoint) : bool := negb (N.eqb x 10).

(** [\s] on [str] patterns: Unicode white space. *)
Definition space (x : codepoint) : bool :=
  ((9 <=? x) && (x <=? 13) || (28 <=? x) && (x <=? 32)
   || (x =? 133) || (x =? 160) || (x =? 5760)
   || (8192 <=? x) && (x <=? 8202)
   || (x =? 8232) || (x =? 8233) || (x =? 8239) || (x =? 8287)
   || (x =? 12288))%N.

End Re.

(** ** UTF-8 decoding

    [bytes.decode('utf-8')] and [bytes.decode('utf-8', errors='ignore')].
    A malformed sequence is the longest prefix of a well-formed one that
    the input offers (one byte when the lead byte itself is wrong); the
    strict decoder raises there, the ignoring one drops those bytes and
    goes on. *)

Module Utf8.

Inductive step : Type :=
| Scalar (c : codepoint) (used : nat)
| Malformed (used : nat).

Definition b2n (b : Byte.byte) : N := Byte.to_N b.

Definition cont (b : N) : bool := ((128 <=? b) && (b <=? 191))%N.

(** Bounds of the second byte, which depend on the lead byte. *)
Definition second_ok (b0 b1 : N) : bool :=
  (if b0 =? 224 then (160 <=? b1) && (b1 <=? 191)
   else if b0 =? 237 then (128 <=? b1) && (b1 <=? 159)
   else if b0 =? 240 then (144 <=? b1) && (b1 <=? 191)
   else if b0 =? 244 then (128 <=? b1) && (b1 <=? 143)
   else cont b1)%N.

Definition decode_one (b0 : N) (rest : list N) : step :=
  (if b0 <? 128 then Scalar b0 1
   else if b0 <? 194 then Malformed 1
   else if b0 <? 224 then
     match rest with
     | b1 :: _ =>
         if cont b1 then Scalar ((b0 - 192) * 64 + (b1 - 128)) 2
         else Malformed 1
     | [] => Malformed 1
     end
   else if b0 <? 240 then
     match rest with
     | b1 :: rest1 =>
         if second_ok b0 b1 then
           match rest1 with
           | b2 :: _ =>
               if cont b2 then
                 Scalar ((b0 - 224) * 4096 + (b1 - 128) * 64 + (b2 - 128)) 3
               else Malformed 2
           | [] => Malformed 2
           end
         else Malformed 1
     | [] => Malformed 1
     end
   else if b0 <? 245 then
     match rest with
     | b1 :: rest1 =>
         if second_ok b0 b1 then
           match rest1 with
           | b2 :: rest2 =>
               if cont b2 then
                 match rest2 with
                 | b3 :: _ =>
                     if cont b3 then
                       Scalar ((b0 - 240) * 262144 + (b1 - 128) * 4096
                               + (b2 - 128) * 64 + (b3 - 128)) 4
                     else Malformed 3
                 | [] => Malformed 3
                 end
               else Malformed 2
           | [] => Malformed 2
           end
         else Malformed 1
     | [] => Malformed 1
     end
   else Malformed 1)%N.

(** The decoding loop; [fuel] bounds the number of steps and the length
    of the input is always enough, each step using at least one byte. *)
Fixpoint decode_loop (strict : bool) (fuel : nat) (bs : list N)
  : option str :=
  match fuel, bs with
  | _, [] => Some []
  | O, _ :: _ => Some []
  | S fuel', b0 :: rest =>
      match decode_one b0 rest with
      | Scalar c used =>
          match decode_loop strict fuel' (skipn (pred used) rest) with
          | Some s => Some (c :: s)
          | None => None
          end
      | Malformed used =>
          if strict then None
          else decode_loop strict fuel' (skipn (pred used) rest)
      end
  end.

(** [errors='ignore']: always a string. *)
Definition decode_ignore (bs : bytes) : str :=
  match decode_loop false (length bs) (List.map b2n bs) with
  | Some s => s
  | None => []
  end.

(** Strict decoding: [None] stands for [UnicodeDecodeError]. *)
Definition decode_strict (bs : bytes) : option str :=
  decode_loop true (length bs) (List.map b2n bs).

End Utf8.

(** ** JSON values

    What [json.load] returns and [json.dump] accepts. The pipeline writes
    no floating-point number, and none is modelled. An object is kept as
    the list of its items in order; [dict_get] finds the first item with
    the key. *)

Inductive json : Type :=
| JNull
| JBool (b : bool)
| JInt (z : Z)
| JStr (s : str)
| JArr (items : list json)
| JObj (fields : list (str * json)).

Fixpoint dict_get (A : Type) (k : str) (d : list (str * A)) : option A :=
  match d with
  | [] => None
  | (k', v) :: d' => if str_eqb k k' then Some v else dict_get k d'
  end.

(** Python's truth value of an object. *)
Definition truthy (v : json) : bool :=
  match v with
  | JNull => false
  | JBool b => b
  | JInt z => negb (Z.eqb z 0)
  | JStr s => match s with [] => false | _ => true end
  | JArr l => match l with [] => false | _ => true end
  | JObj f => match f with [] => false | _ => true end
  end.

(** Python's [==]: booleans are the integers 0 and 1, lists compare item
    by item, dictionaries key by key whatever the order. *)
Fixpoint py_eq (a b : json) {struct a} : bool :=
  match a, b with
  | JNull, JNull => true
  | JBool x, JBool y => Bool.eqb x y
  | JBool x, JInt z => Z.eqb z (if x then 1 else 0)
  | JInt z, JBool x => Z.eqb z (if x then 1 else 0)
  | JInt x, JInt y => Z.eqb x y
  | JStr s, JStr t => str_eqb s t
  | JArr l, JArr m =>
      (fix items (l m : list json) : bool :=
         match l, m with
         | [], [] => true
         | x :: l', y :: m' => py_eq x y && items l' m'
         | _, _ => false
         end) l m
  | JObj f, JObj g =>
      Nat.eqb (length f) (length g) &&
      (fix fields (f : list (str * json)) : bool :=
         match f with
         | [] => true
         | (k, v) :: f' =>
             match dict_get k g with
             | Some v' => py_eq v v'
             | None => false
             end && fields f'
         end) f
  | _, _ => false
  end.

(** [x in l] for a list of objects. *)
Definition py_in (x : json) (l : list json) : bool := existsb (py_eq x) l.

(** ** Exceptions *)

Record exn : Type := Exn { exn_type : string; exn_msg : str }.

(** [str(e)] *)
Definition str_of_exn (e : exn) : str := exn_msg e.

Definition AttributeError (what : string) : exn :=
  Exn "AttributeError" (text what).
Definition TypeError (what : string) : exn := Exn "TypeError" (text what).

(** [v.get(key, default)]: only a dictionary has the method. *)
Definition py_get (v : json) (key : string) (default : json) : exn + json :=
  match v with
  | JObj f =>
      inr (match dict_get (text key) f with Some x => x | None => default end)
  | _ => inl (AttributeError "object has no attribute 'get'")
  end.

(** [len(v)] *)
Definition py_len (v : json) : exn + nat :=
  match v with
  | JStr s => inr (length s)
  | JArr l => inr (length l)
  | JObj f => inr (length f)
  | _ => inl (TypeError "object has no len()")
  end.

(** The items a [for] loop over [v] visits: the elements of a list, the
    characters of a string, the keys of a dictionary. *)
Definition py_iter (v : json) : exn + list json :=
  match v with
  | JStr s => inr (List.map (fun c => JStr [c]) s)
  | JArr l => inr l
  | JObj f => inr (List.map (fun kv => JStr (fst kv)) f)
  | _ => inl (TypeError "object is not iterable")
  end.

(** ** Parsed messages ([email.message.Message])

    Header values are text. A part is a leaf with its payload after the
    transfer decoding ([get_payload(decode=True)]) or a multipart
    container; [content_type] is what [get_content_type()] answers. *)

Inductive Message : Type :=
| Leaf (headers : list (str * str)) (content_type : str) (payload : bytes)
| Multipart (headers : list (str * str)) (content_type : str)
    (parts : list Message).

Definition msg_headers (m : Message) : list (str * str) :=
  match m with
  | Leaf h _ _ => h
  | Multipart h _ _ => h
  end.

Definition get_content_type (m : Message) : str :=
  match m with
  | Leaf _ c _ => c
  | Multipart _ c _ => c
  end.

Definition is_multipart (m : Message) : bool :=
  match m with
  | Leaf _ _ _ => false
  | Multipart _ _ _ => true
  end.

(** [get_payload(decode=True)]: [None] on a multipart container. *)
Definition get_payload_decoded (m : Message) : option bytes :=
  match m with
  | Leaf _ _ b => Some b
  | Multipart _ _ _ => None
  end.

(** Header names compare without case. *)
Definition header_name_eqb (a b : str) : bool :=
  str_eqb (List.map ascii_lower a) (List.map ascii_lower b).

(** What the parser keeps of a header value: its ASCII characters, and
    for each raw 8-bit byte the code point U+DC00 plus the byte
    ([surrogateescape]). Under the default policy, fetching a value
    that holds such a code point gives an [email.header.Header] object
    with the charset [unknown-8bit], not a string. *)
Inductive hvalue : Type :=
| HStr (s : str)
| HHeader (raw : str).

Definition is_surrogate (c : codepoint) : bool :=
  ((55296 <=? c) && (c <=? 57343))%N.

Definition header_fetch (v : str) : hvalue :=
  if existsb is_surrogate v then HHeader v else HStr v.

(** The truth value of what was fetched: an object is true, a string
    is true when it is not empty. *)
Definition hvalue_truthy (v : hvalue) : bool :=
  match v with
  | HStr [] => false
  | _ => true
  end.

(** [str(v)]: a [Header] object with charset [unknown-8bit] prints its
    raw bytes as U+FFFD. *)
Definition hvalue_str (v : hvalue) : str :=
  match v with
  | HStr s => s
  | HHeader raw =>
      List.map (fun c => if is_ascii c then c else 65533%N) raw
  end.

(** [raw.encode('ascii', 'surrogateescape')]: the bytes the parser
    read; [None] stands for [UnicodeEncodeError]. *)
Fixpoint escape_encode (raw : str) : option bytes :=
  match raw with
  | [] => Some []
  | c :: rest =>
      match
        (if is_ascii c then Byte.of_N c
         else if ((56448 <=? c) && (c <=? 56575))%N
              then Byte.of_N (c - 56320)
              else None),
        escape_encode rest
      with
      | Some b, Some bs => Some (b :: bs)
      | _, _ => None
      end
  end.

(** [msg.get_all(name, [])] and [msg.get(name, '')] *)
Definition get_all (m : Message) (name : string) : list hvalue :=
  List.map (fun h => header_fetch (snd h))
    (List.filter (fun h => header_name_eqb (fst h) (text name))
       (msg_headers m)).

Definition get (m : Message) (name : string) : hvalue :=
  match get_all m name with
  | v :: _ => v
  | [] => HStr []
  end.

(** [msg.walk()]: the part itself, then its subparts, depth first. *)
Fixpoint walk (m : Message) : list Message :=
  m :: match m with
       | Leaf _ _ _ => []
       | Multipart _ _ ps => List.flat_map walk ps
       end.

(** ** The libraries and the outside world

    What the program calls and does not define. Calls whose answer can
    change from one call to the next (clock, network, directory service,
    file system faults) take the world's tick at the time of the call. *)

Inductive header_part : Type :=
| PBytes (b : bytes)
| PStr (s : str).

Record response : Type :=
  Response { status_code : Z; response_url : str }.

Record datetime : Type :=
  Datetime { isoformat : str;      (* .isoformat() *)
             ymd_hms : str;        (* .strftime('%Y%m%d_%H%M%S') *)
             ymd : str }.          (* .strftime('%Y%m%d') *)

(** Attributes of a [whois] answer as the program reads them; the two
    dates are [None] when false and their [str()] otherwise. *)
Record whois_entry : Type :=
  WhoisEntry { w_registrar : json;
               w_creation_date : option str;
               w_expiration_date : option str;
               w_name_servers : json;
               w_emails : json;
               w_org : json;
               w_country : json }.

(** How a write ends: done, refused before anything is written, or
    broken off leaving an unusable file. *)
Inductive write_outcome : Type :=
| WriteDone
| WriteRefused (e : exn)
| WriteBroken (e : exn).

Record Lib : Type :=
  { message_from_bytes : bytes -> Message;
    decode_header : str -> exn + list (header_part * option str);
    codec_decode : str -> bytes -> exn + str;
    anchors : str -> list (str * str);
    unicode_lower : str -> str;
    set_order : list str -> list str;
    http_get : nat -> str -> exn + response;
    whois_query : nat -> str -> exn + whois_entry;
    now : nat -> datetime;
    write_fault : nat -> str -> write_outcome;
    rename_fault : nat -> str -> option exn }.

(** [list(set(l))] keeps one copy of each element, in an order of the
    interpreter's choosing. *)
Definition set_order_ok (f : list str -> list str) : Prop :=
  forall l, NoDup (f l) /\ (forall x, In x (f l) <-> In x l).

(** ** The world: directories, activity log, clock *)

Inductive log_file : Type :=
| Json (v : json)
| Garbage.

Inductive level : Type := INFO | ERROR.

Inductive event : Type :=
| Logged (l : level) (msg : str)
| Wrote (name : str)
| WriteFailed (name : str)
| Renamed (name : str)
| RenameFailed (name : str).

Record World : Type :=
  { consume_dir : list (str * bytes);
    processed_dir : list (str * bytes);
    logs_dir : list (str * log_file);
    events : list event;
    tick : nat }.

(** Directory entries: a name holds one file. *)
Fixpoint dir_put (A : Type) (name : str) (v : A) (d : list (str * A))
  : list (str * A) :=
  match d with
  | [] => [(name, v)]
  | (n, x) :: d' =>
      if str_eqb name n then (n, v) :: d' else (n, x) :: dir_put name v d'
  end.

Definition dir_remove (A : Type) (name : str) (d : list (str * A))
  : list (str * A) :=
  List.filter (fun e => negb (str_eqb name (fst e))) d.

Definition ends_with (suffix s : str) : bool :=
  starts_with (rev suffix) (rev s).

(** ** Computations: state and exceptions

    A computation changes the world and either returns or raises; what
    it did to the world before raising stays done. The state is the
    world for the processor's methods and the summary under construction
    inside the loop of [generate_summary_report]. *)

Definition ST (S A : Type) : Type := S -> (exn + A) * S.

Definition ret (S A : Type) (a : A) : ST S A := fun w => (inr a, w).
Arguments ret {S A} a.

Definition bind (S A B : Type) (m : ST S A) (f : A -> ST S B) : ST S B :=
  fun w =>
    match m w with
    | (inl e, w') => (inl e, w')
    | (inr a, w') => f a w'
    end.

Definition raise (S A : Type) (e : exn) : ST S A := fun w => (inl e, w).
Arguments raise {S A} e.

(** [try: m except Exception as e: h e] *)
Definition try_except (S A : Type) (m : ST S A) (h : exn -> ST S A)
  : ST S A :=
  fun w =>
    match m w with
    | (inl e, w') => h e w'
    | (inr a, w') => (inr a, w')
    end.

Definition lift (S A : Type) (r : exn + A) : ST S A := fun w => (r, w).
Arguments lift {S A} r.

(** The computations of the processor run on the world. *)
Definition M (A : Type) : Type := ST World A.

Notation "x <- m ;; k" := (bind m (fun x => k))
  (at level 61, m at next level, right associativity).
Notation "m ;;; k" := (bind m (fun _ => k))
  (at level 61, right associativity).

Definition emit (ev : event) : M unit :=
  fun w =>
    (inr tt,
     {| consume_dir := consume_dir w; processed_dir := processed_dir w;
        logs_dir := logs_dir w; events := events w ++ [ev];
        tick := tick w |}).

(** The tick of the call about to be made; the clock of the model moves
    on. *)
Definition next_tick : M nat :=
  fun w =>
    (inr (tick w),
     {| consume_dir := consume_dir w; processed_dir := processed_dir w;
        logs_dir := logs_dir w; events := events w;
        tick := S (tick w) |}).

Definition logger_info (msg : str) : M unit := emit (Logged INFO msg).
Definition logger_error (msg : str) : M unit := emit (Logged ERROR msg).

(** ** Records built by the processor *)

Record Metadata : Type :=
  { md_timestamp : str;
    md_subject : str;
    md_from : str;
    md_to : str;
    md_date : hvalue;
    md_message_id : hvalue;
    md_return_path : hvalue;
    md_received : list hvalue;
    md_x_mailer : hvalue;
    md_x_originating_ip : hvalue;
    md_sender_domain : option str;
    md_list_unsubscribe : option str }.

(** One entry of [unsubscribe_results]; a key the dictionary lacks is
    [None]. *)
Record Attempt : Type :=
  { a_link : str;
    a_status_code : option Z;
    a_success : bool;
    a_response_url : option str;
    a_error : option str;
    a_timestamp : str }.

Record AuthorityReport : Type :=
  { r_authority : str;
    r_method : str;
    r_url : option str;
    r_email : option str;
    r_status : str;
    r_timestamp : str }.

Record CompanyReport : Type :=
  { c_company : str;
    c_email : str;
    c_status : str;
    c_timestamp : str }.

Record Results : Type :=
  { file_path : str;
    metadata : Metadata;
    unsubscribe_links : list str;
    unsubscribe_results : list Attempt;
    whois_data : option json;
    identified_companies : list str;
    authority_reports : list AuthorityReport;
    company_reports : list CompanyReport;
    processing_timestamp : str }.

(** [summary] of [generate_summary_report] *)
Record Summary : Type :=
  { total_emails_processed : nat;
    processing_date : str;
    domains_encountered : list json;
    companies_identified : list json;
    total_unsubscribe_attempts : nat;
    successful_unsubscribes : nat }.

(** *** As JSON documents *)

Definition jstr (s : string) : json := JStr (text s).
Definition jopt (A : Type) (f : A -> json) (o : option A) : json :=
  match o with Some x => f x | None => JNull end.
Definition field (k : string) (v : json) : str * json := (text k, v).
Definition opt_field (A : Type) (k : string) (f : A -> json) (o : option A)
  : list (str * json) :=
  match o with Some x => [field k (f x)] | None => [] end.

(** [json.dump] writes the strings of the metadata and raises
    [TypeError] on a [Header] object. *)
Definition is_text (v : hvalue) : bool :=
  match v with
  | HStr _ => true
  | HHeader _ => false
  end.

Definition serialisable (m : Metadata) : bool :=
  forallb is_text
    [md_date m; md_message_id m; md_return_path m; md_x_mailer m;
     md_x_originating_ip m]
  && forallb is_text (md_received m).

(** The document of a header value that is a string. For a [Header]
    object there is none ([serialisable] is false and the record is not
    written); its printed form stands in so that the function is
    defined on every value. *)
Definition json_of_hvalue (v : hvalue) : json := JStr (hvalue_str v).

Definition json_of_metadata (m : Metadata) : json :=
  JObj ([ field "timestamp" (JStr (md_timestamp m));
          field "subject" (JStr (md_subject m));
          field "from" (JStr (md_from m));
          field "to" (JStr (md_to m));
          field "date" (json_of_hvalue (md_date m));
          field "message_id" (json_of_hvalue (md_message_id m));
          field "return_path" (json_of_hvalue (md_return_path m));
          field "received"
            (JArr (List.map json_of_hvalue (md_received m)));
          field "x_mailer" (json_of_hvalue (md_x_mailer m));
          field "x_originating_ip"
            (json_of_hvalue (md_x_originating_ip m)) ]
        ++ opt_field "sender_domain" JStr (md_sender_domain m)
        ++ opt_field "list_unsubscribe" JStr (md_list_unsubscribe m)).

Definition json_of_attempt (a : Attempt) : json :=
  JObj ([ field "link" (JStr (a_link a)) ]
        ++ opt_field "status_code" JInt (a_status_code a)
        ++ opt_field "error" JStr (a_error a)
        ++ [ field "success" (JBool (a_success a)) ]
        ++ opt_field "response_url" JStr (a_response_url a)
        ++ [ field "timestamp" (JStr (a_timestamp a)) ]).

Definition json_of_authority_report (r : AuthorityReport) : json :=
  JObj ([ field "authority" (JStr (r_authority r));
          field "method" (JStr (r_method r)) ]
        ++ opt_field "url" JStr (r_url r)
        ++ opt_field "email" JStr (r_email r)
        ++ [ field "status" (JStr (r_status r));
             field "timestamp" (JStr (r_timestamp r)) ]).

Definition json_of_company_report (c : CompanyReport) : json :=
  JObj [ field "company" (JStr (c_company c));
         field "email" (JStr (c_email c));
         field "status" (JStr (c_status c));
         field "timestamp" (JStr (c_timestamp c)) ].

(** The two documents of [log_processing_results]. *)
Definition metadata_record (r : Results) : json :=
  JObj [ field "file_path" (JStr (file_path r));
         field "metadata" (json_of_metadata (metadata r));
         field "whois_data" (jopt (fun v => v) (whois_data r));
         field "processing_timestamp" (JStr (processing_timestamp r)) ].

Definition actions_record (r : Results) : json :=
  JObj [ field "file_path" (JStr (file_path r));
         field "unsubscribe_attempts"
           (JArr (List.map json_of_attempt (unsubscribe_results r)));
         field "authority_reports"
           (JArr (List.map json_of_authority_report (authority_reports r)));
         field "company_reports"
           (JArr (List.map json_of_company_report (company_reports r)));
         field "processing_timestamp" (JStr (processing_timestamp r)) ].

Definition json_of_summary (s : Summary) : json :=
  JObj [ field "total_emails_processed"
           (JInt (Z.of_nat (total_emails_processed s)));
         field "processing_date" (JStr (processing_date s));
         field "domains_encountered" (JArr (domains_encountered s));
         field "companies_identified" (JArr (companies_identified s));
         field "total_unsubscribe_attempts"
           (JInt (Z.of_nat (total_unsubscribe_attempts s)));
         field "successful_unsubscribes"
           (JInt (Z.of_nat (successful_unsubscribes s))) ].

(** ** Configuration of [__init__] *)

Import Re.
Infix "+>" := Seq (at level 61, right associativity).

(** [self.company_reporting], in the order the dictionary is written. *)
Definition company_reporting : list (str * str) :=
  List.map (fun kv => (text (fst kv), text (snd kv)))
    [ ("paypal", "spoof@paypal.com");
      ("amazon", "stop-spoofing@amazon.com");
      ("apple", "reportphishing@apple.com");
      ("microsoft", "phish@office365.microsoft.com");
      ("google", "phishing@gmail.com");
      ("facebook", "phish@fb.com");
      ("ebay", "spoof@ebay.com");
      ("netflix", "phishing@netflix.com");
      ("ups", "fraud@ups.com");
      ("fedex", "abuse@fedex.com");
      ("wells fargo", "reportfraud@wellsfargo.com");
      ("chase", "abuse@chase.com");
      ("bank of america", "abuse@bankofamerica.com") ]%string.

(** [self.unsubscribe_patterns] *)
Definition unsubscribe_patterns : list regex :=
  [ word "unsubscribe";
    word "opt" +>
      Opt (Class (fun x => N.eqb x (cp "-") || N.eqb x (cp " "))) +>
      word "out";
    word "remove" +> Star dot +> word "list";
    word "stop" +> Star dot +> word "email";
    word "click" +> Star dot +> word "here" +> Star dot +> word "remove";
    word "update" +> Star dot +> word "preferences";
    word "manage" +> Star dot +> word "subscription" ].

(** [r'@([a-zA-Z0-9.-]+)'] of [extract_email_metadata] *)
Definition domain_char (x : codepoint) : bool :=
  ((97 <=? x) && (x <=? 122) || (65 <=? x) && (x <=? 90)
   || (48 <=? x) && (x <=? 57) || (x =? 46) || (x =? 45))%N.

Definition sender_domain_pattern : regex :=
  Lit (cp "@") +> Group (Plus domain_char).

(** [r'https?://[^\s<>"\']+(?:unsubscribe|opt-?out|remove)[^\s<>"\']*']
    of [find_unsubscribe_links] *)
Definition url_char (x : codepoint) : bool :=
  negb (space x || N.eqb x 60 || N.eqb x 62 || N.eqb x 34 || N.eqb x 39).

Definition url_keyword : regex :=
  Alt (word "unsubscribe")
    (Alt (word "opt" +> Opt (Lit (cp "-")) +> word "out") (word "remove")).

Definition url_pattern : regex :=
  word "http" +> Opt (Lit (cp "s")) +> word "://" +> Plus url_char +>
  url_keyword +> Star url_char.

(** [r'<(https?://[^>]+)>'] of [process_email_file] *)
Definition list_unsub_pattern : regex :=
  Lit (cp "<") +>
  Group (word "http" +> Opt (Lit (cp "s")) +> word "://" +>
         Plus (fun x => negb (N.eqb x (cp ">")))) +>
  Lit (cp ">").

(** Directory names of the default construction, as paths are printed. *)
Definition consume_path (name : str) : str := text "consume/" ++ name.
Definition logs_path (name : str) : str := text "logs/" ++ name.

(** Decimal rendering of integers in formatted messages. *)
Definition str_of_Z (z : Z) : str :=
  text (DecimalString.NilZero.string_of_int (Z.to_int z)).
Definition str_of_nat (n : nat) : str := str_of_Z (Z.of_nat n).

(** ** The methods of [SpamEmailProcessor] *)

Section Processor.

Variable lib : Lib.

(** [datetime.now()] *)
Definition datetime_now : M datetime :=
  t <- next_tick ;; ret (now lib t).

(** [s.lower()] *)
Definition lower (s : str) : str :=
  if forallb is_ascii s then List.map ascii_lower s else unicode_lower lib s.

(** [part.decode(encoding)]: strict. UTF-8 is decoded here; other codecs
    are the library's. The text of the error message is abridged. *)
Definition is_utf8_name (enc : str) : bool :=
  let e := List.map ascii_lower enc in
  str_eqb e (text "utf-8") || str_eqb e (text "utf8")
  || str_eqb e (text "utf_8").

Definition bytes_decode (enc : str) (b : bytes) : exn + str :=
  if is_utf8_name enc then
    match Utf8.decode_strict b with
    | Some s => inr s
    | None =>
        inl (Exn "UnicodeDecodeError" (text "'utf-8' codec can't decode"))
    end
  else codec_decode lib enc b.

(** The loop of [decode_mime_words] over the decoded parts. *)
Fixpoint decode_parts (decoded_parts : list (header_part * option str))
    (decoded_text : str) : exn + str :=
  match decoded_parts with
  | [] => inr decoded_text
  | (part, encoding) :: rest =>
      match part with
      | PBytes b =>
          match encoding with
          | Some ((_ :: _) as enc) =>
              match bytes_decode enc b with
              | inl e => inl e
              | inr s => decode_parts rest (decoded_text ++ s)
              end
          | _ => decode_parts rest (decoded_text ++ Utf8.decode_ignore b)
          end
      | PStr s => decode_parts rest (decoded_text ++ s)
      end
  end.

(** [decode_header(text)]: a string is split by the library; a
    [Header] object gives back its one chunk, the raw bytes under the
    charset [unknown-8bit]. *)
Definition header_parts (v : hvalue)
  : exn + list (header_part * option str) :=
  match v with
  | HStr t => decode_header lib t
  | HHeader raw =>
      match escape_encode raw with
      | Some b => inr [(PBytes b, Some (text "unknown-8bit"))]
      | None =>
          inl (Exn "UnicodeEncodeError"
                 (text "'ascii' codec can't encode character"))
      end
  end.

Definition decode_mime_words (v : hvalue) : exn + str :=
  if hvalue_truthy v then
    match header_parts v with
    | inl e => inl e
    | inr decoded_parts => decode_parts decoded_parts []
    end
  else inr [].

(** Lines 123-128 of [extract_email_metadata]: the sender's domain. *)
Definition sender_domain_of (from_email : str) : option str :=
  if str_in (text "@") from_email then
    match search false sender_domain_pattern from_email with
    | Some (_, g :: _) => Some g
    | _ => None
    end
  else None.

Definition extract_email_metadata (email_msg : Message) : M Metadata :=
  d <- datetime_now ;;
  subject <- lift (decode_mime_words (get email_msg "Subject")) ;;
  from <- lift (decode_mime_words (get email_msg "From")) ;;
  to <- lift (decode_mime_words (get email_msg "To")) ;;
  ret {| md_timestamp := isoformat d;
         md_subject := subject;
         md_from := from;
         md_to := to;
         md_date := get email_msg "Date";
         md_message_id := get email_msg "Message-ID";
         md_return_path := get email_msg "Return-Path";
         md_received := get_all email_msg "Received";
         md_x_mailer := get email_msg "X-Mailer";
         md_x_originating_ip := get email_msg "X-Originating-IP";
         md_sender_domain := sender_domain_of from;
         md_list_unsubscribe := None |}.

(** One round of the loop of [extract_email_content] over [walk()]. *)
Definition add_part (acc : str * str) (part : Message) : str * str :=
  let (text_content, html_content) := acc in
  let content_type := get_content_type part in
  let content_disposition :=
    hvalue_str (get part "Content-Disposition") in
  if negb (str_in (text "attachment") content_disposition) then
    if str_eqb content_type (text "text/plain") then
      match get_payload_decoded part with
      | Some ((_ :: _) as payload) =>
          (text_content ++ Utf8.decode_ignore payload, html_content)
      | _ => acc
      end
    else if str_eqb content_type (text "text/html") then
      match get_payload_decoded part with
      | Some ((_ :: _) as payload) =>
          (text_content, html_content ++ Utf8.decode_ignore payload)
      | _ => acc
      end
    else acc
  else acc.

Definition extract_email_content (email_msg : Message) : str * str :=
  if is_multipart email_msg then
    fold_left add_part (walk email_msg) ([], [])
  else
    match get_payload_decoded email_msg with
    | Some ((_ :: _) as payload) =>
        if str_eqb (get_content_type email_msg) (text "text/html") then
          ([], Utf8.decode_ignore payload)
        else (Utf8.decode_ignore payload, [])
    | _ => ([], [])
    end.

(** The HTML-anchor detector: the targets of the anchors whose text
    matches one of the patterns. *)
Definition anchor_links (html_content : str) : list str :=
  List.flat_map
    (fun link =>
       let link_text := lower (fst link) in
       let link_href := snd link in
       if existsb
            (fun pattern =>
               match search true pattern link_text with
               | Some _ => true
               | None => false
               end) unsubscribe_patterns
       then [link_href] else [])
    (anchors lib html_content).

(** The plain-text detector. *)
Definition text_urls (text_content : str) : list str :=
  findall true url_pattern text_content.

Definition find_unsubscribe_links (text_content html_content : str)
  : list str :=
  let from_html :=
    match html_content with [] => [] | _ => anchor_links html_content end in
  let from_text :=
    match text_content with [] => [] | _ => text_urls text_content end in
  set_order lib (from_html ++ from_text).

(** One round of the loop of [attempt_unsubscribe]. *)
Definition attempt_one (link : str) : M Attempt :=
  t <- next_tick ;;
  match http_get lib t link with
  | inr resp =>
      d <- datetime_now ;;
      let result :=
        {| a_link := link;
           a_status_code := Some (status_code resp);
           a_success := Z.eqb (status_code resp) 200;
           a_response_url := Some (response_url resp);
           a_error := None;
           a_timestamp := isoformat d |} in
      logger_info (text "Unsubscribe attempt: " ++ link ++
                   text " - Status: " ++ str_of_Z (status_code resp)) ;;;
      ret result
  | inl e =>
      d <- datetime_now ;;
      let result :=
        {| a_link := link;
           a_status_code := None;
           a_success := false;
           a_response_url := None;
           a_error := Some (str_of_exn e);
           a_timestamp := isoformat d |} in
      logger_error (text "Unsubscribe failed for " ++ link ++ text ": " ++
                    str_of_exn e) ;;;
      ret result
  end.

Fixpoint attempt_unsubscribe (unsubscribe_links : list str)
    (email_metadata : Metadata) : M (list Attempt) :=
  match unsubscribe_links with
  | [] => ret []
  | link :: rest =>
      result <- attempt_one link ;;
      results <- attempt_unsubscribe rest email_metadata ;;
      ret (result :: results)
  end.

Definition or_empty_list (v : json) : json :=
  if truthy v then v else JArr [].

Definition perform_whois_lookup (domain : str) : M json :=
  t <- next_tick ;;
  match whois_query lib t domain with
  | inr w =>
      d <- datetime_now ;;
      ret (JObj [ field "domain" (JStr domain);
                  field "registrar" (w_registrar w);
                  field "creation_date" (jopt JStr (w_creation_date w));
                  field "expiration_date" (jopt JStr (w_expiration_date w));
                  field "name_servers" (or_empty_list (w_name_servers w));
                  field "emails" (or_empty_list (w_emails w));
                  field "org" (w_org w);
                  field "country" (w_country w);
                  field "timestamp" (JStr (isoformat d)) ])
  | inl e =>
      logger_error (text "WHOIS lookup failed for " ++ domain ++ text ": " ++
                    str_of_exn e) ;;;
      d <- datetime_now ;;
      ret (JObj [ field "domain" (JStr domain);
                  field "error" (JStr (str_of_exn e));
                  field "timestamp" (JStr (isoformat d)) ])
  end.

Definition identify_company_from_content (text_content html_content : str)
    (md : Metadata) : list str :=
  let all_content :=
    text_content ++ text " " ++ html_content ++ text " " ++
    md_subject md ++ text " " ++ md_from md in
  let all_content_lower := lower all_content in
  List.filter (fun company => str_in company all_content_lower)
    (List.map fst company_reporting).

Definition report_to_authorities (email_metadata : Metadata)
    (email_content : str * str) : M (list AuthorityReport) :=
  d1 <- datetime_now ;;
  let ftc_report :=
    {| r_authority := text "FTC";
       r_method := text "Online Form";
       r_url := Some (text "https://reportfraud.ftc.gov/");
       r_email := None;
       r_status := text "Manual submission required";
       r_timestamp := isoformat d1 |} in
  d2 <- datetime_now ;;
  let ic3_report :=
    {| r_authority := text "IC3";
       r_method := text "Online Form";
       r_url := Some (text "https://www.ic3.gov/Home/FileComplaint");
       r_email := None;
       r_status := text "Manual submission required";
       r_timestamp := isoformat d2 |} in
  d3 <- datetime_now ;;
  let apwg_report :=
    {| r_authority := text "APWG";
       r_method := text "Email";
       r_url := None;
       r_email := Some (text "reportphishing@apwg.org");
       r_status := text "Ready for email submission";
       r_timestamp := isoformat d3 |} in
  ret [ftc_report; ic3_report; apwg_report].

Fixpoint report_to_companies (identified : list str)
    (email_metadata : Metadata) (email_content : str * str)
  : M (list CompanyReport) :=
  match identified with
  | [] => ret []
  | company :: rest =>
      match dict_get company company_reporting with
      | Some address =>
          d <- datetime_now ;;
          reports <- report_to_companies rest email_metadata email_content ;;
          ret ({| c_company := company;
                  c_email := address;
                  c_status := text "Ready for email submission";
                  c_timestamp := isoformat d |} :: reports)
      | None => report_to_companies rest email_metadata email_content
      end
  end.

(** *** Files *)

Definition get_world : M World := fun w => (inr w, w).

(** [open(path, 'rb').read()] in the intake directory *)
Definition read_artifact (name : str) : M bytes :=
  w <- get_world ;;
  match dict_get name (consume_dir w) with
  | Some content => ret content
  | None =>
      raise (Exn "FileNotFoundError" (text "No such file or directory"))
  end.

Definition set_logs (d : list (str * log_file)) : M unit :=
  fun w =>
    (inr tt,
     {| consume_dir := consume_dir w; processed_dir := processed_dir w;
        logs_dir := d; events := events w; tick := tick w |}).

(** [with open(file, 'w') as f: json.dump(doc, f, indent=2)] in the log
    directory *)
Definition write_json (name : str) (doc : json) : M unit :=
  t <- next_tick ;;
  w <- get_world ;;
  match write_fault lib t name with
  | WriteDone =>
      set_logs (dir_put name (Json doc) (logs_dir w)) ;;;
      emit (Wrote name)
  | WriteRefused e => emit (WriteFailed name) ;;; raise e
  | WriteBroken e =>
      set_logs (dir_put name Garbage (logs_dir w)) ;;;
      emit (WriteFailed name) ;;; raise e
  end.

(** [json.dump] of a dictionary that holds a [Header] object: the file
    is opened, the text before the object is written, and [TypeError]
    is raised. *)
Definition write_unserialisable (name : str) : M unit :=
  t <- next_tick ;;
  w <- get_world ;;
  match write_fault lib t name with
  | WriteDone =>
      set_logs (dir_put name Garbage (logs_dir w)) ;;;
      emit (WriteFailed name) ;;;
      raise (TypeError "Object of type Header is not JSON serializable")
  | WriteRefused e => emit (WriteFailed name) ;;; raise e
  | WriteBroken e =>
      set_logs (dir_put name Garbage (logs_dir w)) ;;;
      emit (WriteFailed name) ;;; raise e
  end.

(** [email_file_path.rename(self.processed_dir / email_file_path.name)] *)
Definition move_to_processed (name : str) : M unit :=
  t <- next_tick ;;
  w <- get_world ;;
  match dict_get name (consume_dir w) with
  | None =>
      emit (RenameFailed name) ;;;
      raise (Exn "FileNotFoundError" (text "No such file or directory"))
  | Some content =>
      match rename_fault lib t name with
      | Some e => emit (RenameFailed name) ;;; raise e
      | None =>
          (fun w0 =>
             (inr tt,
              {| consume_dir := dir_remove name (consume_dir w0);
                 processed_dir := dir_put name content (processed_dir w0);
                 logs_dir := logs_dir w0; events := events w0;
                 tick := tick w0 |})) ;;;
          emit (Renamed name)
      end
  end.

(** [open(file, 'r')] then [json.load] in the log directory *)
Definition read_json (w : World) (name : str) : exn + json :=
  match dict_get name (logs_dir w) with
  | Some (Json v) => inr v
  | Some Garbage => inl (Exn "JSONDecodeError" (text "Expecting value"))
  | None => inl (Exn "FileNotFoundError" (text "No such file or directory"))
  end.

Definition metadata_log_name (timestamp : str) : str :=
  text "email_metadata_" ++ timestamp ++ text ".json".
Definition actions_log_name (timestamp : str) : str :=
  text "actions_taken_" ++ timestamp ++ text ".json".

Definition log_processing_results (results : Results) : M unit :=
  d <- datetime_now ;;
  let timestamp := ymd_hms d in
  (if serialisable (metadata results)
   then write_json (metadata_log_name timestamp) (metadata_record results)
   else write_unserialisable (metadata_log_name timestamp)) ;;;
  write_json (actions_log_name timestamp) (actions_record results).

(** *** [process_email_file] *)

(** Lines 316-322: read, parse, extract metadata and content. *)
Definition extraction (name : str) : M (Message * Metadata * (str * str)) :=
  content <- read_artifact name ;;
  let email_msg := message_from_bytes lib content in
  md <- extract_email_metadata email_msg ;;
  ret (email_msg, md, extract_email_content email_msg).

Definition with_list_unsubscribe (md : Metadata) (v : str) : Metadata :=
  {| md_timestamp := md_timestamp md;
     md_subject := md_subject md;
     md_from := md_from md;
     md_to := md_to md;
     md_date := md_date md;
     md_message_id := md_message_id md;
     md_return_path := md_return_path md;
     md_received := md_received md;
     md_x_mailer := md_x_mailer md;
     md_x_originating_ip := md_x_originating_ip md;
     md_sender_domain := md_sender_domain md;
     md_list_unsubscribe := Some v |}.

(** Lines 329-334: the candidates handed to the attempt step. *)
Definition candidates (text_content html_content list_unsubscribe : str)
  : list str :=
  find_unsubscribe_links text_content html_content ++
  match list_unsubscribe with
  | [] => []
  | _ :: _ => findall false list_unsub_pattern list_unsubscribe
  end.

(** Lines 324-366: everything between extraction and persistence. A
    [List-Unsubscribe] value that is a [Header] object is true, is
    stored in the metadata and makes [re.findall] raise [TypeError],
    before any request is sent; [find_unsubscribe_links], called in
    between, has no effect of its own. *)
Definition analysis (name : str) (x : Message * Metadata * (str * str))
  : M Results :=
  let '(email_msg, md0, (text_content, html_content)) := x in
  list_unsubscribe <-
    match get email_msg "List-Unsubscribe" with
    | HStr v => ret v
    | HHeader _ =>
        raise (TypeError
                 "expected string or bytes-like object, got 'Header'")
    end ;;
  let md :=
    match list_unsubscribe with
    | [] => md0
    | _ :: _ => with_list_unsubscribe md0 list_unsubscribe
    end in
  let links := candidates text_content html_content list_unsubscribe in
  results <- match links with
             | [] => ret []
             | _ :: _ => attempt_unsubscribe links md
             end ;;
  whois <- match md_sender_domain md with
           | Some ((_ :: _) as domain) =>
               v <- perform_whois_lookup domain ;; ret (Some v)
           | _ => ret None
           end ;;
  let identified :=
    identify_company_from_content text_content html_content md in
  authority <- report_to_authorities md (text_content, html_content) ;;
  company <- report_to_companies identified md
               (text_content, html_content) ;;
  d <- datetime_now ;;
  ret {| file_path := consume_path name;
         metadata := md;
         unsubscribe_links := links;
         unsubscribe_results := results;
         whois_data := whois;
         identified_companies := identified;
         authority_reports := authority;
         company_reports := company;
         processing_timestamp := isoformat d |}.

(** Lines 368-376: persist, move, report. *)
Definition persist_and_move (name : str) (results : Results)
  : M (option Results) :=
  log_processing_results results ;;;
  move_to_processed name ;;;
  logger_info (text "Successfully processed " ++ name) ;;;
  ret (Some results).

Definition process_email_file (name : str) : M (option Results) :=
  logger_info (text "Processing email file: " ++ consume_path name) ;;;
  try_except
    (x <- extraction name ;;
     results <- analysis name x ;;
     persist_and_move name results)
    (fun e =>
       logger_error (text "Error processing " ++ consume_path name ++
                     text ": " ++ str_of_exn e) ;;;
       ret None).

(** *** [process_all_emails] *)

Definition glob_suffix (A : Type) (suffix : string) (d : list (str * A))
  : list str :=
  List.filter (ends_with (text suffix)) (List.map fst d).

Fixpoint process_each (email_files : list str) : M unit :=
  match email_files with
  | [] => ret tt
  | email_file :: rest =>
      process_email_file email_file ;;; process_each rest
  end.

Definition email_files_of (w : World) : list str :=
  glob_suffix ".eml" (consume_dir w) ++ glob_suffix ".msg" (consume_dir w).

Definition process_all_emails : M unit :=
  w <- get_world ;;
  let email_files := email_files_of w in
  match email_files with
  | [] => logger_info (text "No email files found in consume directory")
  | _ :: _ =>
      logger_info (text "Found " ++ str_of_nat (length email_files) ++
                   text " email files to process") ;;;
      process_each email_files
  end.

(** *** [generate_summary_report] *)

(** [glob("email_metadata_*.json")] over the log directory *)
Definition is_metadata_log (name : str) : bool :=
  starts_with (text "email_metadata_") name
  && ends_with (text ".json") name
  && (20 <=? length name).

Definition metadata_logs (w : World) : list str :=
  List.filter is_metadata_log (List.map fst (logs_dir w)).

(** [Path.stem]: the name without its last suffix. *)
Fixpoint last_dot (s : str) : option nat :=
  match s with
  | [] => None
  | c :: s' =>
      match last_dot s' with
      | Some i => Some (S i)
      | None => if N.eqb c (cp ".") then Some O else None
      end
  end.

Definition stem (name : str) : str :=
  match last_dot name with
  | Some i =>
      if (0 <? i) && (S i <? length name) then firstn i name else name
  | None => name
  end.

(** [s.replace(old, '')] for a non-empty [old]; [skip] counts the
    characters of an occurrence still to drop. *)
Fixpoint remove_all (old s : str) (skip : nat) : str :=
  match s with
  | [] => []
  | c :: s' =>
      match skip with
      | S n => remove_all old s' n
      | O =>
          if starts_with old s then remove_all old s' (pred (length old))
          else c :: remove_all old s' 0
      end
  end.

Definition update_summary (f : Summary -> Summary) : ST Summary unit :=
  fun s => (inr tt, f s).

Definition add_domain (domain : json) (s : Summary) : Summary :=
  {| total_emails_processed := total_emails_processed s;
     processing_date := processing_date s;
     domains_encountered := domains_encountered s ++ [domain];
     companies_identified := companies_identified s;
     total_unsubscribe_attempts := total_unsubscribe_attempts s;
     successful_unsubscribes := successful_unsubscribes s |}.

Definition add_company (company : json) (s : Summary) : Summary :=
  {| total_emails_processed := total_emails_processed s;
     processing_date := processing_date s;
     domains_encountered := domains_encountered s;
     companies_identified := companies_identified s ++ [company];
     total_unsubscribe_attempts := total_unsubscribe_attempts s;
     successful_unsubscribes := successful_unsubscribes s |}.

Definition add_attempts (n : nat) (s : Summary) : Summary :=
  {| total_emails_processed := total_emails_processed s;
     processing_date := processing_date s;
     domains_encountered := domains_encountered s;
     companies_identified := companies_identified s;
     total_unsubscribe_attempts := total_unsubscribe_attempts s + n;
     successful_unsubscribes := successful_unsubscribes s |}.

Definition add_successes (n : nat) (s : Summary) : Summary :=
  {| total_emails_processed := total_emails_processed s;
     processing_date := processing_date s;
     domains_encountered := domains_encountered s;
     companies_identified := companies_identified s;
     total_unsubscribe_attempts := total_unsubscribe_attempts s;
     successful_unsubscribes := successful_unsubscribes s + n |}.

(** [sum(1 for attempt in unsub_attempts if attempt.get("success"))] *)
Fixpoint count_success (attempts : list json) : exn + nat :=
  match attempts with
  | [] => inr O
  | attempt :: rest =>
      match py_get attempt "success" JNull with
      | inl e => inl e
      | inr v =>
          match count_success rest with
          | inl e => inl e
          | inr n => inr ((if truthy v then 1 else 0) + n)
          end
      end
  end.

(** The loop over [company_reports]. *)
Fixpoint collect_companies (reports : list json) : ST Summary unit :=
  match reports with
  | [] => ret tt
  | report :: rest =>
      company <- lift (py_get report "company" JNull) ;;
      (fun s =>
         if truthy company && negb (py_in company (companies_identified s))
         then update_summary (add_company company) s
         else ret tt s) ;;;
      collect_companies rest
  end.

(** Lines 452-466: the part of the loop body that reads the actions
    record. *)
Definition fold_actions (w : World) (actions_file : str) : ST Summary unit :=
  actions_data <- lift (read_json w actions_file) ;;
  unsub_attempts <-
    lift (py_get actions_data "unsubscribe_attempts" (JArr [])) ;;
  n <- lift (py_len unsub_attempts) ;;
  update_summary (add_attempts n) ;;;
  attempts <- lift (py_iter unsub_attempts) ;;
  k <- lift (count_success attempts) ;;
  update_summary (add_successes k) ;;;
  company_reports <- lift (py_get actions_data "company_reports" (JArr [])) ;;
  reports <- lift (py_iter company_reports) ;;
  collect_companies reports.

(** The name of the actions record that goes with a metadata record. *)
Definition actions_file_of (log_file : str) : str :=
  actions_log_name (remove_all (text "email_metadata_") (stem log_file) 0).

(** Lines 439-466: the body of the [try] for one metadata record. *)
Definition fold_record (w : World) (log_file : str) : ST Summary unit :=
  data <- lift (read_json w log_file) ;;
  md <- lift (py_get data "metadata" (JObj [])) ;;
  domain <- lift (py_get md "sender_domain" JNull) ;;
  (fun s =>
     if truthy domain && negb (py_in domain (domains_encountered s))
     then update_summary (add_domain domain) s
     else ret tt s) ;;;
  let actions_file := actions_file_of log_file in
  match dict_get actions_file (logs_dir w) with
  | Some _ => fold_actions w actions_file
  | None => ret tt
  end.

(** The [for] loop with its [try]/[except]. *)
Fixpoint fold_records (log_files : list str) (summary : Summary)
  : M Summary :=
  match log_files with
  | [] => ret summary
  | log_file :: rest =>
      w <- get_world ;;
      match fold_record w log_file summary with
      | (inr _, summary') => fold_records rest summary'
      | (inl e, summary') =>
          logger_error (text "Error reading log file " ++
                        logs_path log_file ++ text ": " ++ str_of_exn e) ;;;
          fold_records rest summary'
      end
  end.

Definition generate_summary_report : M (option Summary) :=
  w <- get_world ;;
  let log_files := metadata_logs w in
  match log_files with
  | [] =>
      logger_info (text "No processed emails found for summary") ;;;
      ret None
  | _ :: _ =>
      d <- datetime_now ;;
      let summary :=
        {| total_emails_processed := length log_files;
           processing_date := isoformat d;
           domains_encountered := [];
           companies_identified := [];
           total_unsubscribe_attempts := 0;
           successful_unsubscribes := 0 |} in
      summary <- fold_records log_files summary ;;
      d' <- datetime_now ;;
      let summary_file :=
        text "summary_report_" ++ ymd d' ++ text ".json" in
      write_json summary_file (json_of_summary summary) ;;;
      logger_info (text "Summary report saved to " ++
                   logs_path summary_file) ;;;
      ret (Some summary)
  end.

End Processor.

(** * Properties *)

(** ** Reasoning about computations *)

Lemma bind_cases (S A B : Type) (m : ST S A) (f : A -> ST S B)
    (w w' : S) (r : exn + B) :
  bind m f w = (r, w') ->
  (exists e, m w = (inl e, w') /\ r = inl e) \/
  (exists a w1, m w = (inr a, w1) /\ f a w1 = (r, w')).
Proof.
  unfold bind. destruct (m w) as [[e | a] w1]; intros H.
  - left. exists e. now inversion H.
  - right. now exists a, w1.
Qed.

Lemma bind_ok (S A B : Type) (m : ST S A) (f : A -> ST S B)
    (w w' : S) (b : B) :
  bind m f w = (inr b, w') ->
  exists a w1, m w = (inr a, w1) /\ f a w1 = (inr b, w').
Proof.
  intros H. apply bind_cases in H as [[e [_ H]] | H]; [discriminate | exact H].
Qed.

Lemma bind_of_ok (S A B : Type) (m : ST S A) (f : A -> ST S B)
    (w w1 : S) (a : A) :
  m w = (inr a, w1) -> bind m f w = f a w1.
Proof. unfold bind. now intros ->. Qed.

Lemma bind_of_raise (S A B : Type) (m : ST S A) (f : A -> ST S B)
    (w w1 : S) (e : exn) :
  m w = (inl e, w1) -> bind m f w = (inl e, w1).
Proof. unfold bind. now intros ->. Qed.

(** What a computation appended to the trace. *)
Definition appended (w w' : World) (evs : list event) : Prop :=
  events w' = events w ++ evs.

Definition is_log (ev : event) : Prop :=
  match ev with
  | Logged _ _ => True
  | _ => False
  end.

(** A computation that only logs and reads the clock: the three
    directories stay as they are. *)
Definition quiet (A : Type) (m : M A) : Prop :=
  forall w r w',
    m w = (r, w') ->
    consume_dir w' = consume_dir w /\
    processed_dir w' = processed_dir w /\
    logs_dir w' = logs_dir w /\
    exists evs, appended w w' evs /\ Forall is_log evs.

Lemma quiet_ret (A : Type) (a : A) : quiet (ret a).
Proof.
  intros w r w' H. inversion H; subst. repeat split.
  exists []. split; [unfold appended; now rewrite app_nil_r | constructor].
Qed.

Lemma quiet_raise (A : Type) (e : exn) : quiet (@raise World A e).
Proof.
  intros w r w' H. inversion H; subst. repeat split.
  exists []. split; [unfold appended; now rewrite app_nil_r | constructor].
Qed.

Lemma quiet_lift (A : Type) (x : exn + A) : quiet (lift x).
Proof.
  intros w r w' H. inversion H; subst. repeat split.
  exists []. split; [unfold appended; now rewrite app_nil_r | constructor].
Qed.

Lemma quiet_get_world : quiet get_world.
Proof.
  intros w r w' H. inversion H; subst. repeat split.
  exists []. split; [unfold appended; now rewrite app_nil_r | constructor].
Qed.

Lemma quiet_next_tick : quiet next_tick.
Proof.
  intros w r w' H. inversion H; subst. simpl. repeat split.
  exists []. split; [unfold appended; simpl; now rewrite app_nil_r | constructor].
Qed.

Lemma quiet_log (l : level) (msg : str) : quiet (emit (Logged l msg)).
Proof.
  intros w r w' H. inversion H; subst. simpl. repeat split.
  exists [Logged l msg]. split; [reflexivity | repeat constructor].
Qed.

Lemma quiet_bind (A B : Type) (m : M A) (f : A -> M B) :
  quiet m -> (forall a, quiet (f a)) -> quiet (bind m f).
Proof.
  intros Hm Hf w r w' H.
  apply bind_cases in H as [[e [H ->]] | [a [w1 [H1 H2]]]].
  - now apply Hm in H.
  - apply Hm in H1 as [C1 [P1 [L1 [ev1 [E1 F1]]]]].
    apply Hf in H2 as [C2 [P2 [L2 [ev2 [E2 F2]]]]].
    repeat split; try congruence.
    exists (ev1 ++ ev2). split.
    + unfold appended in *. rewrite E2, E1. now rewrite app_assoc.
    + apply Forall_app. now split.
Qed.

Lemma quiet_try (A : Type) (m : M A) (h : exn -> M A) :
  quiet m -> (forall e, quiet (h e)) -> quiet (try_except m h).
Proof.
  intros Hm Hh w r w' H. unfold try_except in H.
  destruct (m w) as [[e | a] w1] eqn:E.
  - apply Hm in E as [C1 [P1 [L1 [ev1 [E1 F1]]]]].
    apply Hh in H as [C2 [P2 [L2 [ev2 [E2 F2]]]]].
    repeat split; try congruence.
    exists (ev1 ++ ev2). split.
    + unfold appended in *. rewrite E2, E1. now rewrite app_assoc.
    + apply Forall_app. now split.
  - inversion H; subst. now apply Hm in E.
Qed.

Create HintDb quiet.
#[local] Hint Resolve quiet_ret quiet_raise quiet_lift quiet_get_world
  quiet_next_tick quiet_log quiet_bind quiet_try : quiet.

Ltac quiet_tac :=
  repeat first
    [ apply quiet_bind; [| intros ?]
    | apply quiet_ret | apply quiet_raise | apply quiet_lift
    | apply quiet_get_world | apply quiet_next_tick | apply quiet_log
    | match goal with
      | |- quiet (match ?x with _ => _ end) => destruct x
      | |- quiet (let '(_, _) := ?x in _) => destruct x
      end ].

Section Quiet.
Variable lib : Lib.

Lemma quiet_datetime_now : quiet (datetime_now lib).
Proof. unfold datetime_now. quiet_tac. Qed.

Lemma quiet_extract_email_metadata (m : Message) :
  quiet (extract_email_metadata lib m).
Proof.
  unfold extract_email_metadata. quiet_tac.
Qed.

Lemma quiet_extraction (name : str) : quiet (extraction lib name).
Proof.
  unfold extraction, read_artifact. quiet_tac.
Qed.

Lemma quiet_attempt_one (link : str) : quiet (attempt_one lib link).
Proof.
  unfold attempt_one, logger_info, logger_error.
  quiet_tac.
Qed.

Lemma quiet_attempt_unsubscribe (links : list str) (md : Metadata) :
  quiet (attempt_unsubscribe lib links md).
Proof.
  induction links as [|l links IH]; simpl; quiet_tac; try exact IH.
Qed.

Lemma quiet_perform_whois_lookup (domain : str) :
  quiet (perform_whois_lookup lib domain).
Proof.
  unfold perform_whois_lookup, logger_error.
  quiet_tac.
Qed.

Lemma quiet_report_to_authorities (md : Metadata) (c : str * str) :
  quiet (report_to_authorities lib md c).
Proof.
  unfold report_to_authorities. quiet_tac; apply quiet_datetime_now.
Qed.

Lemma quiet_report_to_companies (ids : list str) (md : Metadata)
    (c : str * str) :
  quiet (report_to_companies lib ids md c).
Proof.
  induction ids as [|i ids IH]; simpl; quiet_tac; try exact IH.
Qed.

Lemma quiet_analysis (name : str) (x : Message * Metadata * (str * str)) :
  quiet (analysis lib name x).
Proof.
  destruct x as [[email_msg md0] [text_content html_content]].
  unfold analysis.
  quiet_tac;
    first [ apply quiet_attempt_unsubscribe
          | apply quiet_report_to_companies ].
Qed.
End Quiet.

(** ** Sample surroundings

    A library and a world to run the methods on: headers without encoded
    words (which [decode_header] returns as one text part), a clock that
    counts, and the message, the web and the disk as given. *)

Definition plain_header (t : str) : exn + list (header_part * option str) :=
  inr [(PStr t, None)].

Definition sample_clock (t : nat) : datetime :=
  {| isoformat := text "2024-01-01T00:00:00." ++ str_of_nat t;
     ymd_hms := text "20240101_0000" ++ str_of_nat t;
     ymd := text "20240101" |}.

Definition sample_lib (msg : Message)
    (headers : str -> exn + list (header_part * option str))
    (web : nat -> str -> exn + response)
    (disk : nat -> str -> write_outcome) : Lib :=
  {| message_from_bytes := fun _ => msg;
     decode_header := headers;
     codec_decode :=
       fun _ _ => inl (Exn "LookupError" (text "unknown encoding"));
     anchors := fun _ => [];
     unicode_lower := fun s => s;
     set_order := nodup str_eq_dec;
     http_get := web;
     whois_query :=
       fun _ _ => inl (Exn "PywhoisError" (text "No match for domain"));
     now := sample_clock;
     write_fault := disk;
     rename_fault := fun _ _ => None |}.

Definition web_status (code : Z) (t : nat) (url : str) : exn + response :=
  inr {| status_code := code; response_url := url |}.

Definition timed_out : exn := Exn "ConnectTimeout" (text "timed out").

Definition disk_ok (t : nat) (name : str) : write_outcome := WriteDone.

Definition disk_full (t : nat) (name : str) : write_outcome :=
  WriteRefused (Exn "OSError" (text "No space left on device")).

(** A message in one part: sender, subject and a text body with a link. *)
Definition sample_message : Message :=
  Leaf [ (text "From", text "deals@spammy.example");
         (text "Subject", text "50% OFF!!!") ]
    (text "text/plain")
    (ascii_bytes "Leave: http://spammy.example/unsubscribe?u=1").

Definition sample_world : World :=
  {| consume_dir := [(text "offer.eml", ascii_bytes "(raw message)")];
     processed_dir := [];
     logs_dir := [];
     events := [];
     tick := 0 |}.

(** ** The attempt step *)

(** Among [links], attempted from tick [t] on, the number of requests
    that end in an exception: each round asks the web once and reads the
    clock once. *)
Fixpoint transport_failures (lib : Lib) (t : nat) (links : list str) : nat :=
  match links with
  | [] => 0
  | link :: rest =>
      (match http_get lib t link with inl _ => 1 | inr _ => 0 end)
      + transport_failures lib (t + 2) rest
  end.

Definition failed_with_error (a : Attempt) : bool :=
  negb (a_success a) &&
  match a_error a with Some _ => true | None => false end.

Lemma attempt_one_response (lib : Lib) (link : str) (w : World)
    (resp : response) :
  http_get lib (tick w) link = inr resp ->
  exists w',
    attempt_one lib link w =
      (inr {| a_link := link;
              a_status_code := Some (status_code resp);
              a_success := Z.eqb (status_code resp) 200;
              a_response_url := Some (response_url resp);
              a_error := None;
              a_timestamp := isoformat (now lib (S (tick w))) |}, w')
    /\ tick w' = tick w + 2.
Proof.
  intros H. unfold attempt_one, bind, next_tick. rewrite H. simpl.
  eexists. split; [reflexivity | simpl; lia].
Qed.

Lemma attempt_one_exception (lib : Lib) (link : str) (w : World) (e : exn) :
  http_get lib (tick w) link = inl e ->
  exists w',
    attempt_one lib link w =
      (inr {| a_link := link;
              a_status_code := None;
              a_success := false;
              a_response_url := None;
              a_error := Some (str_of_exn e);
              a_timestamp := isoformat (now lib (S (tick w))) |}, w')
    /\ tick w' = tick w + 2.
Proof.
  intros H. unfold attempt_one, bind, next_tick. rewrite H. simpl.
  eexists. split; [reflexivity | simpl; lia].
Qed.

(** What the attempt step records for one candidate, given the outcome
    of its request: after an exception, [success = false], no status
    code and the exception's own description [str(e)] as the error;
    after an answer, the answer's status code and no error. *)
Definition records_outcome (outcome : exn + response) (a : Attempt) : Prop :=
  match outcome with
  | inl e =>
      a_success a = false /\ a_error a = Some (str_of_exn e) /\
      a_status_code a = None
  | inr resp =>
      a_error a = None /\ a_status_code a = Some (status_code resp)
  end.

(** C6: every candidate gets its entry whatever happens to the others.
    The attempt step returns normally with one result per candidate, in
    the candidates' order; the result of a candidate whose request
    raised carries [success = false] and the description of that very
    exception, the result of an answered request carries no error; so
    the results with [success = false] and an error description are as
    many as the requests that raised. *)
Theorem attempt_unsubscribe_attempts_all (lib : Lib) (links : list str)
    (md : Metadata) (w : World) :
  exists results w',
    attempt_unsubscribe lib links md w = (inr results, w') /\
    length results = length links /\
    List.map a_link results = links /\
    (forall i link,
        nth_error links i = Some link ->
        exists a,
          nth_error results i = Some a /\ a_link a = link /\
          records_outcome (http_get lib (tick w + 2 * i) link) a) /\
    length (List.filter failed_with_error results)
      = transport_failures lib (tick w) links /\
    tick w' = tick w + 2 * length links.
Proof.
  revert w. induction links as [|link rest IH]; intros w.
  - exists [], w. simpl. repeat split; try lia.
    intros [|i] link H; discriminate.
  - simpl attempt_unsubscribe.
    destruct (http_get lib (tick w) link) as [e | resp] eqn:H.
    + destruct (attempt_one_exception lib link w H) as [w1 [E1 T1]].
      destruct (IH w1) as [results [w2 [E2 [L2 [M2 [N2 [F2 T2]]]]]]].
      eexists. exists w2. split.
      { erewrite bind_of_ok by exact E1.
        erewrite bind_of_ok by exact E2. reflexivity. }
      split; [simpl; now rewrite L2 |].
      split; [simpl; now rewrite M2 |].
      split.
      { intros [|i] l I; simpl in I.
        - inversion I; subst l. eexists. split; [reflexivity |].
          split; [reflexivity |].
          replace (tick w + 2 * 0) with (tick w) by lia. rewrite H.
          simpl. repeat split.
        - destruct (N2 i l I) as [a [A [K R]]]. exists a.
          split; [exact A |]. split; [exact K |].
          replace (tick w + 2 * S i) with (tick w1 + 2 * i) by lia.
          exact R. }
      simpl. rewrite H, F2, T2, T1. split; [reflexivity | lia].
    + destruct (attempt_one_response lib link w H) as [w1 [E1 T1]].
      destruct (IH w1) as [results [w2 [E2 [L2 [M2 [N2 [F2 T2]]]]]]].
      eexists. exists w2. split.
      { erewrite bind_of_ok by exact E1.
        erewrite bind_of_ok by exact E2. reflexivity. }
      split; [simpl; now rewrite L2 |].
      split; [simpl; now rewrite M2 |].
      split.
      { intros [|i] l I; simpl in I.
        - inversion I; subst l. eexists. split; [reflexivity |].
          split; [reflexivity |].
          replace (tick w + 2 * 0) with (tick w) by lia. rewrite H.
          simpl. repeat split.
        - destruct (N2 i l I) as [a [A [K R]]]. exists a.
          split; [exact A |]. split; [exact K |].
          replace (tick w + 2 * S i) with (tick w1 + 2 * i) by lia.
          exact R. }
      simpl. unfold failed_with_error at 1. simpl. rewrite andb_false_r.
      rewrite H, F2, T2, T1. split; [reflexivity | lia].
Qed.

(** C2, as the code has it: when the request is answered, the recorded
    result carries the answer's status code, and [success] holds exactly
    when that code is 200. *)
Theorem success_iff_status_200 (lib : Lib) (link : str) (w : World)
    (resp : response) :
  http_get lib (tick w) link = inr resp ->
  exists a w',
    attempt_one lib link w = (inr a, w') /\
    a_link a = link /\
    a_status_code a = Some (status_code resp) /\
    (a_success a = true <-> status_code resp = 200%Z).
Proof.
  intros H. destruct (attempt_one_response lib link w H) as [w' [E _]].
  eexists. exists w'. split; [exact E |]. simpl.
  repeat split; intros; now apply Z.eqb_eq.
Qed.

Lemma success_iff_status_200_witness :
  http_get (sample_lib sample_message plain_header (web_status 200) disk_ok)
    (tick sample_world) (text "http://spammy.example/unsubscribe")
  = inr {| status_code := 200;
           response_url := text "http://spammy.example/unsubscribe" |} /\
  exists a w',
    attempt_one
      (sample_lib sample_message plain_header (web_status 200) disk_ok)
      (text "http://spammy.example/unsubscribe") sample_world = (inr a, w') /\
    a_link a = text "http://spammy.example/unsubscribe" /\
    a_status_code a = Some 200%Z /\
    (a_success a = true <-> 200%Z = 200%Z).
Proof.
  split; [reflexivity |].
  apply (@success_iff_status_200
           (sample_lib sample_message plain_header (web_status 200) disk_ok)
           (text "http://spammy.example/unsubscribe") sample_world
           {| status_code := 200;
              response_url := text "http://spammy.example/unsubscribe" |}).
  reflexivity.
Defined.

(** C2 as stated fails: an answer with status 204, a 2xx code, is
    recorded with [success = false]. *)
Lemma status_204_not_success :
  exists a w',
    attempt_one
      (sample_lib sample_message plain_header (web_status 204) disk_ok)
      (text "http://spammy.example/unsubscribe") sample_world = (inr a, w') /\
    a_status_code a = Some 204%Z /\
    ~ (a_success a = true <-> (200 <= 204 < 300)%Z).
Proof.
  destruct (@attempt_one_response
              (sample_lib sample_message plain_header (web_status 204) disk_ok)
              (text "http://spammy.example/unsubscribe") sample_world
              {| status_code := 204;
                 response_url := text "http://spammy.example/unsubscribe" |}
              eq_refl) as [w' [E _]].
  eexists. exists w'. split; [exact E |]. simpl. split; [reflexivity |].
  intros [_ H]. assert (F : false = true) by (apply H; lia). discriminate.
Qed.

(** ** One artifact through [process_email_file] *)

(** The events a computation added, and what they tell. *)
Definition new_events (w w' : World) : list event :=
  skipn (length (events w)) (events w').

Definition is_renamed (ev : event) : bool :=
  match ev with Renamed _ => true | _ => false end.

Definition is_write_failed (ev : event) : bool :=
  match ev with WriteFailed _ => true | _ => false end.

Definition processing_msg (name : str) : str :=
  text "Processing email file: " ++ consume_path name.

Definition error_msg (name : str) (e : exn) : str :=
  text "Error processing " ++ consume_path name ++ text ": " ++ str_of_exn e.

(** The [except] clause of [process_email_file]. *)
Definition abandon (name : str) (e : exn) : M (option Results) :=
  logger_error (error_msg name e) ;;; ret None.

Lemma new_events_appended (w w' : World) (evs : list event) :
  appended w w' evs -> new_events w w' = evs.
Proof.
  unfold appended, new_events. intros ->.
  rewrite skipn_app, skipn_all, Nat.sub_diag. reflexivity.
Qed.

Lemma appended_trans (w w1 w2 : World) (e1 e2 : list event) :
  appended w w1 e1 -> appended w1 w2 e2 -> appended w w2 (e1 ++ e2).
Proof.
  unfold appended. intros H1 H2. rewrite H2, H1. now rewrite app_assoc.
Qed.

(** The three stages in a row, each failure going to the handler. *)
Lemma process_email_file_stages (lib : Lib) (name : str) (w : World) :
  process_email_file lib name w =
  let w0 := snd (logger_info (processing_msg name) w) in
  match extraction lib name w0 with
  | (inl e, w1) => abandon name e w1
  | (inr x, w1) =>
      match analysis lib name x w1 with
      | (inl e, w2) => abandon name e w2
      | (inr results, w2) =>
          match persist_and_move lib name results w2 with
          | (inl e, w3) => abandon name e w3
          | (inr v, w3) => (inr v, w3)
          end
      end
  end.
Proof.
  unfold process_email_file, try_except, bind at 1. simpl.
  unfold bind at 1.
  destruct (extraction lib name _) as [[e | x] w1]; [reflexivity |].
  unfold bind at 1.
  destruct (analysis lib name x w1) as [[e | r] w2]; [reflexivity |].
  destruct (persist_and_move lib name r w2) as [[e | v] w3]; reflexivity.
Qed.

Lemma abandon_effect (name : str) (e : exn) (w : World) :
  abandon name e w =
  (inr None,
   {| consume_dir := consume_dir w; processed_dir := processed_dir w;
      logs_dir := logs_dir w;
      events := events w ++ [Logged ERROR (error_msg name e)];
      tick := tick w |}).
Proof. reflexivity. Qed.

(** [process_email_file] catches whatever is raised. *)
Lemma process_email_file_returns (lib : Lib) (name : str) (w : World) :
  exists v w', process_email_file lib name w = (inr v, w').
Proof.
  rewrite process_email_file_stages. cbv zeta.
  destruct (extraction lib name _) as [[e | x] w1];
    [rewrite abandon_effect; eauto |].
  destruct (analysis lib name x w1) as [[e | r] w2];
    [rewrite abandon_effect; eauto |].
  destruct (persist_and_move lib name r w2) as [[e | v] w3];
    [rewrite abandon_effect; eauto | eauto].
Qed.

Lemma process_each_returns (lib : Lib) (files : list str) (w : World) :
  exists w', process_each lib files w = (inr tt, w').
Proof.
  revert w. induction files as [|f files IH]; intros w; simpl.
  - now exists w.
  - destruct (process_email_file_returns lib f w) as [v [w1 E]].
    erewrite bind_of_ok by exact E. apply IH.
Qed.

(** The authority reports do not depend on the message. *)
Lemma report_to_authorities_value (lib : Lib) (md : Metadata)
    (c : str * str) (w : World) :
  exists w',
    report_to_authorities lib md c w =
    (inr [ {| r_authority := text "FTC";
              r_method := text "Online Form";
              r_url := Some (text "https://reportfraud.ftc.gov/");
              r_email := None;
              r_status := text "Manual submission required";
              r_timestamp := isoformat (now lib (tick w)) |};
           {| r_authority := text "IC3";
              r_method := text "Online Form";
              r_url := Some (text "https://www.ic3.gov/Home/FileComplaint");
              r_email := None;
              r_status := text "Manual submission required";
              r_timestamp := isoformat (now lib (S (tick w))) |};
           {| r_authority := text "APWG";
              r_method := text "Email";
              r_url := None;
              r_email := Some (text "reportphishing@apwg.org");
              r_status := text "Ready for email submission";
              r_timestamp := isoformat (now lib (S (S (tick w)))) |} ], w').
Proof.
  unfold report_to_authorities, datetime_now, bind, next_tick, ret. simpl.
  eexists. reflexivity.
Qed.

Definition staged (r : AuthorityReport) : str * str :=
  (r_authority r, r_status r).

Lemma analysis_authority_reports (lib : Lib) (name : str)
    (x : Message * Metadata * (str * str)) (w w' : World) (r : Results) :
  analysis lib name x w = (inr r, w') ->
  List.map staged (authority_reports r) =
  [ (text "FTC", text "Manual submission required");
    (text "IC3", text "Manual submission required");
    (text "APWG", text "Ready for email submission") ].
Proof.
  destruct x as [[email_msg md0] [text_content html_content]].
  unfold analysis. intros H.
  apply bind_ok in H as [lu [w0 [_ H]]].
  apply bind_ok in H as [results [w1 [_ H]]].
  apply bind_ok in H as [whois [w2 [_ H]]].
  apply bind_ok in H as [authority [w3 [HA H]]].
  apply bind_ok in H as [company [w4 [_ H]]].
  apply bind_ok in H as [d [w5 [_ H]]].
  inversion H; subst; simpl.
  destruct (report_to_authorities_value lib
              (match lu with
               | [] => md0
               | _ :: _ => with_list_unsubscribe md0 lu
               end) (text_content, html_content) w2) as [w3' E].
  rewrite E in HA. inversion HA; subst. reflexivity.
Qed.

Lemma persist_and_move_value (lib : Lib) (name : str) (r : Results)
    (w w' : World) (v : option Results) :
  persist_and_move lib name r w = (inr v, w') -> v = Some r.
Proof.
  unfold persist_and_move. intros H.
  apply bind_ok in H as [u1 [w1 [_ H]]].
  apply bind_ok in H as [u2 [w2 [_ H]]].
  apply bind_ok in H as [u3 [w3 [_ H]]].
  now inversion H.
Qed.

(** C10: whatever the message, a processed artifact's result stages the
    same three authority reports: FTC and IC3 for manual submission, then
    APWG ready for submission by email. *)
Theorem authority_reports_fixed (lib : Lib) (name : str) (w w' : World)
    (r : Results) :
  process_email_file lib name w = (inr (Some r), w') ->
  List.map staged (authority_reports r) =
  [ (text "FTC", text "Manual submission required");
    (text "IC3", text "Manual submission required");
    (text "APWG", text "Ready for email submission") ].
Proof.
  rewrite process_email_file_stages. cbv zeta.
  destruct (extraction lib name _) as [[e | x] w1];
    [rewrite abandon_effect; discriminate |].
  destruct (analysis lib name x w1) as [[e | r0] w2] eqn:A;
    [rewrite abandon_effect; discriminate |].
  destruct (persist_and_move lib name r0 w2) as [[e | v] w3] eqn:P;
    [rewrite abandon_effect; discriminate |].
  intros H. apply persist_and_move_value in P. inversion H; subst.
  inversion H1; subst. exact (analysis_authority_reports _ _ _ _ A).
Qed.

Lemma authority_reports_fixed_witness :
  exists r w',
    process_email_file
      (sample_lib sample_message plain_header (web_status 200) disk_ok)
      (text "offer.eml") sample_world = (inr (Some r), w') /\
    List.map staged (authority_reports r) =
    [ (text "FTC", text "Manual submission required");
      (text "IC3", text "Manual submission required");
      (text "APWG", text "Ready for email submission") ].
Proof.
  destruct (process_email_file
              (sample_lib sample_message plain_header (web_status 200) disk_ok)
              (text "offer.eml") sample_world) as [[e | [r |]] w'] eqn:E;
    [vm_compute in E; discriminate | | vm_compute in E; discriminate].
  exists r, w'. split; [reflexivity |].
  exact (@authority_reports_fixed _ _ _ _ _ E).
Defined.

(** ** Extraction failures *)

Lemma extraction_silent (lib : Lib) (name : str) (w w1 : World)
    (r : exn + Message * Metadata * (str * str)) :
  extraction lib name w = (r, w1) ->
  consume_dir w1 = consume_dir w /\ processed_dir w1 = processed_dir w /\
  logs_dir w1 = logs_dir w /\ events w1 = events w.
Proof.
  unfold extraction, read_artifact, extract_email_metadata, datetime_now,
    bind, get_world, next_tick, lift, ret, raise.
  destruct (dict_get name (consume_dir w)); simpl;
    [| intros H; inversion H; subst; auto].
  destruct (decode_mime_words lib (get _ "Subject"));
    [intros H; inversion H; subst; auto |].
  destruct (decode_mime_words lib (get _ "From"));
    [intros H; inversion H; subst; auto |].
  destruct (decode_mime_words lib (get _ "To"));
    intros H; inversion H; subst; auto.
Qed.

(** What is in the activity log does not change what extraction finds. *)
Lemma extraction_after_log (lib : Lib) (name : str) (ev : event) (w : World) :
  fst (extraction lib name (snd (emit ev w))) = fst (extraction lib name w).
Proof.
  unfold extraction, read_artifact, extract_email_metadata, datetime_now,
    bind, get_world, next_tick, lift, ret, raise, emit. simpl.
  destruct (dict_get name (consume_dir w)); simpl; [| reflexivity].
  destruct (decode_mime_words lib (get _ "Subject")); [reflexivity |].
  destruct (decode_mime_words lib (get _ "From")); [reflexivity |].
  destruct (decode_mime_words lib (get _ "To")); reflexivity.
Qed.

(** C3: when reading, parsing or extracting fails, the artifact stays
    where it was, nothing is written to the log directory or the
    completed directory, the activity log receives the error, and the
    batch loop goes on with the artifacts that remain. *)
Theorem malformed_artifact_abandoned (lib : Lib) (name : str) (w : World)
    (e : exn) (rest : list str) :
  fst (extraction lib name w) = inl e ->
  let run := process_email_file lib name w in
  fst run = inr None /\
  consume_dir (snd run) = consume_dir w /\
  processed_dir (snd run) = processed_dir w /\
  logs_dir (snd run) = logs_dir w /\
  new_events w (snd run) =
    [Logged INFO (processing_msg name); Logged ERROR (error_msg name e)] /\
  process_each lib (name :: rest) w = process_each lib rest (snd run) /\
  exists w', process_each lib rest (snd run) = (inr tt, w').
Proof.
  intros H run.
  assert (R : exists w1,
             run = abandon name e w1 /\
             consume_dir w1 = consume_dir w /\
             processed_dir w1 = processed_dir w /\
             logs_dir w1 = logs_dir w /\
             events w1 = events w ++ [Logged INFO (processing_msg name)]).
  { subst run. rewrite process_email_file_stages. cbv zeta.
    unfold logger_info.
    pose proof (extraction_after_log lib name
                  (Logged INFO (processing_msg name)) w) as L.
    rewrite H in L.
    destruct (extraction lib name (snd (emit _ w))) as [r w1] eqn:E.
    simpl in L. subst r. exists w1. split; [reflexivity |].
    apply extraction_silent in E as [C [P [G V]]]. simpl in *. auto. }
  destruct R as [w1 [E [C [P [G V]]]]].
  rewrite abandon_effect in E.
  assert (S1 : fst run = inr None) by now rewrite E.
  repeat split; try (rewrite E; simpl; congruence).
  - apply new_events_appended. unfold appended. rewrite E. simpl.
    rewrite V, <- app_assoc. reflexivity.
  - simpl. unfold bind at 1. fold run. rewrite E. reflexivity.
  - apply process_each_returns.
Qed.

(** A message whose subject is an encoded word holding the byte FF,
    declared as UTF-8: [decode_header] splits it so, and the strict
    decoder refuses it. *)
Definition undecodable_header (t : str)
  : exn + list (header_part * option str) :=
  inr [(PBytes [Byte.xff], Some (text "utf-8"))].

Definition undecodable_message : Message :=
  Leaf [(text "Subject", text "=?utf-8?b?/w==?=")] (text "text/plain")
    (ascii_bytes "hello").

Lemma malformed_artifact_abandoned_witness :
  let lib := sample_lib undecodable_message undecodable_header
               (web_status 200) disk_ok in
  let e := Exn "UnicodeDecodeError" (text "'utf-8' codec can't decode") in
  fst (extraction lib (text "offer.eml") sample_world) = inl e /\
  fst (process_email_file lib (text "offer.eml") sample_world) = inr None /\
  consume_dir (snd (process_email_file lib (text "offer.eml") sample_world))
    = consume_dir sample_world.
Proof.
  intros lib e.
  assert (H : fst (extraction lib (text "offer.eml") sample_world) = inl e)
    by (vm_compute; reflexivity).
  split; [exact H |].
  destruct (@malformed_artifact_abandoned lib (text "offer.eml") sample_world
              e [] H) as [R [C _]].
  split; [exact R | exact C].
Defined.

(** ** Persistence, then relocation *)

Lemma dict_get_dir_put_same (A : Type) (n : str) (v : A)
    (d : list (str * A)) :
  dict_get n (dir_put n v d) = Some v.
Proof.
  induction d as [|[k x] d IH]; simpl.
  - now rewrite str_eqb_refl.
  - destruct (str_eqb n k) eqn:E; simpl; rewrite E; [reflexivity | exact IH].
Qed.

Lemma dict_get_dir_put_other (A : Type) (n n' : str) (v : A)
    (d : list (str * A)) :
  str_eqb n n' = false ->
  dict_get n (dir_put n' v d) = dict_get n d.
Proof.
  intros H. induction d as [|[k x] d IH]; simpl.
  - now rewrite H.
  - destruct (str_eqb n' k) eqn:E; simpl.
    + apply str_eqb_spec in E. subst k. now rewrite H.
    + now rewrite IH.
Qed.

Lemma log_names_differ (ts : str) :
  str_eqb (metadata_log_name ts) (actions_log_name ts) = false.
Proof. reflexivity. Qed.

(** [log_processing_results] either writes both records, the metadata
    record first, or raises after a failed write. *)
Lemma log_processing_results_cases (lib : Lib) (r : Results) (w w' : World)
    (v : exn + unit) :
  log_processing_results lib r w = (v, w') ->
  let ts := ymd_hms (now lib (tick w)) in
  consume_dir w' = consume_dir w /\ processed_dir w' = processed_dir w /\
  ((v = inr tt /\
    appended w w'
      [Wrote (metadata_log_name ts); Wrote (actions_log_name ts)] /\
    logs_dir w' =
      dir_put (actions_log_name ts) (Json (actions_record r))
        (dir_put (metadata_log_name ts) (Json (metadata_record r))
           (logs_dir w)))
   \/
   (exists e evs,
      v = inl e /\ appended w w' evs /\
      existsb is_renamed evs = false /\
      existsb is_write_failed evs = true)).
Proof.
  unfold log_processing_results, write_json, write_unserialisable,
    datetime_now, bind, next_tick, get_world, set_logs, emit, raise, ret,
    appended. simpl.
  destruct (serialisable (metadata r)); simpl.
  - destruct (write_fault lib (S (tick w)) _) as [| e | e]; simpl.
    + destruct (write_fault lib (S (S (tick w))) _) as [| e | e]; simpl;
        intros H; inversion H; subst; simpl; repeat split.
      * left. repeat split. now rewrite <- app_assoc.
      * right. exists e. eexists. rewrite <- app_assoc. repeat split.
      * right. exists e. eexists. rewrite <- app_assoc. repeat split.
    + intros H; inversion H; subst; simpl; repeat split.
      right. exists e. eexists. repeat split.
    + intros H; inversion H; subst; simpl; repeat split.
      right. exists e. eexists. repeat split.
  - destruct (write_fault lib (S (tick w)) _) as [| e | e]; simpl;
      intros H; inversion H; subst; simpl; repeat split;
      right; eexists; eexists; repeat split.
Qed.

(** The move either happens, as the only change, or raises leaving the
    directories alone. *)
Lemma move_to_processed_cases (lib : Lib) (name : str) (w w' : World)
    (v : exn + unit) :
  move_to_processed lib name w = (v, w') ->
  logs_dir w' = logs_dir w /\
  ((v = inr tt /\ appended w w' [Renamed name] /\
    consume_dir w' = dir_remove name (consume_dir w))
   \/
   (exists e, v = inl e /\ appended w w' [RenameFailed name] /\
      consume_dir w' = consume_dir w /\
      processed_dir w' = processed_dir w)).
Proof.
  unfold move_to_processed, bind, next_tick, get_world, emit, raise, ret,
    appended. simpl.
  destruct (dict_get name (consume_dir w)) as [content |]; simpl.
  - destruct (rename_fault lib (tick w) name) as [e |]; simpl;
      intros H; inversion H; subst; simpl; split; auto.
    right. exists e. auto.
  - intros H; inversion H; subst; simpl; split; auto.
    right. eexists. auto.
Qed.

Definition success_msg (name : str) : str :=
  text "Successfully processed " ++ name.

Lemma persist_and_move_cases (lib : Lib) (name : str) (r : Results)
    (w w' : World) (v : exn + option Results) :
  persist_and_move lib name r w = (v, w') ->
  let ts := ymd_hms (now lib (tick w)) in
  (v = inr (Some r) /\
   appended w w'
     [Wrote (metadata_log_name ts); Wrote (actions_log_name ts);
      Renamed name; Logged INFO (success_msg name)] /\
   logs_dir w' =
     dir_put (actions_log_name ts) (Json (actions_record r))
       (dir_put (metadata_log_name ts) (Json (metadata_record r))
          (logs_dir w)))
  \/
  (exists e evs,
     v = inl e /\ appended w w' evs /\
     existsb is_renamed evs = false /\
     consume_dir w' = consume_dir w /\
     processed_dir w' = processed_dir w).
Proof.
  intros H ts. unfold persist_and_move in H.
  apply bind_cases in H as [[e [H ->]] | [u [w1 [H1 H]]]].
  { apply log_processing_results_cases in H
      as [C [P [[F _] | [e' [evs [V [A [R _]]]]]]]]; [discriminate |].
    right. exists e, evs. auto. }
  apply log_processing_results_cases in H1
    as [C1 [P1 [[_ [A1 L1]] | [e' [evs [V _]]]]]]; [| discriminate].
  apply bind_cases in H as [[e [H ->]] | [u2 [w2 [H2 H]]]].
  { apply move_to_processed_cases in H
      as [L [[F _] | [e' [V [A [C P]]]]]]; [discriminate |].
    right. exists e. eexists. split; [reflexivity |].
    split; [exact (appended_trans A1 A) |].
    repeat split; congruence. }
  apply move_to_processed_cases in H2
    as [L2 [[_ [A2 C2]] | [e' [V _]]]]; [| discriminate].
  unfold logger_info, emit, bind, ret in H. inversion H; subst. simpl.
  left. split; [reflexivity |]. subst ts. cbv zeta in *. split.
  - unfold appended in *. simpl. rewrite A2, A1, <- !app_assoc. reflexivity.
  - rewrite L2, L1. reflexivity.
Qed.

Lemma logs_not_renamed (evs : list event) :
  Forall is_log evs ->
  existsb is_renamed evs = false /\ existsb is_write_failed evs = false.
Proof.
  induction 1 as [|ev evs H _ [IH1 IH2]]; [now split |].
  destruct ev; simpl in *; try contradiction. now split.
Qed.

(** After an artifact either both records are in the log directory, the
    move was made right after the second write and only the closing log
    line follows, or the artifact was not moved at all. *)
Lemma process_email_file_outcome (lib : Lib) (name : str) (w : World) :
  let run := process_email_file lib name w in
  let evs := new_events w (snd run) in
  (exists res pre ts,
      fst run = inr (Some res) /\
      evs = pre ++ [Wrote (metadata_log_name ts);
                    Wrote (actions_log_name ts);
                    Renamed name; Logged INFO (success_msg name)] /\
      Forall is_log pre /\
      dict_get (metadata_log_name ts) (logs_dir (snd run))
        = Some (Json (metadata_record res)) /\
      dict_get (actions_log_name ts) (logs_dir (snd run))
        = Some (Json (actions_record res)))
  \/
  (fst run = inr None /\
   existsb is_renamed evs = false /\
   consume_dir (snd run) = consume_dir w /\
   processed_dir (snd run) = processed_dir w).
Proof.
  intros run evs. subst evs run.
  rewrite process_email_file_stages. cbv zeta.
  assert (A0 : appended w (snd (logger_info (processing_msg name) w))
                 [Logged INFO (processing_msg name)]) by reflexivity.
  assert (D0 : consume_dir (snd (logger_info (processing_msg name) w))
               = consume_dir w /\
               processed_dir (snd (logger_info (processing_msg name) w))
               = processed_dir w) by (split; reflexivity).
  destruct D0 as [C0 P0].
  set (w0 := snd (logger_info (processing_msg name) w)) in *.
  destruct (extraction lib name w0) as [[e | x] w1] eqn:E1.
  { right. rewrite abandon_effect. simpl.
    apply extraction_silent in E1 as [C [P [L V]]].
    rewrite (@new_events_appended w _
               [Logged INFO (processing_msg name);
                Logged ERROR (error_msg name e)]).
    - repeat split; congruence.
    - unfold appended in *. simpl. rewrite V, A0, <- app_assoc. reflexivity. }
  apply extraction_silent in E1 as [C1 [P1 [L1 V1]]].
  assert (A1 : appended w w1 [Logged INFO (processing_msg name)])
    by (unfold appended in *; congruence).
  destruct (analysis lib name x w1) as [[e | r] w2] eqn:E2.
  { right. rewrite abandon_effect. simpl.
    apply quiet_analysis in E2 as [C [P [L [ev2 [A2 F2]]]]].
    pose proof (appended_trans A1 A2) as A.
    rewrite (@new_events_appended w _
               (([Logged INFO (processing_msg name)] ++ ev2)
                ++ [Logged ERROR (error_msg name e)])).
    - rewrite !existsb_app. simpl.
      destruct (logs_not_renamed F2) as [-> _].
      repeat split; congruence.
    - unfold appended in *. simpl. rewrite A, <- !app_assoc. reflexivity. }
  apply quiet_analysis in E2 as [C2 [P2 [L2 [ev2 [A2 F2]]]]].
  pose proof (appended_trans A1 A2) as A12.
  destruct (persist_and_move lib name r w2) as [v w3] eqn:E3.
  apply persist_and_move_cases in E3
    as [[-> [A3 L3]] | [e [ev3 [-> [A3 [R3 [C3 P3]]]]]]].
  - left. exists r, ([Logged INFO (processing_msg name)] ++ ev2).
    exists (ymd_hms (now lib (tick w2))). simpl.
    split; [reflexivity |]. split.
    { apply new_events_appended. exact (appended_trans A12 A3). }
    split.
    { constructor; [exact I | exact F2]. }
    rewrite L3. split.
    + rewrite dict_get_dir_put_other by apply log_names_differ.
      apply dict_get_dir_put_same.
    + apply dict_get_dir_put_same.
  - right. rewrite abandon_effect. simpl.
    pose proof (appended_trans A12 A3) as A.
    rewrite (@new_events_appended w _
               ((([Logged INFO (processing_msg name)] ++ ev2) ++ ev3)
                ++ [Logged ERROR (error_msg name e)])).
    + rewrite !existsb_app. simpl. rewrite R3.
      destruct (logs_not_renamed F2) as [-> _].
      repeat split; congruence.
    + unfold appended in *. simpl. rewrite A, <- !app_assoc. reflexivity.
Qed.

(** C4: the move out of the intake directory comes last. When the
    artifact was moved, the two writes and the move are the last three
    effects, in that order, followed by the closing log line only, and
    both records are in the log directory; when a write failed the
    artifact was not moved: it is still in the intake directory and
    nothing reached the completed directory. *)
Theorem relocation_is_last_step (lib : Lib) (name : str) (w : World) :
  let run := process_email_file lib name w in
  let evs := new_events w (snd run) in
  (existsb is_renamed evs = true ->
   exists res pre ts,
     fst run = inr (Some res) /\
     evs = pre ++ [Wrote (metadata_log_name ts);
                   Wrote (actions_log_name ts);
                   Renamed name; Logged INFO (success_msg name)] /\
     Forall is_log pre /\
     dict_get (metadata_log_name ts) (logs_dir (snd run))
       = Some (Json (metadata_record res)) /\
     dict_get (actions_log_name ts) (logs_dir (snd run))
       = Some (Json (actions_record res)))
  /\
  (existsb is_write_failed evs = true ->
   fst run = inr None /\
   existsb is_renamed evs = false /\
   consume_dir (snd run) = consume_dir w /\
   processed_dir (snd run) = processed_dir w).
Proof.
  intros run evs.
  destruct (process_email_file_outcome lib name w)
    as [[res [pre [ts [R [E [F [G1 G2]]]]]]] | [R [N [C P]]]];
    fold run in R; fold run evs in E || fold run evs in N.
  - split.
    + intros _. exists res, pre, ts. fold run in G1, G2. auto.
    + intros H. exfalso. rewrite E, existsb_app in H. simpl in H.
      destruct (logs_not_renamed F) as [_ W]. rewrite W in H. discriminate.
  - split.
    + intros H. rewrite N in H. discriminate.
    + intros _. fold run in C, P. auto.
Qed.

Lemma relocation_is_last_step_witness :
  let ok := sample_lib sample_message plain_header (web_status 200) disk_ok in
  let bad :=
    sample_lib sample_message plain_header (web_status 200) disk_full in
  let moved := process_email_file ok (text "offer.eml") sample_world in
  let kept := process_email_file bad (text "offer.eml") sample_world in
  (existsb is_renamed (new_events sample_world (snd moved)) = true /\
   exists res, fst moved = inr (Some res)) /\
  (existsb is_write_failed (new_events sample_world (snd kept)) = true /\
   consume_dir (snd kept) = consume_dir sample_world).
Proof.
  intros ok bad moved kept. split.
  - assert (H : existsb is_renamed (new_events sample_world (snd moved))
                = true) by (vm_compute; reflexivity).
    split; [exact H |].
    destruct (proj1 (relocation_is_last_step ok (text "offer.eml")
                       sample_world) H) as [res [_ [_ [R _]]]].
    exists res. exact R.
  - assert (H : existsb is_write_failed
                  (new_events sample_world (snd kept)) = true)
      by (vm_compute; reflexivity).
    split; [exact H |].
    exact (proj1 (proj2 (proj2 (proj2 (relocation_is_last_step bad
              (text "offer.eml") sample_world) H)))).
Defined.

(** ** What the matcher accepts *)

(** The language of a pattern: the texts it can match. *)
Fixpoint lang (ic : bool) (r : regex) (w : str) : Prop :=
  match r with
  | Lit c => exists x, w = [x] /\ lit_ok ic c x = true
  | Class p => exists x, w = [x] /\ p x = true
  | Seq r1 r2 => exists w1 w2, w = w1 ++ w2 /\ lang ic r1 w1 /\ lang ic r2 w2
  | Alt r1 r2 => lang ic r1 w \/ lang ic r2 w
  | Opt r1 => w = [] \/ lang ic r1 w
  | Star p => forallb p w = true
  | Plus p => w <> [] /\ forallb p w = true
  | Group r1 => lang ic r1 w
  end.

Fixpoint has_group (r : regex) : bool :=
  match r with
  | Lit _ | Class _ | Star _ | Plus _ => false
  | Seq r1 r2 | Alt r1 r2 => has_group r1 || has_group r2
  | Opt r1 => has_group r1
  | Group _ => true
  end.

Lemma star_sound (R : Type) (p : codepoint -> bool) (s : str)
    (k : str -> option R) (res : R) :
  star p s k = Some res ->
  exists w s', s = w ++ s' /\ forallb p w = true /\ k s' = Some res.
Proof.
  induction s as [|x s IH]; simpl.
  - intros H. now exists [], [].
  - destruct (p x) eqn:P.
    + destruct (star p s k) as [r |] eqn:E.
      * intros H. inversion H; subst.
        destruct (IH eq_refl) as [w [s' [-> [F K]]]].
        exists (x :: w), s'. simpl. now rewrite P, F.
      * intros H. now exists [], (x :: s).
    + intros H. now exists [], (x :: s).
Qed.

Lemma run_sound (ic : bool) (R : Type) (r : regex) :
  forall (s : str) (caps : list str) (k : str -> list str -> option R)
         (res : R),
    run ic r s caps k = Some res ->
    exists w s' caps',
      s = w ++ s' /\ lang ic r w /\
      (has_group r = false -> caps' = caps) /\
      k s' caps' = Some res.
Proof.
  induction r as [c | p | r1 IH1 r2 IH2 | r1 IH1 r2 IH2 | r1 IH1 | p | p
                 | r1 IH1]; intros s caps k res; simpl.
  - destruct s as [|x s]; [discriminate |].
    destruct (lit_ok ic c x) eqn:E; [| discriminate].
    intros H. exists [x], s, caps. repeat split; eauto.
  - destruct s as [|x s]; [discriminate |].
    destruct (p x) eqn:E; [| discriminate].
    intros H. exists [x], s, caps. repeat split; eauto.
  - intros H. apply IH1 in H as [w1 [s1 [caps1 [-> [L1 [G1 H]]]]]].
    apply IH2 in H as [w2 [s2 [caps2 [-> [L2 [G2 H]]]]]].
    exists (w1 ++ w2), s2, caps2. rewrite <- app_assoc.
    repeat split; eauto.
    intros G. apply orb_false_iff in G as [Ga Gb].
    rewrite (G2 Gb). exact (G1 Ga).
  - destruct (run ic r1 s caps k) as [res1 |] eqn:E.
    + intros H. inversion H; subst.
      apply IH1 in E as [w [s' [caps' [-> [L [G K]]]]]].
      exists w, s', caps'. repeat split; auto.
      intros F. apply orb_false_iff in F as [Fa _]. auto.
    + intros H. apply IH2 in H as [w [s' [caps' [-> [L [G K]]]]]].
      exists w, s', caps'. repeat split; auto.
      intros F. apply orb_false_iff in F as [_ Fb]. auto.
  - destruct (run ic r1 s caps k) as [res1 |] eqn:E.
    + intros H. inversion H; subst.
      apply IH1 in E as [w [s' [caps' [-> [L [G K]]]]]].
      exists w, s', caps'. repeat split; auto.
    + intros H. exists [], s, caps. repeat split; auto.
  - intros H. apply star_sound in H as [w [s' [-> [F K]]]].
    exists w, s', caps. repeat split; auto.
  - destruct s as [|x s]; [discriminate |].
    destruct (p x) eqn:E; [| discriminate].
    intros H. apply star_sound in H as [w [s' [-> [F K]]]].
    exists (x :: w), s', caps. simpl. rewrite E, F.
    repeat split; auto. discriminate.
  - intros H. apply IH1 in H as [w [s' [caps' [-> [L [G K]]]]]].
    exists w, s',
      (caps' ++ [firstn (length (w ++ s') - length s') (w ++ s')]).
    repeat split; auto. simpl. discriminate.
Qed.

Lemma firstn_matched (A : Type) (w s' : list A) :
  firstn (length (w ++ s') - length s') (w ++ s') = w.
Proof.
  rewrite length_app, Nat.add_sub, firstn_app, Nat.sub_diag, firstn_all.
  simpl. apply app_nil_r.
Qed.

Lemma match_at_sound (ic : bool) (r : regex) (s m : str) (caps : list str) :
  match_at ic r s = Some (m, caps) ->
  exists s', s = m ++ s' /\ lang ic r m /\ (has_group r = false -> caps = []).
Proof.
  unfold match_at. intros H.
  apply run_sound in H as [w [s' [caps' [-> [L [G K]]]]]].
  rewrite firstn_matched in K. inversion K; subst.
  exists s'. auto.
Qed.

Lemma scan_sound (ic : bool) (r : regex) (m : str) (caps : list str) :
  forall (s : str) (skip : nat),
    In (m, caps) (scan ic r s skip) ->
    exists before after,
      s = before ++ m ++ after /\ lang ic r m /\
      (has_group r = false -> caps = []).
Proof.
  induction s as [|x s IH]; intros skip; simpl.
  - destruct skip; [| contradiction].
    destruct (match_at ic r []) as [m0 |] eqn:E; [| contradiction].
    intros [H | []]. subst m0.
    apply match_at_sound in E as [s' [E [L G]]].
    exists [], s'. auto.
  - destruct skip as [| n].
    + destruct (match_at ic r (x :: s)) as [[m0 caps0] |] eqn:E.
      * intros [H | H].
        -- inversion H; subst.
           apply match_at_sound in E as [s' [E [L G]]].
           exists [], s'. auto.
        -- apply IH in H as [before [after [-> [L G]]]].
           exists (x :: before), after. auto.
      * intros H. apply IH in H as [before [after [-> [L G]]]].
        exists (x :: before), after. auto.
    + intros H. apply IH in H as [before [after [-> [L G]]]].
      exists (x :: before), after. auto.
Qed.

(** Without a group, [findall] returns pieces of the subject that the
    pattern matches. *)
Lemma findall_sound (ic : bool) (r : regex) (s u : str) :
  has_group r = false ->
  In u (findall ic r s) ->
  exists before after, s = before ++ u ++ after /\ lang ic r u.
Proof.
  intros G H. unfold findall in H. apply in_map_iff in H as [[m caps] [P H]].
  apply scan_sound in H as [before [after [E [L C]]]].
  rewrite (C G) in P. simpl in P. subst u. now exists before, after.
Qed.

(** A word of the pattern, letter by letter. *)
Definition spelled (ic : bool) (l w : str) : Prop :=
  Forall2 (fun c x => lit_ok ic c x = true) l w.

Lemma lang_lits (ic : bool) (l w : str) :
  l <> [] -> lang ic (lits l) w -> spelled ic l w.
Proof.
  revert w. induction l as [|c l IH]; intros w N; [contradiction |].
  destruct l as [|c' l].
  - simpl. intros [x [-> H]]. repeat constructor. exact H.
  - change (lits (c :: c' :: l)) with (Seq (Lit c) (lits (c' :: l))).
    simpl lang. intros [w1 [w2 [-> [[x [-> H]] L]]]].
    constructor; [exact H | apply IH; [discriminate | exact L]].
Qed.

Lemma lang_word (ic : bool) (lit : string) (w : str) :
  text lit <> [] -> lang ic (word lit) w -> spelled ic (text lit) w.
Proof. apply lang_lits. Qed.

(** ** The plain-text detector *)

(** The words [url_pattern] looks for after the scheme. *)
Definition url_keywords : list string :=
  ["unsubscribe"; "optout"; "opt-out"; "remove"]%string.

(** The keywords of the claim, those of the markup detector's phrases. *)
Definition markup_keywords : list string :=
  ["unsubscribe"; "opt-out"; "remove-from-list"; "stop-email";
   "update-preferences"; "manage-subscription"]%string.

(** Path and query of a URL as [urlparse] cuts them: what follows the
    network location, up to the fragment. *)
Fixpoint after_scheme (u : str) : str :=
  match u with
  | [] => []
  | _ :: u' =>
      if starts_with (text "://") u then skipn 3 u else after_scheme u'
  end.

Fixpoint drop_until (stop : codepoint -> bool) (s : str) : str :=
  match s with
  | [] => []
  | x :: s' => if stop x then s else drop_until stop s'
  end.

Fixpoint take_until (stop : codepoint -> bool) (s : str) : str :=
  match s with
  | [] => []
  | x :: s' => if stop x then [] else x :: take_until stop s'
  end.

Definition path_and_query (u : str) : str :=
  take_until (N.eqb (cp "#"))
    (drop_until
       (fun x => N.eqb x (cp "/") || N.eqb x (cp "?") || N.eqb x (cp "#"))
       (after_scheme u)).

Definition mentions (keywords : list string) (s : str) : bool :=
  existsb (fun kw => str_in (text kw) (List.map ascii_lower s)) keywords.

Lemma spelled_app (ic : bool) (l1 l2 w1 w2 : str) :
  spelled ic l1 w1 -> spelled ic l2 w2 -> spelled ic (l1 ++ l2) (w1 ++ w2).
Proof. apply Forall2_app. Qed.

Lemma printable_url_char (x : codepoint) :
  (65 <= x <= 122)%N -> url_char x = true.
Proof.
  intros H. unfold url_char, space.
  rewrite negb_true_iff, !orb_false_iff, !andb_false_iff, !N.eqb_neq,
    !N.leb_gt.
  repeat split; lia.
Qed.

(** The characters a letter of a pattern matches when case is ignored. *)
Lemma ieq_cases (c x : codepoint) :
  ieq c x = true ->
  x = c \/ (65 <= x <= 90 /\ c = x + 32)%N \/ (65 <= c <= 90 /\ x = c + 32)%N
  \/ x = 304%N \/ x = 305%N \/ x = 8490%N \/ x = 383%N.
Proof.
  unfold ieq, ascii_lower, is_ascii. cbv zeta. intros H.
  repeat rewrite ?orb_true_iff, ?andb_true_iff, ?N.eqb_eq in H.
  destruct H as [[[[H _] | [_ [H | H]]] | [_ H]] | [_ H]]; auto 10.
  destruct ((65 <=? x) && (x <=? 90))%N eqn:Ex;
    destruct ((65 <=? c) && (c <=? 90))%N eqn:Ec;
    rewrite ?andb_true_iff, ?N.leb_le in *; lia.
Qed.

Lemma ieq_url_char (c x : codepoint) :
  ieq c x = true -> url_char c = true -> url_char x = true.
Proof.
  intros H U.
  destruct (ieq_cases _ _ H)
    as [-> | [[B ->] | [[B ->] | [-> | [-> | [-> | ->]]]]]];
    try reflexivity; try exact U; apply printable_url_char; lia.
Qed.

Lemma spelled_url_chars (l w : str) :
  spelled true l w -> forallb url_char l = true -> forallb url_char w = true.
Proof.
  induction 1 as [| c x l w H _ IH]; [reflexivity |].
  simpl. rewrite !andb_true_iff. intros [U F].
  split; [exact (ieq_url_char _ _ H U) | exact (IH F)].
Qed.

(** C8, as the code has it: whatever the plain-text detector returns is
    a piece of the text made of a scheme [http://] or [https://], at
    least one more URL character, one of the words unsubscribe, optout,
    opt-out, remove (in any case), and further URL characters; it holds
    no white space and none of the characters that end a URL. Where in
    the URL the word stands is not looked at. *)
Theorem text_urls_shape (text_content u : str) :
  In u (text_urls text_content) ->
  exists before after scheme mid kw rest,
    text_content = before ++ u ++ after /\
    u = scheme ++ mid ++ kw ++ rest /\
    (spelled true (text "http://") scheme \/
     spelled true (text "https://") scheme) /\
    mid <> [] /\ forallb url_char mid = true /\
    (exists name, In name url_keywords /\ spelled true (text name) kw) /\
    forallb url_char rest = true /\
    forallb url_char u = true.
Proof.
  intros H. apply findall_sound in H as [before [after [E L]]];
    [| reflexivity].
  unfold url_pattern in L. cbn [lang] in L.
  destruct L as [w1 [r1 [-> [L1 L]]]].
  destruct L as [w2 [r2 [-> [L2 L]]]].
  destruct L as [w3 [r3 [-> [L3 L]]]].
  destruct L as [mid [r4 [-> [[M1 M2] L]]]].
  destruct L as [kw [rest [-> [K R]]]].
  apply lang_word in L1; [| discriminate].
  apply lang_word in L3; [| discriminate].
  assert (S : spelled true (text "http://") (w1 ++ w2 ++ w3) \/
              spelled true (text "https://") (w1 ++ w2 ++ w3)).
  { destruct L2 as [-> | [x [-> S]]].
    - left. exact (spelled_app L1 L3).
    - right.
      change (text "https://") with (text "http" ++ [cp "s"] ++ text "://").
      apply spelled_app; [exact L1 |].
      apply spelled_app; [| exact L3]. repeat constructor. exact S. }
  assert (K' : exists name,
             In name url_keywords /\ spelled true (text name) kw).
  { unfold url_keyword in K. cbn [lang] in K.
    destruct K as [K | [[k1 [r5 [-> [K1 [k2 [k3 [-> [K2 K3]]]]]]]] | K]].
    - exists "unsubscribe"%string. split; [simpl; auto |].
      apply lang_word in K; [exact K | discriminate].
    - apply lang_word in K1; [| discriminate].
      apply lang_word in K3; [| discriminate].
      destruct K2 as [-> | [x [-> S']]].
      + exists "optout"%string. split; [simpl; auto |].
        exact (spelled_app K1 K3).
      + exists "opt-out"%string. split; [simpl; auto |].
        change (text "opt-out") with (text "opt" ++ [cp "-"] ++ text "out").
        apply spelled_app; [exact K1 |].
        apply spelled_app; [| exact K3]. repeat constructor. exact S'.
    - exists "remove"%string. split; [simpl; auto |].
      apply lang_word in K; [exact K | discriminate]. }
  exists before, after, (w1 ++ w2 ++ w3), mid, kw, rest.
  split; [exact E |]. split; [now rewrite <- !app_assoc |].
  split; [exact S |]. split; [exact M1 |]. split; [exact M2 |].
  split; [exact K' |]. split; [exact R |].
  replace (w1 ++ w2 ++ w3 ++ mid ++ kw ++ rest)
    with ((w1 ++ w2 ++ w3) ++ mid ++ kw ++ rest)
    by now rewrite <- !app_assoc.
  assert (U1 : forallb url_char (w1 ++ w2 ++ w3) = true)
    by (destruct S as [S | S];
        exact (spelled_url_chars S eq_refl)).
  assert (U2 : forallb url_char kw = true).
  { destruct K' as [name [I S']].
    apply (spelled_url_chars S').
    simpl in I.
    destruct I as [<- | [<- | [<- | [<- | []]]]]; reflexivity. }
  rewrite forallb_app, U1, !forallb_app, M2, U2, R. reflexivity.
Qed.

Lemma text_urls_shape_witness :
  In (text "http://www.unsubscribe.example/offers")
     (text_urls (text "Visit http://www.unsubscribe.example/offers now")) /\
  exists before after scheme mid kw rest,
    text "Visit http://www.unsubscribe.example/offers now"
      = before ++ text "http://www.unsubscribe.example/offers" ++ after /\
    text "http://www.unsubscribe.example/offers"
      = scheme ++ mid ++ kw ++ rest /\
    (spelled true (text "http://") scheme \/
     spelled true (text "https://") scheme) /\
    mid <> [] /\ forallb url_char mid = true /\
    (exists name, In name url_keywords /\ spelled true (text name) kw) /\
    forallb url_char rest = true /\
    forallb url_char (text "http://www.unsubscribe.example/offers") = true.
Proof.
  assert (H : In (text "http://www.unsubscribe.example/offers")
                (text_urls
                   (text "Visit http://www.unsubscribe.example/offers now")))
    by (vm_compute; left; reflexivity).
  split; [exact H | exact (text_urls_shape _ _ H)].
Defined.

(** C8 as stated fails: a URL with the word in its host name only is
    returned, though neither its path nor its query holds a keyword. *)
Lemma keyword_in_host_is_candidate :
  In (text "http://www.unsubscribe.example/offers")
     (text_urls (text "Visit http://www.unsubscribe.example/offers now")) /\
  path_and_query (text "http://www.unsubscribe.example/offers")
    = text "/offers" /\
  mentions (markup_keywords ++ url_keywords)
    (path_and_query (text "http://www.unsubscribe.example/offers")) = false.
Proof.
  split; [vm_compute; left; reflexivity |].
  split; vm_compute; reflexivity.
Qed.

(** ** The sender's domain *)

Fixpoint take_while (p : codepoint -> bool) (s : str) : str :=
  match s with
  | [] => []
  | x :: s' => if p x then x :: take_while p s' else []
  end.

Fixpoint drop_while (p : codepoint -> bool) (s : str) : str :=
  match s with
  | [] => []
  | x :: s' => if p x then drop_while p s' else s
  end.

(** What [sender_domain_pattern] finds, written as a scan: at the first
    [@] that a domain character follows, the run of domain characters. *)
Fixpoint first_domain (s : str) : option str :=
  match s with
  | [] => None
  | x :: s' =>
      match s' with
      | y :: _ =>
          if N.eqb x (cp "@") && domain_char y
          then Some (take_while domain_char s')
          else first_domain s'
      | [] => None
      end
  end.

(** The text after the first [@]. *)
Fixpoint after_at (s : str) : str :=
  match s with
  | [] => []
  | x :: s' => if N.eqb x (cp "@") then s' else after_at s'
  end.

Lemma take_drop (p : codepoint -> bool) (s : str) :
  take_while p s ++ drop_while p s = s.
Proof.
  induction s as [|x s IH]; simpl; [reflexivity |].
  destruct (p x); simpl; [now rewrite IH | reflexivity].
Qed.

Lemma take_while_all (p : codepoint -> bool) (s : str) :
  forallb p s = true -> take_while p s = s.
Proof.
  induction s as [|x s IH]; simpl; [reflexivity |].
  destruct (p x); simpl; [intros H; now rewrite IH | discriminate].
Qed.

Lemma take_while_forallb (p : codepoint -> bool) (s : str) :
  forallb p (take_while p s) = true.
Proof.
  induction s as [|x s IH]; simpl; [reflexivity |].
  destruct (p x) eqn:E; simpl; [now rewrite E | reflexivity].
Qed.

Lemma drop_while_head (p : codepoint -> bool) (s : str) (y : codepoint)
    (t : str) :
  drop_while p s = y :: t -> p y = false.
Proof.
  induction s as [|x s IH]; simpl; [discriminate |].
  destruct (p x) eqn:E; [exact IH |]. intros H. inversion H; subst. exact E.
Qed.

(** A greedy repetition followed by something that cannot fail takes the
    whole run. *)
Lemma star_total (R : Type) (p : codepoint -> bool) (s : str)
    (k : str -> option R) :
  (forall t, k t <> None) -> star p s k = k (drop_while p s).
Proof.
  intros K. induction s as [|x s IH]; simpl; [reflexivity |].
  destruct (p x); [| reflexivity].
  rewrite IH. destruct (k (drop_while p s)) eqn:E; [reflexivity |].
  now apply K in E.
Qed.

Lemma firstn_consumed (p : codepoint -> bool) (pre t : str) :
  firstn (length (pre ++ t) - length (drop_while p t)) (pre ++ t)
  = pre ++ take_while p t.
Proof.
  rewrite <- (take_drop p t) at 1 3.
  rewrite app_assoc. apply firstn_matched.
Qed.

Lemma match_at_domain_hit (y : codepoint) (t : str) :
  domain_char y = true ->
  match_at false sender_domain_pattern (cp "@" :: y :: t)
  = Some (cp "@" :: y :: take_while domain_char t,
          [y :: take_while domain_char t]).
Proof.
  intros D. unfold match_at, sender_domain_pattern. cbn [run].
  unfold lit_ok. rewrite N.eqb_refl, D.
  rewrite star_total by discriminate.
  pose proof (firstn_consumed domain_char [cp "@"; y] t) as F1.
  pose proof (firstn_consumed domain_char [y] t) as F2.
  cbn [app] in F1, F2. rewrite F1, F2. reflexivity.
Qed.

Lemma match_at_domain_miss (x : codepoint) (t : str) :
  N.eqb x (cp "@") && match t with y :: _ => domain_char y | [] => false end
    = false ->
  match_at false sender_domain_pattern (x :: t) = None.
Proof.
  intros H. unfold match_at, sender_domain_pattern. cbn [run].
  unfold lit_ok. rewrite (N.eqb_sym (cp "@") x).
  destruct (N.eqb x (cp "@")); [| reflexivity].
  destruct t as [|y t]; [reflexivity |].
  cbn [andb] in H. now rewrite H.
Qed.

Lemma search_domain (s : str) :
  search false sender_domain_pattern s
  = option_map (fun d => (cp "@" :: d, [d])) (first_domain s).
Proof.
  induction s as [|x s IH]; [reflexivity |].
  cbn [search first_domain].
  destruct s as [|y t].
  - rewrite match_at_domain_miss by apply andb_false_r. reflexivity.
  - destruct (N.eqb x (cp "@") && domain_char y) eqn:E.
    + apply andb_true_iff in E as [X D]. apply N.eqb_eq in X. subst x.
      rewrite match_at_domain_hit by exact D. simpl. now rewrite D.
    + rewrite match_at_domain_miss by exact E. exact IH.
Qed.

Lemma str_in_cons (needle : str) (x : codepoint) (s : str) :
  str_in needle (x :: s) = starts_with needle (x :: s) || str_in needle s.
Proof. reflexivity. Qed.

Lemma first_domain_has_at (s d : str) :
  first_domain s = Some d -> str_in (text "@") s = true.
Proof.
  induction s as [|x s IH]; [discriminate |].
  cbn [first_domain]. destruct s as [|y t]; [discriminate |].
  destruct (N.eqb x (cp "@") && domain_char y) eqn:E.
  - intros _. apply andb_true_iff in E as [X _].
    apply N.eqb_eq in X. subst x. reflexivity.
  - intros H. rewrite str_in_cons, (IH H). apply orb_true_r.
Qed.

Lemma sender_domain_of_scan (lib : Lib) (from_email : str) :
  sender_domain_of from_email = first_domain from_email.
Proof.
  unfold sender_domain_of. rewrite search_domain.
  destruct (first_domain from_email) as [d |] eqn:E; simpl.
  - now rewrite (first_domain_has_at _ E).
  - now destruct (str_in (text "@") from_email).
Qed.

Lemma first_domain_found (s d : str) :
  first_domain s = Some d ->
  d <> [] /\ forallb domain_char d = true /\
  exists pre post,
    s = pre ++ cp "@" :: d ++ post /\
    (forall y post', post = y :: post' -> domain_char y = false).
Proof.
  revert d. induction s as [|x s IH]; intros d; [discriminate |].
  cbn [first_domain]. destruct s as [|y t]; [discriminate |].
  destruct (N.eqb x (cp "@") && domain_char y) eqn:E.
  - intros H. injection H as <-.
    apply andb_true_iff in E as [X D]. apply N.eqb_eq in X. subst x.
    cbn [take_while]. rewrite D.
    split; [discriminate |].
    split; [simpl; now rewrite D, take_while_forallb |].
    exists [], (drop_while domain_char t).
    split; [simpl app; now rewrite take_drop |].
    intros y' post' P. exact (drop_while_head _ _ P).
  - intros H. destruct (IH _ H) as [N [F [pre [post [S M]]]]].
    split; [exact N |]. split; [exact F |].
    exists (x :: pre), post. split; [simpl; now rewrite S | exact M].
Qed.

Lemma extract_email_metadata_domain (lib : Lib) (msg : Message)
    (w w' : World) (md : Metadata) :
  extract_email_metadata lib msg w = (inr md, w') ->
  md_sender_domain md = first_domain (md_from md).
Proof.
  unfold extract_email_metadata. intros H.
  apply bind_ok in H as [d [w1 [_ H]]].
  apply bind_ok in H as [subject [w2 [_ H]]].
  apply bind_ok in H as [from [w3 [_ H]]].
  apply bind_ok in H as [to [w4 [_ H]]].
  inversion H; subst. simpl. apply (sender_domain_of_scan lib).
Qed.

(** The [@] that the pattern stops at is the first one that a domain
    character follows: no [@] of [pre] has a domain character after
    it. *)
Definition no_domain_start (pre : str) : Prop :=
  forall p1 y p2, pre = p1 ++ cp "@" :: y :: p2 -> domain_char y = false.

Lemma no_domain_start_tail (x : codepoint) (pre : str) :
  no_domain_start (x :: pre) -> no_domain_start pre.
Proof. intros H p1 y p2 E. apply (H (x :: p1) y p2). now rewrite E. Qed.

Lemma no_at_no_domain_start (pre : str) :
  ~ In (cp "@") pre -> no_domain_start pre.
Proof.
  intros N p1 y p2 E. exfalso. apply N. rewrite E.
  apply in_or_app. right. now left.
Qed.

Lemma take_while_run (p : codepoint -> bool) (d post : str) :
  forallb p d = true ->
  (forall y post', post = y :: post' -> p y = false) ->
  take_while p (d ++ post) = d.
Proof.
  intros F P. induction d as [|x d IH]; simpl.
  - destruct post as [|y post']; [reflexivity |].
    simpl. now rewrite (P y post' eq_refl).
  - simpl in F. apply andb_true_iff in F as [X F].
    now rewrite X, (IH F).
Qed.

Lemma first_domain_at_first (pre d post : str) :
  no_domain_start pre -> d <> [] -> forallb domain_char d = true ->
  (forall y post', post = y :: post' -> domain_char y = false) ->
  first_domain (pre ++ cp "@" :: d ++ post) = Some d.
Proof.
  intros N E F P. induction pre as [|x pre IH].
  - destruct d as [|y t]; [contradiction |].
    simpl app. cbn [first_domain]. rewrite N.eqb_refl.
    pose proof F as F'. simpl in F'. apply andb_true_iff in F' as [D _].
    rewrite D. cbn [andb]. f_equal.
    change (y :: t ++ post) with ((y :: t) ++ post).
    now apply take_while_run.
  - specialize (IH (no_domain_start_tail N)).
    change ((x :: pre) ++ cp "@" :: d ++ post)
      with (x :: (pre ++ cp "@" :: d ++ post)).
    remember (pre ++ cp "@" :: d ++ post) as s' eqn:L.
    destruct s' as [|y0 t0]; [now destruct pre |].
    cbn [first_domain]. cbn [first_domain] in IH.
    destruct (N.eqb x (cp "@") && domain_char y0) eqn:T; [| exact IH].
    exfalso. apply andb_true_iff in T as [X D].
    apply N.eqb_eq in X. subst x.
    destruct pre as [|z pre'].
    + simpl in L. injection L as L _. subst y0.
      vm_compute in D. discriminate.
    + simpl in L. injection L as L _. subst y0.
      rewrite (N [] z pre' eq_refl) in D. discriminate.
Qed.

Lemma first_domain_is_first (s d : str) :
  first_domain s = Some d ->
  exists pre post,
    s = pre ++ cp "@" :: d ++ post /\ no_domain_start pre /\
    d <> [] /\ forallb domain_char d = true /\
    (forall y post', post = y :: post' -> domain_char y = false).
Proof.
  revert d. induction s as [|x s IH]; intros d; [discriminate |].
  cbn [first_domain]. destruct s as [|y t]; [discriminate |].
  destruct (N.eqb x (cp "@") && domain_char y) eqn:E.
  - intros H. injection H as <-.
    apply andb_true_iff in E as [X D]. apply N.eqb_eq in X. subst x.
    cbn [take_while]. rewrite D.
    exists [], (drop_while domain_char t).
    split; [simpl app; now rewrite take_drop |].
    split; [intros [|? ?] ? ? ?; discriminate |].
    split; [discriminate |].
    split; [simpl; now rewrite D, take_while_forallb |].
    intros y' post' P. exact (drop_while_head _ _ P).
  - intros H. destruct (IH _ H) as [pre [post [S [N [D [F P]]]]]].
    exists (x :: pre), post.
    split; [simpl; now rewrite S |].
    split; [| now repeat split].
    intros [|z p1] y' p2 L.
    + simpl in L. injection L as -> L. subst pre.
      simpl in S. injection S as -> _.
      apply andb_false_iff in E as [E | E]; [| exact E].
      vm_compute in E. discriminate.
    + simpl in L. injection L as _ L. exact (N p1 y' p2 L).
Qed.

Lemma first_domain_none (s : str) :
  first_domain s = None <-> no_domain_start s.
Proof.
  split.
  - intros H p1 y p2 E. destruct (domain_char y) eqn:D; [| reflexivity].
    exfalso. subst s. revert H. clear - D.
    induction p1 as [|x p1 IH].
    + simpl app. cbn [first_domain]. rewrite N.eqb_refl, D. discriminate.
    + change ((x :: p1) ++ cp "@" :: y :: p2)
        with (x :: (p1 ++ cp "@" :: y :: p2)).
      remember (p1 ++ cp "@" :: y :: p2) as s' eqn:L.
      destruct s' as [|y0 t0]; [now destruct p1 |].
      cbn [first_domain].
      destruct (N.eqb x (cp "@") && domain_char y0); [discriminate |].
      exact IH.
  - intros N. destruct (first_domain s) as [d |] eqn:E; [| reflexivity].
    exfalso. apply first_domain_is_first in E
      as [pre [post [S [_ [D [F _]]]]]].
    destruct d as [|y t]; [contradiction |].
    simpl in F. apply andb_true_iff in F as [Y _].
    rewrite (N pre y (t ++ post) S) in Y. discriminate.
Qed.

(** C5, as the code has it. The sender domain is present exactly when
    the decoded sender field has an [@] followed at once by a letter, a
    digit, a dot or a hyphen; it is then the longest run of such
    characters after the first such [@], wherever the run ends. So for
    an address [local@domain] standing in the field with no [@] before
    it, whose domain is made of these characters and ends with the
    field or at another character, a display name and angle brackets
    included, the sender domain is [domain]. *)
Theorem sender_domain_is_run_after_at (lib : Lib) (msg : Message)
    (w w' : World) (md : Metadata) :
  extract_email_metadata lib msg w = (inr md, w') ->
  (forall d,
      md_sender_domain md = Some d <->
      exists pre post,
        md_from md = pre ++ cp "@" :: d ++ post /\
        no_domain_start pre /\
        d <> [] /\ forallb domain_char d = true /\
        (forall y post', post = y :: post' -> domain_char y = false)) /\
  (md_sender_domain md = None <-> no_domain_start (md_from md)) /\
  (forall pre dom post,
      md_from md = pre ++ cp "@" :: dom ++ post ->
      ~ In (cp "@") pre -> dom <> [] ->
      forallb domain_char dom = true ->
      (forall y post', post = y :: post' -> domain_char y = false) ->
      md_sender_domain md = Some dom).
Proof.
  intros H. apply extract_email_metadata_domain in H. rewrite H.
  split; [| split].
  - intros d. split; [apply first_domain_is_first |].
    intros [pre [post [-> [N [D [F P]]]]]].
    now apply first_domain_at_first.
  - apply first_domain_none.
  - intros pre dom post -> N D F P.
    apply first_domain_at_first; auto using no_at_no_domain_start.
Qed.

(** A message with nothing but a sender. *)
Definition message_from (sender : string) : Message :=
  Leaf [(text "From", text sender)] (text "text/plain") [].

Definition plain_lib (msg : Message) : Lib :=
  sample_lib msg plain_header (web_status 200) disk_ok.

Lemma sender_domain_is_run_after_at_witness :
  exists md w',
    extract_email_metadata
      (plain_lib (message_from "Deals <deals@spammy.example>"))
      (message_from "Deals <deals@spammy.example>") sample_world
      = (inr md, w') /\
    md_from md
      = text "Deals <deals" ++ cp "@" :: text "spammy.example" ++ text ">" /\
    md_sender_domain md = Some (text "spammy.example").
Proof.
  destruct (extract_email_metadata
              (plain_lib (message_from "Deals <deals@spammy.example>"))
              (message_from "Deals <deals@spammy.example>") sample_world)
    as [[e | md] w'] eqn:E; [vm_compute in E; discriminate |].
  assert (F : md_from md
              = text "Deals <deals" ++ cp "@" :: text "spammy.example"
                ++ text ">")
    by (vm_compute in E; inversion E; reflexivity).
  exists md, w'. split; [reflexivity |]. split; [exact F |].
  apply (proj2 (proj2 (@sender_domain_is_run_after_at _ _ _ _ _ E))
           (text "Deals <deals") (text "spammy.example") (text ">") F).
  - vm_compute. intros H. repeat (destruct H as [H | H]; [discriminate |]).
    exact H.
  - discriminate.
  - reflexivity.
  - intros y post' P. injection P as <- _. reflexivity.
Defined.

Definition count_at (s : str) : nat :=
  length (List.filter (N.eqb (cp "@")) s).

Definition sender_domain_for (sender : string) : option (option str) :=
  match extract_email_metadata (plain_lib (message_from sender))
          (message_from sender) sample_world with
  | (inr md, _) => Some (md_sender_domain md)
  | (inl _, _) => None
  end.

(** C5 as stated fails. The sender field is the bare address each
    time, with one [@]. When the domain is an address literal in square
    brackets there is no sender domain at all; when the text after the
    [@] holds a character outside the class, an underscore here, the
    sender domain is only the part before it; and a sender field
    without a local part, which is no address, still yields a
    domain. *)
Lemma sender_domain_not_text_after_at :
  (count_at (text "deals@[203.0.113.9]") = 1 /\
   after_at (text "deals@[203.0.113.9]") = text "[203.0.113.9]" /\
   sender_domain_for "deals@[203.0.113.9]" = Some None)
  /\
  (count_at (text "deals@spammy_deals.example") = 1 /\
   after_at (text "deals@spammy_deals.example")
     = text "spammy_deals.example" /\
   sender_domain_for "deals@spammy_deals.example"
     = Some (Some (text "spammy")))
  /\
  sender_domain_for "@x" = Some (Some (text "x")).
Proof. repeat split; vm_compute; reflexivity. Qed.

(** ** The candidates handed to the attempt step *)

Lemma set_order_singleton (f : list str -> list str) (u : str) :
  set_order_ok f -> f [u] = [u].
Proof.
  intros H. destruct (H [u]) as [N I].
  destruct (f [u]) as [|x l] eqn:E.
  - exfalso. apply (proj2 (I u)). now left.
  - assert (X : x = u).
    { destruct (proj1 (I x) (or_introl eq_refl)) as [X | []]. now subst. }
    subst x. f_equal. destruct l as [|y l]; [reflexivity |].
    exfalso. assert (Y : y = u).
    { destruct (proj1 (I y) (or_intror (or_introl eq_refl))) as [Y | []].
      now subst. }
    subst y. inversion N as [| ? ? NI _]; subst. apply NI. now left.
Qed.

Lemma nodup_is_set_order : set_order_ok (nodup str_eq_dec).
Proof.
  intros l. split; [apply NoDup_nodup | intros x; apply nodup_In].
Qed.

(** C1 at a failing input: a link found in the text and given again by
    the List-Unsubscribe header comes twice in the list of candidates,
    the header's links being added after the duplicates were removed. *)
Theorem header_link_is_not_deduplicated (lib : Lib) :
  set_order_ok (set_order lib) ->
  candidates lib (text "Leave: http://a.example/unsubscribe") []
    (text "<http://a.example/unsubscribe>")
  = [text "http://a.example/unsubscribe";
     text "http://a.example/unsubscribe"] /\
  ~ NoDup (candidates lib (text "Leave: http://a.example/unsubscribe") []
             (text "<http://a.example/unsubscribe>")).
Proof.
  intros H.
  assert (E : candidates lib (text "Leave: http://a.example/unsubscribe") []
                (text "<http://a.example/unsubscribe>")
              = [text "http://a.example/unsubscribe";
                 text "http://a.example/unsubscribe"]).
  { unfold candidates, find_unsubscribe_links.
    replace (text_urls (text "Leave: http://a.example/unsubscribe"))
      with [text "http://a.example/unsubscribe"]
      by (vm_compute; reflexivity).
    replace (findall false list_unsub_pattern
               (text "<http://a.example/unsubscribe>"))
      with [text "http://a.example/unsubscribe"]
      by (vm_compute; reflexivity).
    cbn [text List.map list_ascii_of_string app].
    rewrite (set_order_singleton _ H). reflexivity. }
  split; [exact E |]. rewrite E. intros N.
  inversion N as [| ? ? NI _]; subst. apply NI. now left.
Qed.

Lemma header_link_is_not_deduplicated_witness :
  set_order_ok (set_order (plain_lib sample_message)) /\
  candidates (plain_lib sample_message)
    (text "Leave: http://a.example/unsubscribe") []
    (text "<http://a.example/unsubscribe>")
  = [text "http://a.example/unsubscribe";
     text "http://a.example/unsubscribe"].
Proof.
  split; [exact nodup_is_set_order |].
  exact (proj1 (header_link_is_not_deduplicated (plain_lib sample_message)
                  nodup_is_set_order)).
Defined.

(** ** The summary *)

Definition reading_error_msg (log_file : str) (e : exn) : str :=
  text "Error reading log file " ++ logs_path log_file ++ text ": " ++
  str_of_exn e.

(** Without an actions record, the loop body looks at the sender domain
    and at nothing else. *)
Lemma fold_record_without_actions (w : World) (log_file : str)
    (s : Summary) :
  dict_get (actions_file_of log_file) (logs_dir w) = None ->
  fold_record w log_file s =
  match read_json w log_file with
  | inl e => (inl e, s)
  | inr data =>
      match py_get data "metadata" (JObj []) with
      | inl e => (inl e, s)
      | inr md =>
          match py_get md "sender_domain" JNull with
          | inl e => (inl e, s)
          | inr d =>
              (inr tt,
               if truthy d && negb (py_in d (domains_encountered s))
               then add_domain d s else s)
          end
      end
  end.
Proof.
  intros H. unfold fold_record, bind, lift.
  destruct (read_json w log_file) as [e | data]; [reflexivity |].
  destruct (py_get data "metadata" (JObj [])) as [e | md]; [reflexivity |].
  destruct (py_get md "sender_domain" JNull) as [e | d]; [reflexivity |].
  rewrite H.
  destruct (truthy d && negb (py_in d (domains_encountered s)));
    reflexivity.
Qed.

(** The counters that the actions record feeds. *)
Definition action_counters (s : Summary) : nat * nat * list json :=
  (total_unsubscribe_attempts s, successful_unsubscribes s,
   companies_identified s).

(** A step that leaves the number of processed emails alone. *)
Definition keeps_total (A : Type) (m : ST Summary A) : Prop :=
  forall s r s',
    m s = (r, s') -> total_emails_processed s' = total_emails_processed s.

Lemma keeps_total_bind (A B : Type) (m : ST Summary A)
    (f : A -> ST Summary B) :
  keeps_total m -> (forall a, keeps_total (f a)) -> keeps_total (bind m f).
Proof.
  intros Hm Hf s r s' H.
  apply bind_cases in H as [[e [H _]] | [a [s1 [H1 H2]]]].
  - exact (Hm _ _ _ H).
  - rewrite (Hf _ _ _ _ H2). exact (Hm _ _ _ H1).
Qed.

Lemma keeps_total_lift (A : Type) (x : exn + A) :
  keeps_total (@lift Summary A x).
Proof. intros s r s' H. now inversion H. Qed.

Lemma keeps_total_ret (A : Type) (a : A) : keeps_total (@ret Summary A a).
Proof. intros s r s' H. now inversion H. Qed.

Lemma keeps_total_update (f : Summary -> Summary) :
  (forall s, total_emails_processed (f s) = total_emails_processed s) ->
  keeps_total (update_summary f).
Proof. intros F s r s' H. inversion H; subst. apply F. Qed.

Lemma keeps_total_when (c : Summary -> bool) (f : Summary -> Summary) :
  (forall s, total_emails_processed (f s) = total_emails_processed s) ->
  keeps_total (fun s => if c s then update_summary f s else ret tt s).
Proof.
  intros F s r s'. destruct (c s); intros H; inversion H; subst;
    [apply F | reflexivity].
Qed.

Lemma keeps_total_collect_companies (reports : list json) :
  keeps_total (collect_companies reports).
Proof.
  induction reports as [|report rest IH]; simpl.
  - apply keeps_total_ret.
  - apply keeps_total_bind; [apply keeps_total_lift | intros company].
    apply keeps_total_bind; [| intros _; exact IH].
    apply (keeps_total_when
             (fun s => truthy company &&
                       negb (py_in company (companies_identified s)))).
    reflexivity.
Qed.

Lemma keeps_total_fold_actions (w : World) (actions_file : str) :
  keeps_total (fold_actions w actions_file).
Proof.
  unfold fold_actions.
  repeat first
    [ apply keeps_total_collect_companies
    | apply keeps_total_lift
    | apply keeps_total_update; reflexivity
    | apply keeps_total_bind; [| intros ?] ].
Qed.

Lemma keeps_total_fold_record (w : World) (log_file : str) :
  keeps_total (fold_record w log_file).
Proof.
  unfold fold_record.
  apply keeps_total_bind; [apply keeps_total_lift | intros data].
  apply keeps_total_bind; [apply keeps_total_lift | intros md].
  apply keeps_total_bind; [apply keeps_total_lift | intros domain].
  apply keeps_total_bind.
  - apply (keeps_total_when
             (fun s => truthy domain &&
                       negb (py_in domain (domains_encountered s)))).
    reflexivity.
  - intros _. destruct (dict_get _ (logs_dir w));
      [apply keeps_total_fold_actions | apply keeps_total_ret].
Qed.

(** The loop never raises; it logs and moves on. *)
Lemma fold_records_returns (log_files : list str) :
  forall (s : Summary) (w : World),
  exists s' w',
    fold_records log_files s w = (inr s', w') /\
    total_emails_processed s' = total_emails_processed s /\
    consume_dir w' = consume_dir w /\
    processed_dir w' = processed_dir w /\
    logs_dir w' = logs_dir w /\ tick w' = tick w.
Proof.
  induction log_files as [|f rest IH]; intros s w.
  - exists s, w. repeat split.
  - cbn [fold_records]. unfold bind at 1, get_world.
    destruct (fold_record w f s) as [[e | u] s1] eqn:E.
    + unfold bind at 1, logger_error, emit.
      destruct (IH s1
                  {| consume_dir := consume_dir w;
                     processed_dir := processed_dir w;
                     logs_dir := logs_dir w;
                     events := events w ++
                       [Logged ERROR
                          (text "Error reading log file " ++
                           logs_path f ++ text ": " ++ str_of_exn e)];
                     tick := tick w |})
        as [s' [w' [R [T [C [P [L K]]]]]]].
      exists s', w'. rewrite R. simpl in *.
      rewrite T, (@keeps_total_fold_record w f _ _ _ E).
      repeat split; assumption.
    + destruct (IH s1 w) as [s' [w' [R [T [C [P [L K]]]]]]].
      exists s', w'. rewrite R, T, (@keeps_total_fold_record w f _ _ _ E).
      repeat split; assumption.
Qed.

Definition summary_file_name (lib : Lib) (w : World) : str :=
  text "summary_report_" ++ ymd (now lib (S (tick w))) ++ text ".json".

Lemma generate_summary_report_total (lib : Lib) (w w' : World)
    (s : Summary) :
  generate_summary_report lib w = (inr (Some s), w') ->
  total_emails_processed s = length (metadata_logs w).
Proof.
  unfold generate_summary_report. intros H.
  apply bind_ok in H as [w0 [w1 [G H]]].
  unfold get_world in G. inversion G; subst w0 w1. clear G.
  destruct (metadata_logs w) as [|f fs] eqn:E.
  - apply bind_ok in H as [u [w1 [_ H]]]. inversion H.
  - apply bind_ok in H as [d [w1 [_ H]]].
    apply bind_ok in H as [s1 [w2 [F H]]].
    apply bind_ok in H as [d' [w3 [_ H]]].
    apply bind_ok in H as [u [w4 [_ H]]].
    apply bind_ok in H as [u' [w5 [_ H]]].
    inversion H; subst.
    destruct (fold_records_returns (f :: fs)
                {| total_emails_processed := length (f :: fs);
                   processing_date := isoformat d;
                   domains_encountered := [];
                   companies_identified := [];
                   total_unsubscribe_attempts := 0;
                   successful_unsubscribes := 0 |} w1)
      as [s' [w6 [R [T _]]]].
    rewrite R in F. inversion F; subst. exact T.
Qed.

Lemma generate_summary_report_runs (lib : Lib) (w : World) :
  metadata_logs w <> [] ->
  write_fault lib (S (S (tick w))) (summary_file_name lib w) = WriteDone ->
  exists s w', generate_summary_report lib w = (inr (Some s), w').
Proof.
  intros N W. unfold generate_summary_report.
  unfold bind at 1, get_world.
  destruct (metadata_logs w) as [|f fs]; [contradiction |].
  unfold bind at 1, datetime_now at 1, bind at 1, next_tick at 1, ret at 1.
  match goal with
  | |- context [fold_records ?l ?s0] =>
      match goal with
      | |- context [bind (fold_records l s0) ?k ?w1] =>
          destruct (fold_records_returns l s0 w1)
            as [s' [w2 [R [_ [_ [_ [_ K]]]]]]];
          erewrite (@bind_of_ok _ _ _ (fold_records l s0)) by exact R
      end
  end.
  simpl in K.
  unfold datetime_now, write_json, logger_info, bind, next_tick, get_world,
    set_logs, emit, ret. simpl.
  rewrite K. unfold summary_file_name in W. simpl in W. rewrite W. simpl.
  eexists. eexists. reflexivity.
Qed.

(** With an actions record that cannot be read, the loop body stops
    there: the sender domain was looked at, the actions were not. *)
Lemma fold_record_unreadable_actions (w : World) (log_file : str)
    (s : Summary) :
  dict_get (actions_file_of log_file) (logs_dir w) = Some Garbage ->
  fold_record w log_file s =
  match read_json w log_file with
  | inl e => (inl e, s)
  | inr data =>
      match py_get data "metadata" (JObj []) with
      | inl e => (inl e, s)
      | inr md =>
          match py_get md "sender_domain" JNull with
          | inl e => (inl e, s)
          | inr d =>
              (inl (Exn "JSONDecodeError" (text "Expecting value")),
               if truthy d && negb (py_in d (domains_encountered s))
               then add_domain d s else s)
          end
      end
  end.
Proof.
  intros H. unfold fold_record, bind, lift.
  destruct (read_json w log_file) as [e | data]; [reflexivity |].
  destruct (py_get data "metadata" (JObj [])) as [e | md]; [reflexivity |].
  destruct (py_get md "sender_domain" JNull) as [e | d]; [reflexivity |].
  rewrite H. unfold fold_actions, bind, lift, read_json. rewrite H.
  destruct (truthy d && negb (py_in d (domains_encountered s)));
    reflexivity.
Qed.

(** *** What the loop keeps *)

(** A step of the loop body that keeps a property of the summary. *)
Definition preserves (P : Summary -> Prop) (A : Type) (m : ST Summary A)
  : Prop :=
  forall s r s', P s -> m s = (r, s') -> P s'.

Lemma preserves_bind (P : Summary -> Prop) (A B : Type) (m : ST Summary A)
    (f : A -> ST Summary B) :
  preserves P m -> (forall a, preserves P (f a)) -> preserves P (bind m f).
Proof.
  intros Hm Hf s r s' I H.
  apply bind_cases in H as [[e [H _]] | [a [s1 [H1 H2]]]].
  - exact (Hm _ _ _ I H).
  - exact (Hf _ _ _ _ (Hm _ _ _ I H1) H2).
Qed.

Lemma preserves_lift (P : Summary -> Prop) (A : Type) (x : exn + A) :
  preserves P (@lift Summary A x).
Proof. intros s r s' I H. now inversion H; subst. Qed.

Lemma preserves_ret (P : Summary -> Prop) (A : Type) (a : A) :
  preserves P (@ret Summary A a).
Proof. intros s r s' I H. now inversion H; subst. Qed.

Lemma preserves_update (P : Summary -> Prop) (f : Summary -> Summary) :
  (forall s, P s -> P (f s)) -> preserves P (update_summary f).
Proof. intros F s r s' I H. inversion H; subst. now apply F. Qed.

Lemma preserves_when (P : Summary -> Prop) (c : Summary -> bool)
    (f : Summary -> Summary) :
  (forall s, P s -> c s = true -> P (f s)) ->
  preserves P (fun s => if c s then update_summary f s else ret tt s).
Proof.
  intros F s r s' I. destruct (c s) eqn:E; intros H; inversion H; subst;
    [now apply F | exact I].
Qed.

(** A property that the loop body keeps for every record is kept by the
    loop. *)
Lemma fold_records_preserves (P : Summary -> Prop) :
  (forall w f, preserves P (fold_record w f)) ->
  forall files s w s' w',
    P s -> fold_records files s w = (inr s', w') -> P s'.
Proof.
  intros K files. induction files as [|f rest IH]; intros s w s' w' I H.
  - inversion H; subst. exact I.
  - cbn [fold_records] in H. unfold bind at 1, get_world in H.
    destruct (fold_record w f s) as [[e | u] s1] eqn:E.
    + unfold bind at 1, logger_error, emit in H.
      exact (IH _ _ _ _ (K w f _ _ _ I E) H).
    + exact (IH _ _ _ _ (K w f _ _ _ I E) H).
Qed.

Lemma generate_summary_report_preserves (P : Summary -> Prop) (lib : Lib)
    (w w' : World) (s : Summary) :
  (forall w f, preserves P (fold_record w f)) ->
  (forall n d,
      P {| total_emails_processed := n;
           processing_date := d;
           domains_encountered := [];
           companies_identified := [];
           total_unsubscribe_attempts := 0;
           successful_unsubscribes := 0 |}) ->
  generate_summary_report lib w = (inr (Some s), w') -> P s.
Proof.
  intros K I0. unfold generate_summary_report. intros H.
  apply bind_ok in H as [w0 [w1 [G H]]].
  destruct (metadata_logs w0) as [|f fs].
  - apply bind_ok in H as [u [w2 [_ H]]]. inversion H.
  - apply bind_ok in H as [d [w2 [_ H]]].
    apply bind_ok in H as [s1 [w3 [F H]]].
    apply bind_ok in H as [d' [w4 [_ H]]].
    apply bind_ok in H as [u [w5 [_ H]]].
    apply bind_ok in H as [u' [w6 [_ H]]].
    inversion H; subst.
    exact (fold_records_preserves K _ _ _ (I0 _ _) F).
Qed.

(** *** The loop as a whole *)

(** The loop body reads the world through the log directory only. *)
Lemma fold_record_reads_logs (w1 w2 : World) (log_file : str)
    (s : Summary) :
  logs_dir w1 = logs_dir w2 ->
  fold_record w1 log_file s = fold_record w2 log_file s.
Proof.
  intros H. unfold fold_record, fold_actions, read_json. now rewrite H.
Qed.

(** The summary after one record, whether the body returned or
    raised: what it did to the summary before raising stays done. *)
Definition fold_step (w : World) (s : Summary) (log_file : str) : Summary :=
  snd (fold_record w log_file s).

Lemma fold_step_reads_logs (w1 w2 : World) (files : list str) (s : Summary) :
  logs_dir w1 = logs_dir w2 ->
  fold_left (fold_step w1) files s = fold_left (fold_step w2) files s.
Proof.
  intros H. revert s. induction files as [|f rest IH]; intros s;
    [reflexivity |].
  simpl. unfold fold_step at 2 4.
  rewrite (@fold_record_reads_logs w1 w2 f s H). apply IH.
Qed.

(** The loop hands the summary from record to record, in the order of
    the list, and reports in the activity log each record that could
    not be read. *)
Lemma fold_records_fold (files : list str) :
  forall (s : Summary) (w : World),
  exists w' evs,
    fold_records files s w = (inr (fold_left (fold_step w) files s), w') /\
    logs_dir w' = logs_dir w /\
    appended w w' evs /\
    (forall f e, In f files -> read_json w f = inl e ->
                 In (Logged ERROR (reading_error_msg f e)) evs).
Proof.
  induction files as [|f rest IH]; intros s w.
  - exists w, []. repeat split.
    + unfold appended. now rewrite app_nil_r.
    + intros f e [].
  - cbn [fold_records fold_left]. unfold bind at 1, get_world.
    unfold fold_step at 2.
    destruct (fold_record w f s) as [[e | u] s1] eqn:E; cbn [snd].
    + unfold bind at 1, logger_error, emit.
      match goal with
      | |- context [fold_records rest s1 ?w0] =>
          destruct (IH s1 w0) as [w' [evs [R [L [A K]]]]];
          assert (L0 : logs_dir w0 = logs_dir w) by reflexivity
      end.
      exists w', (Logged ERROR (reading_error_msg f e) :: evs).
      rewrite R. rewrite (@fold_step_reads_logs _ _ rest s1 L0).
      split; [reflexivity |]. split; [now rewrite L |].
      split.
      { unfold appended in *. rewrite A. simpl.
        rewrite <- app_assoc. reflexivity. }
      intros f0 e0 [<- | I] H0.
      * left. unfold fold_record, bind at 1, lift at 1 in E.
        rewrite H0 in E. inversion E; subst. reflexivity.
      * right. apply K; [exact I |].
        unfold read_json in *. now rewrite L0.
    + destruct (IH s1 w) as [w' [evs [R [L [A K]]]]].
      exists w', evs. rewrite R. repeat split; try assumption.
      intros f0 e0 [<- | I] H0; [| now apply K].
      exfalso. unfold fold_record, bind at 1, lift at 1 in E.
      rewrite H0 in E. discriminate.
Qed.

(** The statistics the report starts from. *)
Definition fresh_summary (n : nat) (date : str) : Summary :=
  {| total_emails_processed := n;
     processing_date := date;
     domains_encountered := [];
     companies_identified := [];
     total_unsubscribe_attempts := 0;
     successful_unsubscribes := 0 |}.

(** The report that is returned is the loop's result over the metadata
    records of the log directory, started from zeroed statistics. *)
Lemma generate_summary_report_result (lib : Lib) (w w' : World)
    (s : Summary) :
  generate_summary_report lib w = (inr (Some s), w') ->
  s = fold_left (fold_step w) (metadata_logs w)
        (fresh_summary (length (metadata_logs w))
           (isoformat (now lib (tick w)))) /\
  exists evs,
    appended w w' evs /\
    (forall f e, In f (metadata_logs w) -> read_json w f = inl e ->
                 In (Logged ERROR (reading_error_msg f e)) evs).
Proof.
  unfold generate_summary_report. intros H.
  apply bind_ok in H as [w0 [w1 [G H]]].
  unfold get_world in G. inversion G; subst w0 w1. clear G.
  destruct (metadata_logs w) as [|f fs] eqn:M.
  - apply bind_ok in H as [u [w1 [_ H]]]. inversion H.
  - apply bind_ok in H as [d [w1 [D H]]].
    apply bind_ok in H as [s1 [w2 [F H]]].
    apply bind_ok in H as [d' [w3 [D' H]]].
    apply bind_ok in H as [u [w4 [W H]]].
    apply bind_ok in H as [u' [w5 [I H]]].
    inversion H; subst s1 w5. clear H.
    unfold datetime_now, bind, next_tick, ret in D.
    inversion D; subst d w1. clear D.
    match type of F with
    | fold_records ?l ?s0 ?w0 = _ =>
        destruct (fold_records_fold l s0 w0) as [wf [evs [R [L [A K]]]]];
        assert (L0 : logs_dir w0 = logs_dir w) by reflexivity;
        pose proof (@fold_step_reads_logs w0 w l s0 L0) as Q
    end.
    rewrite R in F. inversion F; subst s w2. clear F.
    split; [exact Q |].
    unfold datetime_now, bind, next_tick, ret in D'.
    inversion D'; subst d' w3. clear D'.
    assert (E4 : exists evs4, events w4 = events wf ++ evs4).
    { unfold write_json, bind, next_tick, get_world, set_logs, emit, raise
        in W. simpl in W.
      destruct (write_fault lib _ _); inversion W; subst; simpl;
        eexists; reflexivity. }
    destruct E4 as [evs4 E4].
    unfold logger_info, emit in I. inversion I; subst w'. clear I.
    exists (evs ++ evs4 ++
            [Logged INFO (text "Summary report saved to " ++
                          logs_path (text "summary_report_" ++
                                     ymd (now lib (tick wf)) ++
                                     text ".json"))]).
    split.
    + unfold appended in *. simpl. rewrite E4, A. simpl.
      rewrite <- !app_assoc. reflexivity.
    + intros f0 e0 If Hf. apply in_or_app. left.
      apply K; [exact If |]. unfold read_json in *. now rewrite L0.
Qed.

(** A value is listed when it is an entry or equal, by Python's [==],
    to an entry. *)
Definition listed (d : json) (l : list json) : Prop :=
  In d l \/ py_in d l = true.

Lemma listed_app (d x : json) (l : list json) :
  listed d l -> listed d (l ++ [x]).
Proof.
  intros [H | H]; [left; apply in_or_app; now left |].
  right. unfold py_in in *. rewrite existsb_app, H. reflexivity.
Qed.

Lemma collect_companies_keeps_domain (d : json) (reports : list json) :
  preserves (fun s => listed d (domains_encountered s))
    (collect_companies reports).
Proof.
  induction reports as [|report rest IH]; simpl.
  - apply preserves_ret.
  - apply preserves_bind; [apply preserves_lift | intros company].
    apply preserves_bind; [| intros _; exact IH].
    apply (@preserves_when (fun s => listed d (domains_encountered s))
             (fun s => truthy company &&
                       negb (py_in company (companies_identified s)))).
    intros s I _. exact I.
Qed.

Lemma actions_part_keeps_domain (d : json) (w : World) (log_file : str) :
  preserves (fun s => listed d (domains_encountered s))
    match dict_get (actions_file_of log_file) (logs_dir w) with
    | Some _ => fold_actions w (actions_file_of log_file)
    | None => ret tt
    end.
Proof.
  destruct (dict_get _ (logs_dir w)); [| apply preserves_ret].
  unfold fold_actions.
  apply preserves_bind; [apply preserves_lift | intros actions_data].
  apply preserves_bind; [apply preserves_lift | intros ua].
  apply preserves_bind; [apply preserves_lift | intros n].
  apply preserves_bind; [now apply preserves_update | intros _].
  apply preserves_bind; [apply preserves_lift | intros attempts].
  apply preserves_bind; [apply preserves_lift | intros k].
  apply preserves_bind; [now apply preserves_update | intros _].
  apply preserves_bind; [apply preserves_lift | intros cr].
  apply preserves_bind; [apply preserves_lift | intros reports].
  apply collect_companies_keeps_domain.
Qed.

Lemma fold_record_keeps_domain (d : json) (w : World) (log_file : str) :
  preserves (fun s => listed d (domains_encountered s))
    (fold_record w log_file).
Proof.
  unfold fold_record.
  apply preserves_bind; [apply preserves_lift | intros data].
  apply preserves_bind; [apply preserves_lift | intros md].
  apply preserves_bind; [apply preserves_lift | intros domain].
  apply preserves_bind.
  - apply (@preserves_when (fun s => listed d (domains_encountered s))
             (fun s => truthy domain &&
                       negb (py_in domain (domains_encountered s)))).
    intros s I _. simpl. now apply listed_app.
  - intros _. apply actions_part_keeps_domain.
Qed.

(** The sender domain of a readable record is listed once the body has
    run on it, also when the body raises later on. *)
Lemma fold_step_lists_domain (w : World) (log_file : str) (s : Summary)
    (data md d : json) :
  read_json w log_file = inr data ->
  py_get data "metadata" (JObj []) = inr md ->
  py_get md "sender_domain" JNull = inr d ->
  truthy d = true ->
  listed d (domains_encountered (fold_step w s log_file)).
Proof.
  intros R M D T. unfold fold_step, fold_record.
  unfold bind at 1, lift at 1. rewrite R.
  unfold bind at 1, lift at 1. rewrite M.
  unfold bind at 1, lift at 1. rewrite D.
  unfold bind at 1. rewrite T. cbn [andb]. cbv zeta.
  pose proof (@actions_part_keeps_domain d w log_file) as P.
  destruct (negb (py_in d (domains_encountered s))) eqn:Q.
  - unfold update_summary.
    match goal with
    | |- context [snd (?m ?s0)] =>
        destruct (m s0) as [r s1] eqn:E; apply (P s0 r s1); [| exact E]
    end.
    simpl. left. apply in_or_app. right. now left.
  - unfold ret at 1.
    match goal with
    | |- context [snd (?m ?s0)] =>
        destruct (m s0) as [r s1] eqn:E; apply (P s0 r s1); [| exact E]
    end.
    right. now apply negb_false_iff in Q.
Qed.

Lemma fold_left_lists_domain (w : World) (files : list str)
    (f : str) (data md d : json) :
  In f files ->
  read_json w f = inr data ->
  py_get data "metadata" (JObj []) = inr md ->
  py_get md "sender_domain" JNull = inr d ->
  truthy d = true ->
  forall s, listed d (domains_encountered (fold_left (fold_step w) files s)).
Proof.
  intros I R M D T.
  assert (K : forall rest s,
             listed d (domains_encountered s) ->
             listed d (domains_encountered
                         (fold_left (fold_step w) rest s))).
  { induction rest as [|g rest IH]; intros s L; [exact L |].
    simpl. apply IH. unfold fold_step.
    destruct (fold_record w g s) as [r s1] eqn:E.
    exact (@fold_record_keeps_domain d w g s r s1 L E). }
  induction files as [|g rest IH]; [contradiction |].
  intros s. simpl. destruct I as [-> | I].
  - apply K. now apply (@fold_step_lists_domain w f s data md d R M D T).
  - now apply IH.
Qed.

(** *** Records without an actions record *)

Lemma fold_step_without_actions (w : World) (log_file : str) (s : Summary) :
  dict_get (actions_file_of log_file) (logs_dir w) = None ->
  action_counters (fold_step w s log_file) = action_counters s.
Proof.
  intros H. unfold fold_step.
  rewrite (@fold_record_without_actions w log_file s H).
  destruct (read_json w log_file) as [e | data]; [reflexivity |].
  destruct (py_get data "metadata" (JObj [])) as [e | md]; [reflexivity |].
  destruct (py_get md "sender_domain" JNull) as [e | d]; [reflexivity |].
  destruct (truthy d && negb (py_in d (domains_encountered s)));
    reflexivity.
Qed.

Lemma fold_left_without_actions (w : World) (files : list str) :
  (forall f, In f files ->
             dict_get (actions_file_of f) (logs_dir w) = None) ->
  forall s,
    action_counters (fold_left (fold_step w) files s) = action_counters s.
Proof.
  induction files as [|g rest IH]; intros H s; [reflexivity |].
  simpl. rewrite IH by (intros f I; apply H; now right).
  apply fold_step_without_actions. apply H. now left.
Qed.

(** Two summaries with the same action statistics: the loop body keeps
    them so, whatever their domain lists. *)
Definition agree (sa sb : Summary) : Prop :=
  action_counters sa = action_counters sb.

Definition respects (A : Type) (m : ST Summary A) : Prop :=
  forall sa sb,
    agree sa sb ->
    fst (m sa) = fst (m sb) /\ agree (snd (m sa)) (snd (m sb)).

Lemma respects_bind (A B : Type) (m : ST Summary A)
    (f : A -> ST Summary B) :
  respects m -> (forall a, respects (f a)) -> respects (bind m f).
Proof.
  intros Hm Hf sa sb G. unfold bind.
  destruct (Hm sa sb G) as [E G'].
  destruct (m sa) as [[ea | a] sa'], (m sb) as [[eb | b] sb'];
    simpl in E, G'; try discriminate.
  - inversion E; subst. now split.
  - inversion E; subst. now apply Hf.
Qed.

Lemma respects_lift (A : Type) (x : exn + A) : respects (@lift Summary A x).
Proof. intros sa sb G. now split. Qed.

Lemma respects_ret (A : Type) (a : A) : respects (@ret Summary A a).
Proof. intros sa sb G. now split. Qed.

Lemma respects_update (f : Summary -> Summary) :
  (forall sa sb, agree sa sb -> agree (f sa) (f sb)) ->
  respects (update_summary f).
Proof. intros F sa sb G. split; [reflexivity | now apply F]. Qed.

Lemma respects_collect_companies (reports : list json) :
  respects (collect_companies reports).
Proof.
  induction reports as [|report rest IH]; simpl.
  - apply respects_ret.
  - apply respects_bind; [apply respects_lift | intros company].
    apply respects_bind; [| intros _; exact IH].
    intros sa sb G. pose proof G as G0. unfold agree, action_counters in G0.
    injection G0 as G1 G2 G3. rewrite G3.
    destruct (truthy company &&
              negb (py_in company (companies_identified sb)));
      simpl; split; try reflexivity; try exact G.
    unfold agree, action_counters. simpl. congruence.
Qed.

Lemma respects_fold_record (w : World) (log_file : str) :
  respects (fold_record w log_file).
Proof.
  unfold fold_record.
  apply respects_bind; [apply respects_lift | intros data].
  apply respects_bind; [apply respects_lift | intros md].
  apply respects_bind; [apply respects_lift | intros domain].
  apply respects_bind.
  - intros sa sb G.
    destruct (truthy domain && negb (py_in domain (domains_encountered sa)));
      destruct (truthy domain &&
                negb (py_in domain (domains_encountered sb)));
      simpl; split; try reflexivity; exact G.
  - intros _. destruct (dict_get _ (logs_dir w)); [| apply respects_ret].
    unfold fold_actions.
    apply respects_bind; [apply respects_lift | intros actions_data].
    apply respects_bind; [apply respects_lift | intros ua].
    apply respects_bind; [apply respects_lift | intros n].
    apply respects_bind.
    { apply respects_update. intros sa sb G.
      unfold agree, action_counters in *. simpl. congruence. }
    intros _.
    apply respects_bind; [apply respects_lift | intros attempts].
    apply respects_bind; [apply respects_lift | intros k].
    apply respects_bind.
    { apply respects_update. intros sa sb G.
      unfold agree, action_counters in *. simpl. congruence. }
    intros _.
    apply respects_bind; [apply respects_lift | intros cr].
    apply respects_bind; [apply respects_lift | intros reports].
    apply respects_collect_companies.
Qed.

Lemma fold_left_agree (w : World) (files : list str) :
  forall sa sb,
    agree sa sb ->
    agree (fold_left (fold_step w) files sa)
          (fold_left (fold_step w) files sb).
Proof.
  induction files as [|g rest IH]; intros sa sb G; [exact G |].
  simpl. apply IH. unfold fold_step.
  exact (proj2 (@respects_fold_record w g sa sb G)).
Qed.

(** Taking a record without actions record out of the list leaves the
    action statistics of the loop's result as they are. *)
Lemma fold_left_skips_actions (w : World) (l1 l2 : list str) (f : str)
    (s : Summary) :
  dict_get (actions_file_of f) (logs_dir w) = None ->
  action_counters (fold_left (fold_step w) (l1 ++ f :: l2) s)
  = action_counters (fold_left (fold_step w) (l1 ++ l2) s).
Proof.
  intros H. rewrite !fold_left_app. cbn [fold_left].
  apply fold_left_agree. unfold agree.
  now apply fold_step_without_actions.
Qed.

(** C9: a metadata record without its actions record reaches the domain
    list only, leaving the attempt counts and the companies as they
    were, and counts among the processed emails; a record that cannot be
    read changes nothing (an unreadable actions record leaves the three
    action statistics alone), is reported in the activity log, and the
    loop goes on: the fold returns for every list of records and the
    report is produced whenever its own file can be written. This holds
    of the loop and of the report as a whole: taking a record without
    actions record out of the list leaves the action statistics of the
    loop's result as they are; the sender domain of every readable
    record of the list is listed in the result, whatever the other
    records are; and the report that is returned is the loop's result
    over the metadata records of the log directory, started from zeroed
    statistics, with an error line in the activity log for each record
    that could not be read. *)
Theorem summary_fold_tolerates_records (lib : Lib) :
  (forall w log_file s,
      dict_get (actions_file_of log_file) (logs_dir w) = None ->
      action_counters (snd (fold_record w log_file s)) = action_counters s /\
      forall data md d,
        read_json w log_file = inr data ->
        py_get data "metadata" (JObj []) = inr md ->
        py_get md "sender_domain" JNull = inr d ->
        truthy d = true ->
        fst (fold_record w log_file s) = inr tt /\
        domains_encountered (snd (fold_record w log_file s)) =
          if py_in d (domains_encountered s) then domains_encountered s
          else domains_encountered s ++ [d])
  /\
  (forall w log_file s e rest,
      read_json w log_file = inl e ->
      fold_record w log_file s = (inl e, s) /\
      fold_records (log_file :: rest) s w =
        fold_records rest s
          (snd (logger_error (reading_error_msg log_file e) w)))
  /\
  (forall w log_file s,
      dict_get (actions_file_of log_file) (logs_dir w) = Some Garbage ->
      action_counters (snd (fold_record w log_file s)) = action_counters s /\
      exists e, fst (fold_record w log_file s) = inl e)
  /\
  (forall log_files s w,
      exists s' w',
        fold_records log_files s w = (inr s', w') /\
        logs_dir w' = logs_dir w)
  /\
  (forall w,
      (forall s w',
          generate_summary_report lib w = (inr (Some s), w') ->
          total_emails_processed s = length (metadata_logs w)) /\
      (metadata_logs w <> [] ->
       write_fault lib (S (S (tick w))) (summary_file_name lib w)
         = WriteDone ->
       exists s w', generate_summary_report lib w = (inr (Some s), w')))
  /\
  (forall l1 f l2 s0 w sa wa sb wb,
      dict_get (actions_file_of f) (logs_dir w) = None ->
      fold_records (l1 ++ f :: l2) s0 w = (inr sa, wa) ->
      fold_records (l1 ++ l2) s0 w = (inr sb, wb) ->
      action_counters sa = action_counters sb)
  /\
  (forall files f data md d s0 w s' w',
      In f files ->
      read_json w f = inr data ->
      py_get data "metadata" (JObj []) = inr md ->
      py_get md "sender_domain" JNull = inr d ->
      truthy d = true ->
      fold_records files s0 w = (inr s', w') ->
      listed d (domains_encountered s'))
  /\
  (forall w s w',
      generate_summary_report lib w = (inr (Some s), w') ->
      s = fold_left (fun acc log_file => snd (fold_record w log_file acc))
            (metadata_logs w)
            (fresh_summary (length (metadata_logs w))
               (isoformat (now lib (tick w)))) /\
      (forall f data md d,
          In f (metadata_logs w) ->
          read_json w f = inr data ->
          py_get data "metadata" (JObj []) = inr md ->
          py_get md "sender_domain" JNull = inr d ->
          truthy d = true ->
          listed d (domains_encountered s)) /\
      ((forall f, In f (metadata_logs w) ->
                  dict_get (actions_file_of f) (logs_dir w) = None) ->
       action_counters s = (0, 0, [])) /\
      (forall f e,
          In f (metadata_logs w) ->
          read_json w f = inl e ->
          In (Logged ERROR (reading_error_msg f e)) (new_events w w'))).
Proof.
  split; [| split; [| split; [| split; [| split; [| split; [| split]]]]]].
  - intros w log_file s H.
    rewrite (@fold_record_without_actions w log_file s H). split.
    + destruct (read_json w log_file) as [e | data]; [reflexivity |].
      destruct (py_get data "metadata" (JObj [])) as [e | md];
        [reflexivity |].
      destruct (py_get md "sender_domain" JNull) as [e | d];
        [reflexivity |].
      destruct (truthy d && negb (py_in d (domains_encountered s)));
        reflexivity.
    + intros data md d -> -> -> T. rewrite T. simpl.
      split; [reflexivity |].
      destruct (py_in d (domains_encountered s)); reflexivity.
  - intros w log_file s e rest H. split.
    + unfold fold_record, bind, lift. now rewrite H.
    + cbn [fold_records]. unfold bind at 1, get_world.
      unfold fold_record, bind at 1, lift at 1. rewrite H.
      unfold bind at 1, logger_error, emit, reading_error_msg. reflexivity.
  - intros w log_file s H.
    rewrite (@fold_record_unreadable_actions w log_file s H).
    destruct (read_json w log_file) as [e | data];
      [split; [reflexivity | now exists e] |].
    destruct (py_get data "metadata" (JObj [])) as [e | md];
      [split; [reflexivity | now exists e] |].
    destruct (py_get md "sender_domain" JNull) as [e | d];
      [split; [reflexivity | now exists e] |].
    split; [| eexists; reflexivity].
    destruct (truthy d && negb (py_in d (domains_encountered s)));
      reflexivity.
  - intros log_files s w.
    destruct (fold_records_returns log_files s w)
      as [s' [w' [R [_ [_ [_ [L _]]]]]]].
    now exists s', w'.
  - intros w. split.
    + intros s w'. apply generate_summary_report_total.
    + apply generate_summary_report_runs.
  - intros l1 f l2 s0 w sa wa sb wb H Ea Eb.
    destruct (fold_records_fold (l1 ++ f :: l2) s0 w) as [w1 [e1 [R1 _]]].
    destruct (fold_records_fold (l1 ++ l2) s0 w) as [w2 [e2 [R2 _]]].
    rewrite R1 in Ea. rewrite R2 in Eb.
    injection Ea as <- _. injection Eb as <- _.
    now apply fold_left_skips_actions.
  - intros files f data md d s0 w s' w' I R M D T E.
    destruct (fold_records_fold files s0 w) as [w1 [e1 [R1 _]]].
    rewrite R1 in E. injection E as <- _.
    exact (@fold_left_lists_domain w files f data md d I R M D T s0).
  - intros w s w' H.
    apply generate_summary_report_result in H as [-> [evs [A K]]].
    split; [reflexivity |].
    split; [| split].
    + intros f data md d I R M D T.
      exact (@fold_left_lists_domain w _ f data md d I R M D T _).
    + intros N.
      change (fun acc log_file => snd (fold_record w log_file acc))
        with (fold_step w).
      rewrite (@fold_left_without_actions w _ N). reflexivity.
    + intros f e I R. rewrite (new_events_appended A). now apply K.
Qed.

Definition summary_world : World :=
  {| consume_dir := [];
     processed_dir := [];
     logs_dir :=
       [ (text "email_metadata_20240101_000001.json",
          Json (JObj [field "metadata"
                        (JObj [field "sender_domain"
                                 (jstr "spammy.example")])]));
         (text "email_metadata_20240101_000002.json", Garbage) ];
     events := [];
     tick := 0 |}.

Definition empty_summary : Summary :=
  {| total_emails_processed := 2;
     processing_date := text "2024-01-01T00:00:00";
     domains_encountered := [];
     companies_identified := [];
     total_unsubscribe_attempts := 0;
     successful_unsubscribes := 0 |}.

Lemma summary_fold_tolerates_records_witness :
  let f1 := text "email_metadata_20240101_000001.json" in
  let f2 := text "email_metadata_20240101_000002.json" in
  let bad := Exn "JSONDecodeError" (text "Expecting value") in
  (dict_get (actions_file_of f1) (logs_dir summary_world) = None /\
   action_counters (snd (fold_record summary_world f1 empty_summary))
     = action_counters empty_summary) /\
  (read_json summary_world f2 = inl bad /\
   fold_record summary_world f2 empty_summary = (inl bad, empty_summary)) /\
  (metadata_logs summary_world <> [] /\
   exists s w',
     generate_summary_report (plain_lib sample_message) summary_world
       = (inr (Some s), w') /\
     listed (jstr "spammy.example") (domains_encountered s) /\
     action_counters s = (0, 0, []) /\
     In (Logged ERROR (reading_error_msg f2 bad))
        (new_events summary_world w')).
Proof.
  intros f1 f2 bad.
  pose proof (summary_fold_tolerates_records (plain_lib sample_message))
    as [P1 [P2 [_ [_ [P5 [_ [_ P8]]]]]]].
  assert (H1 : dict_get (actions_file_of f1) (logs_dir summary_world) = None)
    by (vm_compute; reflexivity).
  assert (H2 : read_json summary_world f2 = inl bad)
    by (vm_compute; reflexivity).
  assert (H3 : metadata_logs summary_world <> [])
    by (vm_compute; discriminate).
  split; [split; [exact H1 | exact (proj1 (P1 _ _ empty_summary H1))] |].
  split; [split; [exact H2 | exact (proj1 (P2 _ _ empty_summary _ [] H2))] |].
  split; [exact H3 |].
  destruct (proj2 (P5 summary_world) H3 eq_refl) as [s [w' E]].
  exists s, w'. split; [exact E |].
  destruct (P8 summary_world s w' E) as [_ [Q1 [Q2 Q3]]].
  split; [| split].
  - apply (Q1 f1 (JObj [field "metadata"
                          (JObj [field "sender_domain"
                                   (jstr "spammy.example")])])
             (JObj [field "sender_domain" (jstr "spammy.example")])
             (jstr "spammy.example")).
    + vm_compute. left. reflexivity.
    + vm_compute. reflexivity.
    + vm_compute. reflexivity.
    + vm_compute. reflexivity.
    + reflexivity.
  - apply Q2. intros f I.
    assert (I' : f = f1 \/ f = f2).
    { vm_compute in I. destruct I as [<- | [<- | []]];
        [left | right]; vm_compute; reflexivity. }
    destruct I' as [-> | ->]; vm_compute; reflexivity.
  - apply (Q3 f2 bad); [| exact H2].
    vm_compute. right. left. reflexivity.
Defined.

(** ** Decoding header words *)

(** [kept] is what is left of [l] after dropping some of its items. *)
Inductive remains (A : Type) : list A -> list A -> Prop :=
| remains_nil : remains [] []
| remains_drop (x : A) (kept l : list A) :
    remains kept l -> remains kept (x :: l)
| remains_keep (x : A) (kept l : list A) :
    remains kept l -> remains (x :: kept) (x :: l).

Lemma remains_refl (A : Type) (l : list A) : remains l l.
Proof. induction l; constructor; assumption. Qed.

Lemma remains_skipn (A : Type) (n : nat) (kept l : list A) :
  remains kept (skipn n l) -> remains kept l.
Proof.
  revert l. induction n as [|n IH]; intros l; [exact (fun H => H) |].
  destruct l as [|x l]; [exact (fun H => H) |].
  simpl. intros H. apply remains_drop. now apply IH.
Qed.

Lemma remains_app_keep (A : Type) (pre kept l : list A) :
  remains kept l -> remains (pre ++ kept) (pre ++ l).
Proof.
  intros H. induction pre as [|x pre IH]; simpl; [exact H |].
  apply remains_keep. exact IH.
Qed.

Lemma remains_map (A B : Type) (f : A -> B) (l : list A) (kept : list B) :
  remains kept (List.map f l) ->
  exists kept0, remains kept0 l /\ kept = List.map f kept0.
Proof.
  revert kept. induction l as [|x l IH]; intros kept H; simpl in H.
  - inversion H; subst. exists []. split; [constructor | reflexivity].
  - inversion H; subst.
    + destruct (IH _ H2) as [k [R E]]. exists k. split; [now constructor | exact E].
    + destruct (IH _ H2) as [k [R E]]. exists (x :: k).
      split; [now constructor | simpl; now rewrite E].
Qed.

Ltac use_conditions :=
  repeat match goal with
         | E : _ = true |- _ => rewrite E
         | E : _ = false |- _ => rewrite E
         end.

(** A scalar is decoded from the bytes it uses and from no other. *)
Lemma decode_one_scalar (b0 : N) (rest : list N) (c : codepoint)
    (used : nat) :
  Utf8.decode_one b0 rest = Utf8.Scalar c used ->
  exists pre suf,
    rest = pre ++ suf /\ used = S (length pre) /\
    forall tail, Utf8.decode_one b0 (pre ++ tail) = Utf8.Scalar c used.
Proof.
  unfold Utf8.decode_one.
  destruct (b0 <? 128)%N eqn:E1.
  { intros H; inversion H; subst. exists [], rest.
    split; [reflexivity |]. split; [reflexivity |]. intros tail.
    reflexivity. }
  destruct (b0 <? 194)%N eqn:E2; [discriminate |].
  destruct (b0 <? 224)%N eqn:E3.
  { destruct rest as [|b1 r]; [discriminate |].
    destruct (Utf8.cont b1) eqn:C1; [| discriminate].
    intros H; inversion H; subst. exists [b1], r.
    split; [reflexivity |]. split; [reflexivity |]. intros tail.
    cbn [app]. use_conditions. reflexivity. }
  destruct (b0 <? 240)%N eqn:E4.
  { destruct rest as [|b1 r]; [discriminate |].
    destruct (Utf8.second_ok b0 b1) eqn:C1; [| discriminate].
    destruct r as [|b2 r]; [discriminate |].
    destruct (Utf8.cont b2) eqn:C2; [| discriminate].
    intros H; inversion H; subst. exists [b1; b2], r.
    split; [reflexivity |]. split; [reflexivity |]. intros tail.
    cbn [app]. use_conditions. reflexivity. }
  destruct (b0 <? 245)%N eqn:E5; [| discriminate].
  destruct rest as [|b1 r]; [discriminate |].
  destruct (Utf8.second_ok b0 b1) eqn:C1; [| discriminate].
  destruct r as [|b2 r]; [discriminate |].
  destruct (Utf8.cont b2) eqn:C2; [| discriminate].
  destruct r as [|b3 r]; [discriminate |].
  destruct (Utf8.cont b3) eqn:C3; [| discriminate].
  intros H; inversion H; subst. exists [b1; b2; b3], r.
  split; [reflexivity |]. split; [reflexivity |]. intros tail.
  cbn [app]. use_conditions. reflexivity.
Qed.

Lemma skipn_length_le (A : Type) (n : nat) (l : list A) :
  length (skipn n l) <= length l.
Proof. rewrite length_skipn. lia. Qed.

(** Ignoring errors amounts to decoding what is left after dropping
    bytes. *)
Lemma decode_loop_ignore_drops (fuel : nat) :
  forall bs : list N,
    length bs <= fuel ->
    exists kept s,
      remains kept bs /\
      Utf8.decode_loop false fuel bs = Some s /\
      forall fuel', length kept <= fuel' ->
                    Utf8.decode_loop true fuel' kept = Some s.
Proof.
  induction fuel as [|fuel IH]; intros bs L.
  - destruct bs as [|b bs]; [| simpl in L; lia].
    exists [], []. split; [constructor |]. split; [reflexivity |].
    intros [|f] _; reflexivity.
  - destruct bs as [|b0 rest].
    { exists [], []. split; [constructor |]. split; [reflexivity |].
      intros [|f] _; reflexivity. }
    simpl in L. cbn [Utf8.decode_loop].
    destruct (Utf8.decode_one b0 rest) as [c used | used] eqn:D.
    + destruct (decode_one_scalar _ _ D) as [pre [suf [-> [-> T]]]].
      cbn [pred]. rewrite skipn_app, skipn_all, Nat.sub_diag. cbn [app skipn].
      destruct (IH suf) as [kept [s [R [E S']]]].
      { rewrite length_app in L. lia. }
      exists (b0 :: pre ++ kept), (c :: s).
      split; [apply remains_keep, remains_app_keep, R |].
      split; [now rewrite E |].
      intros [|f] F; [simpl in F; lia |].
      cbn [Utf8.decode_loop]. rewrite T. cbn [pred].
      rewrite skipn_app, skipn_all, Nat.sub_diag. cbn [app skipn].
      rewrite S'; [reflexivity |].
      simpl in F. rewrite length_app in F. lia.
    + destruct (IH (skipn (pred used) rest)) as [kept [s [R [E S']]]].
      { pose proof (skipn_length_le (pred used) rest). lia. }
      exists kept, s.
      split; [apply remains_drop, (remains_skipn (pred used)), R |].
      split; [exact E | exact S'].
Qed.

(** [errors='ignore'] drops bytes and decodes the rest strictly: it
    invents no character. *)
Lemma decode_ignore_drops (b : bytes) :
  exists kept,
    remains kept b /\
    Utf8.decode_strict kept = Some (Utf8.decode_ignore b).
Proof.
  unfold Utf8.decode_ignore, Utf8.decode_strict.
  destruct (@decode_loop_ignore_drops (length b) (List.map Utf8.b2n b))
    as [kept [s [R [E S']]]].
  { rewrite length_map. lia. }
  apply remains_map in R as [kept0 [R ->]].
  exists kept0. split; [exact R |]. rewrite E.
  apply S'. rewrite length_map. lia.
Qed.

(** What one part of the split header gives to the text, or the
    exception its decoding raises. *)
Definition part_text (lib : Lib) (p : header_part * option str)
  : exn + str :=
  match p with
  | (PStr s, _) => inr s
  | (PBytes b, Some ((_ :: _) as enc)) => bytes_decode lib enc b
  | (PBytes b, _) => inr (Utf8.decode_ignore b)
  end.

Lemma decode_parts_step (lib : Lib) (p : header_part * option str)
    (rest : list (header_part * option str)) (acc : str) :
  decode_parts lib (p :: rest) acc =
  match part_text lib p with
  | inl e => inl e
  | inr s => decode_parts lib rest (acc ++ s)
  end.
Proof.
  destruct p as [[b | s] [[|c enc] |]]; reflexivity.
Qed.

Lemma decode_parts_joins (lib : Lib)
    (parts : list (header_part * option str)) (pieces : list str) :
  Forall2 (fun p s => part_text lib p = inr s) parts pieces ->
  forall acc, decode_parts lib parts acc = inr (acc ++ concat pieces).
Proof.
  intros H. induction H as [|p s parts pieces E _ IH]; intros acc.
  - simpl. now rewrite app_nil_r.
  - rewrite decode_parts_step, E, IH. simpl. now rewrite app_assoc.
Qed.

Lemma decode_parts_raises (lib : Lib)
    (pre post : list (header_part * option str))
    (p : header_part * option str) (pieces : list str) (e : exn) :
  Forall2 (fun p s => part_text lib p = inr s) pre pieces ->
  part_text lib p = inl e ->
  forall acc, decode_parts lib (pre ++ p :: post) acc = inl e.
Proof.
  intros H P. induction H as [|q s pre pieces E _ IH]; intros acc.
  - simpl app. now rewrite decode_parts_step, P.
  - simpl app. rewrite decode_parts_step, E. apply IH.
Qed.

(** [decode_header] on [=?utf-8?b?/w==?=]: one encoded word, whose
    byte is no UTF-8. *)
Definition raw_subject_message : Message :=
  Leaf [(text "Subject", text "Sale " ++ [56575%N] ++ text " today")]
    (text "text/plain") (ascii_bytes "hello").

(** [decode_header] on [=??q?a=FFb?= =?utf-8?q?x?=]: two encoded words,
    the first one with an empty charset. *)
Definition dropping_header_text : str :=
  text "=??q?a=FFb?= =?utf-8?q?x?=".

Definition dropping_header (t : str)
  : exn + list (header_part * option str) :=
  inr [ (PBytes [Byte.x61; Byte.xff; Byte.x62], Some []);
        (PBytes [Byte.x78], Some (text "utf-8")) ].

(** C7: the claim fails on the code. On the subject [=?utf-8?b?/w==?=],
    an encoded word whose byte is not valid in its declared charset,
    decoding raises [UnicodeDecodeError] and the artifact is given up;
    on a subject with a raw 8-bit byte, which the library hands over as
    a [Header] object of charset [unknown-8bit], it raises
    [LookupError]. The branch beside it, for bytes without a charset,
    does not raise: it drops the bytes that are no UTF-8. *)
Lemma encoded_word_decoding_raises :
  let lib := sample_lib undecodable_message undecodable_header
               (web_status 200) disk_ok in
  get undecodable_message "Subject" = HStr (text "=?utf-8?b?/w==?=") /\
  decode_mime_words lib (get undecodable_message "Subject")
  = inl (Exn "UnicodeDecodeError" (text "'utf-8' codec can't decode")) /\
  fst (process_email_file lib (text "offer.eml") sample_world) = inr None /\
  decode_mime_words
    (sample_lib raw_subject_message plain_header (web_status 200) disk_ok)
    (get raw_subject_message "Subject")
  = inl (Exn "LookupError" (text "unknown encoding")) /\
  decode_mime_words
    (sample_lib sample_message dropping_header (web_status 200) disk_ok)
    (HStr dropping_header_text)
  = inr (text "abx").
Proof. repeat split; vm_compute; reflexivity. Qed.

(** What [decode_mime_words] returns for any header value that is not
    empty, a string or a [Header] object, once the value is split into
    parts: when every part gives a text, the texts joined in order;
    otherwise the exception of the first part that does not decode in
    the charset it declares. Bytes without a charset, or with an empty
    one, always give a text: the strict decoding of what is left of
    them after dropping bytes. *)
Theorem decode_mime_words_joins_parts (lib : Lib) (v : hvalue)
    (parts : list (header_part * option str)) :
  hvalue_truthy v = true ->
  header_parts lib v = inr parts ->
  (forall pieces,
      Forall2 (fun p s => part_text lib p = inr s) parts pieces ->
      decode_mime_words lib v = inr (concat pieces)) /\
  (forall pre p post pieces e,
      parts = pre ++ p :: post ->
      Forall2 (fun q s => part_text lib q = inr s) pre pieces ->
      part_text lib p = inl e ->
      decode_mime_words lib v = inl e) /\
  (forall b enc,
      In (PBytes b, enc) parts -> enc = None \/ enc = Some [] ->
      part_text lib (PBytes b, enc) = inr (Utf8.decode_ignore b) /\
      exists kept,
        remains kept b /\
        Utf8.decode_strict kept = Some (Utf8.decode_ignore b)).
Proof.
  intros T P. unfold decode_mime_words. rewrite T, P.
  split; [| split].
  - intros pieces F. now rewrite (@decode_parts_joins lib parts pieces F).
  - intros pre p post pieces e -> F E.
    exact (@decode_parts_raises lib pre post p pieces e F E []).
  - intros b enc _ [-> | ->]; (split; [reflexivity |]);
      apply decode_ignore_drops.
Qed.

Lemma decode_mime_words_joins_parts_witness :
  let lib := sample_lib sample_message dropping_header (web_status 200)
               disk_ok in
  header_parts lib (HStr dropping_header_text)
    = inr [ (PBytes [Byte.x61; Byte.xff; Byte.x62], Some []);
            (PBytes [Byte.x78], Some (text "utf-8")) ] /\
  decode_mime_words lib (HStr dropping_header_text)
    = inr (concat [text "ab"; text "x"]).
Proof.
  intros lib. split; [reflexivity |].
  apply (proj1 (@decode_mime_words_joins_parts lib
                  (HStr dropping_header_text) _ eq_refl eq_refl)).
  repeat constructor.
Defined.

(** * Further properties of the processor *)

(** ** Stages that cannot fail *)

Lemma datetime_now_value (lib : Lib) (w : World) :
  datetime_now lib w =
  (inr (now lib (tick w)),
   {| consume_dir := consume_dir w; processed_dir := processed_dir w;
      logs_dir := logs_dir w; events := events w; tick := S (tick w) |}).
Proof. reflexivity. Qed.

Lemma attempt_one_returns (lib : Lib) (link : str) (w : World) :
  exists a w', attempt_one lib link w = (inr a, w') /\ a_link a = link.
Proof.
  destruct (http_get lib (tick w) link) as [e | resp] eqn:H.
  - destruct (attempt_one_exception lib link w H) as [w' [E _]].
    eexists. exists w'. split; [exact E | reflexivity].
  - destruct (attempt_one_response lib link w H) as [w' [E _]].
    eexists. exists w'. split; [exact E | reflexivity].
Qed.

Lemma attempt_unsubscribe_returns (lib : Lib) (links : list str)
    (md : Metadata) :
  forall w, exists results w',
      attempt_unsubscribe lib links md w = (inr results, w') /\
      List.map a_link results = links.
Proof.
  induction links as [|link rest IH]; intros w; simpl.
  - now exists [], w.
  - destruct (attempt_one_returns lib link w) as [a [w1 [E1 L1]]].
    destruct (IH w1) as [results [w2 [E2 L2]]].
    erewrite bind_of_ok by exact E1. erewrite bind_of_ok by exact E2.
    exists (a :: results), w2. split; [reflexivity |].
    simpl. now rewrite L1, L2.
Qed.

(** The known companies of a list, each with its contact address. *)
Definition known_contacts (names : list str) : list (str * str) :=
  List.flat_map
    (fun name =>
       match dict_get name company_reporting with
       | Some address => [(name, address)]
       | None => []
       end) names.

Definition contact_of (c : CompanyReport) : str * str :=
  (c_company c, c_email c).

Lemma report_to_companies_value (lib : Lib) (names : list str)
    (md : Metadata) (content : str * str) (w : World) :
  exists reports w',
    report_to_companies lib names md content w = (inr reports, w') /\
    List.map contact_of reports = known_contacts names /\
    Forall (fun c => c_status c = text "Ready for email submission")
      reports.
Proof.
  revert w. induction names as [|name rest IH]; intros w.
  - exists [], w. repeat split. constructor.
  - cbn [report_to_companies]. unfold known_contacts. cbn [List.flat_map].
    destruct (dict_get name company_reporting) as [address |].
    + erewrite bind_of_ok by apply datetime_now_value.
      match goal with
      | |- context [bind _ _ ?w1] =>
          destruct (IH w1) as [reports [w2 [E [C S']]]]
      end.
      erewrite bind_of_ok by exact E.
      eexists. exists w2. split; [reflexivity |]. split.
      * simpl. now rewrite C.
      * constructor; [reflexivity | exact S'].
    + destruct (IH w) as [reports [w2 [E [C S']]]].
      exists reports, w2. auto.
Qed.

Lemma perform_whois_lookup_returns (lib : Lib) (domain : str) (w : World) :
  exists fields w',
    perform_whois_lookup lib domain w = (inr (JObj fields), w') /\
    dict_get (text "domain") fields = Some (JStr domain).
Proof.
  unfold perform_whois_lookup, bind, next_tick, logger_error, emit,
    datetime_now, ret. simpl.
  destruct (whois_query lib (tick w) domain) as [e | entry];
    eexists; eexists; (split; [reflexivity | reflexivity]).
Qed.


(** An analysis that returns has read a [List-Unsubscribe] header that
    is a string. *)
Lemma analysis_text_header (lib : Lib) (name : str) (email_msg : Message)
    (md0 : Metadata) (content : str * str) (w w' : World) (r : Results) :
  analysis lib name (email_msg, md0, content) w = (inr r, w') ->
  exists lu, get email_msg "List-Unsubscribe" = HStr lu.
Proof.
  destruct content as [text_content html_content].
  unfold analysis. intros H.
  apply bind_ok in H as [lu [w0 [L _]]].
  destruct (get email_msg "List-Unsubscribe") as [v | raw];
    [now exists v | discriminate].
Qed.

(** ** What a result holds *)

(** The metadata the analysis works with: extraction's, with the
    List-Unsubscribe header when the message has one. *)
Definition analysed_metadata (lu : str) (md0 : Metadata) : Metadata :=
  match lu with
  | [] => md0
  | _ :: _ => with_list_unsubscribe md0 lu
  end.

Lemma analysed_metadata_domain (lu : str) (md0 : Metadata) :
  md_sender_domain (analysed_metadata lu md0) = md_sender_domain md0.
Proof. unfold analysed_metadata. now destruct lu. Qed.

Lemma analysis_shape (lib : Lib) (name : str) (email_msg : Message)
    (md0 : Metadata) (text_content html_content : str) (w w' : World)
    (r : Results) (lu : str) :
  get email_msg "List-Unsubscribe" = HStr lu ->
  analysis lib name (email_msg, md0, (text_content, html_content)) w
    = (inr r, w') ->
  let md := analysed_metadata lu md0 in
  file_path r = consume_path name /\
  metadata r = md /\
  unsubscribe_links r = candidates lib text_content html_content lu /\
  List.map a_link (unsubscribe_results r) = unsubscribe_links r /\
  identified_companies r =
    identify_company_from_content lib text_content html_content md /\
  List.map contact_of (company_reports r)
    = known_contacts (identified_companies r) /\
  match md_sender_domain md with
  | Some ((_ :: _) as domain) =>
      exists fields,
        whois_data r = Some (JObj fields) /\
        dict_get (text "domain") fields = Some (JStr domain)
  | _ => whois_data r = None
  end.
Proof.
  intros L H md. unfold analysis in H. rewrite L in H.
  erewrite bind_of_ok in H by reflexivity.
  fold (analysed_metadata lu md0) in H. fold md in H.
  apply bind_ok in H as [results [w1 [A H]]].
  apply bind_ok in H as [whois [w2 [B H]]].
  apply bind_ok in H as [authority [w3 [_ H]]].
  apply bind_ok in H as [company [w4 [Cm H]]].
  apply bind_ok in H as [d [w5 [_ H]]].
  inversion H; subst; simpl. clear H.
  repeat split.
  - destruct (candidates lib text_content html_content lu)
      as [|l ls] eqn:K.
    + inversion A; subst. reflexivity.
    + destruct (attempt_unsubscribe_returns lib (l :: ls) md w)
        as [results' [w1' [E M]]].
      rewrite E in A. inversion A; subst. exact M.
  - destruct (report_to_companies_value lib
                (identify_company_from_content lib text_content html_content
                   md) md (text_content, html_content) w3)
      as [company' [w4' [E [K _]]]].
    rewrite E in Cm. inversion Cm; subst. exact K.
  - destruct (md_sender_domain md) as [[|c dom] |].
    + now inversion B.
    + destruct (perform_whois_lookup_returns lib (c :: dom) w1)
        as [fields [w2' [E F]]].
      erewrite bind_of_ok in B by exact E. inversion B; subst.
      now exists fields.
    + now inversion B.
Qed.

(** A returned result went through the three stages. *)
Lemma process_email_file_success (lib : Lib) (name : str) (w w' : World)
    (r : Results) :
  process_email_file lib name w = (inr (Some r), w') ->
  exists x w1 w2,
    extraction lib name (snd (logger_info (processing_msg name) w))
      = (inr x, w1) /\
    analysis lib name x w1 = (inr r, w2) /\
    persist_and_move lib name r w2 = (inr (Some r), w').
Proof.
  rewrite process_email_file_stages. cbv zeta.
  destruct (extraction lib name _) as [[e | x] w1];
    [rewrite abandon_effect; discriminate |].
  destruct (analysis lib name x w1) as [[e | r0] w2] eqn:A;
    [rewrite abandon_effect; discriminate |].
  destruct (persist_and_move lib name r0 w2) as [[e | v] w3] eqn:P;
    [rewrite abandon_effect; discriminate |].
  intros H. pose proof (persist_and_move_value _ _ _ _ P) as V.
  inversion H; subst. inversion H1; subst.
  exists x, w1, w2. auto.
Qed.

Lemma extraction_metadata (lib : Lib) (name : str) (w w1 : World)
    (email_msg : Message) (md0 : Metadata) (content : str * str) :
  extraction lib name w = (inr (email_msg, md0, content), w1) ->
  md_sender_domain md0 = first_domain (md_from md0) /\
  content = extract_email_content email_msg /\
  exists raw, dict_get name (consume_dir w) = Some raw /\
              email_msg = message_from_bytes lib raw.
Proof.
  unfold extraction. intros H.
  apply bind_ok in H as [raw [w0 [R H]]].
  apply bind_ok in H as [md [w2 [E H]]].
  inversion H; subst. clear H.
  split; [exact (extract_email_metadata_domain _ _ _ E) |].
  split; [reflexivity |].
  exists raw. split; [| reflexivity].
  unfold read_artifact, bind, get_world in R.
  destruct (dict_get name (consume_dir w)); inversion R; reflexivity.
Qed.

Lemma company_names_distinct : NoDup (List.map fst company_reporting).
Proof.
  assert (E : nodup str_eq_dec (List.map fst company_reporting)
              = List.map fst company_reporting) by (vm_compute; reflexivity).
  rewrite <- E. apply NoDup_nodup.
Qed.

Lemma dict_get_known (A : Type) (k : str) (d : list (str * A)) :
  In k (List.map fst d) -> exists v, dict_get k d = Some v.
Proof.
  induction d as [|[k' v] d IH]; simpl; [contradiction |].
  destruct (str_eqb k k') eqn:E; [now exists v |].
  intros [H | H]; [| now apply IH].
  subst k'. now rewrite str_eqb_refl in E.
Qed.

Lemma known_contacts_names (names : list str) :
  incl names (List.map fst company_reporting) ->
  List.map fst (known_contacts names) = names.
Proof.
  induction names as [|n rest IH]; intros H; [reflexivity |].
  unfold known_contacts. cbn [List.flat_map].
  destruct (@dict_get_known _ n company_reporting) as [a E];
    [apply H; now left |].
  rewrite E. simpl. f_equal. apply IH. intros x I. apply H. now right.
Qed.

(** The companies of a processed artifact and their staged reports go
    together: the identified companies are keys of the contact table,
    without repetition and in the table's order, and the staged company
    reports name exactly them, in the same order, each with the table's
    address. *)
Theorem company_reports_match_identified (lib : Lib) (name : str)
    (w w' : World) (r : Results) :
  process_email_file lib name w = (inr (Some r), w') ->
  incl (identified_companies r) (List.map fst company_reporting) /\
  NoDup (identified_companies r) /\
  List.map c_company (company_reports r) = identified_companies r /\
  List.map contact_of (company_reports r)
    = known_contacts (identified_companies r).
Proof.
  intros H. apply process_email_file_success in H
    as [[[email_msg md0] [text_content html_content]] [w1 [w2 [_ [A _]]]]].
  destruct (@analysis_text_header _ _ _ _ _ _ _ _ A) as [lu L].
  pose proof (@analysis_shape lib name email_msg md0 text_content
                html_content w1 w2 r lu L A) as [_ [_ [_ [_ [I [K _]]]]]].
  assert (S : incl (identified_companies r)
                (List.map fst company_reporting)).
  { rewrite I. unfold identify_company_from_content.
    intros x X. now apply filter_In in X. }
  split; [exact S |]. split.
  - rewrite I. unfold identify_company_from_content.
    apply NoDup_filter, company_names_distinct.
  - split; [| exact K].
    transitivity (List.map fst (List.map contact_of (company_reports r))).
    + rewrite map_map. reflexivity.
    + rewrite K. apply known_contacts_names, S.
Qed.

Lemma company_reports_match_identified_witness :
  exists r w',
    process_email_file
      (plain_lib
         (Leaf [(text "Subject", text "Your AMAZON order")]
            (text "text/plain") (ascii_bytes "Pay with PayPal")))
      (text "offer.eml") sample_world = (inr (Some r), w') /\
    List.map c_company (company_reports r)
      = [text "paypal"; text "amazon"] /\
    identified_companies r = [text "paypal"; text "amazon"].
Proof.
  destruct (process_email_file
              (plain_lib
                 (Leaf [(text "Subject", text "Your AMAZON order")]
                    (text "text/plain") (ascii_bytes "Pay with PayPal")))
              (text "offer.eml") sample_world) as [[e | [r |]] w'] eqn:E;
    [vm_compute in E; discriminate | | vm_compute in E; discriminate].
  exists r, w'. split; [reflexivity |].
  assert (I : identified_companies r = [text "paypal"; text "amazon"])
    by (vm_compute in E; inversion E; reflexivity).
  destruct (@company_reports_match_identified _ _ _ _ _ E)
    as [_ [_ [M _]]].
  rewrite M. split; exact I.
Defined.

(** The directory lookup is made exactly when a sender domain was
    derived: a processed artifact has no domain data if and only if its
    metadata has no sender domain, and otherwise the data is a record
    whose domain is the sender domain, be it the registry's answer or
    the placeholder kept when the lookup failed. *)
Theorem whois_data_follows_sender_domain (lib : Lib) (name : str)
    (w w' : World) (r : Results) :
  process_email_file lib name w = (inr (Some r), w') ->
  (whois_data r = None <-> md_sender_domain (metadata r) = None) /\
  (forall domain,
      md_sender_domain (metadata r) = Some domain ->
      exists fields,
        whois_data r = Some (JObj fields) /\
        dict_get (text "domain") fields = Some (JStr domain)).
Proof.
  intros H. apply process_email_file_success in H
    as [[[email_msg md0] [text_content html_content]] [w1 [w2 [X [A _]]]]].
  apply extraction_metadata in X as [D _].
  destruct (@analysis_text_header _ _ _ _ _ _ _ _ A) as [lu L].
  pose proof (@analysis_shape lib name email_msg md0 text_content
                html_content w1 w2 r lu L A) as [_ [M [_ [_ [_ [_ W]]]]]].
  rewrite M. rewrite analysed_metadata_domain in *.
  destruct (md_sender_domain md0) as [[|c dom] |] eqn:S.
  - symmetry in D. apply first_domain_found in D as [N _]. contradiction.
  - destruct W as [fields [W F]]. split.
    + rewrite W. split; discriminate.
    + intros domain E. inversion E; subst. now exists fields.
  - split; [split; [reflexivity | intros _; exact W] | discriminate].
Qed.

Lemma whois_data_follows_sender_domain_witness :
  exists r w',
    process_email_file (plain_lib sample_message) (text "offer.eml")
      sample_world = (inr (Some r), w') /\
    md_sender_domain (metadata r) = Some (text "spammy.example") /\
    exists fields,
      whois_data r = Some (JObj fields) /\
      dict_get (text "domain") fields = Some (JStr (text "spammy.example")).
Proof.
  destruct (process_email_file (plain_lib sample_message) (text "offer.eml")
              sample_world) as [[e | [r |]] w'] eqn:E;
    [vm_compute in E; discriminate | | vm_compute in E; discriminate].
  exists r, w'. split; [reflexivity |].
  assert (D : md_sender_domain (metadata r) = Some (text "spammy.example"))
    by (vm_compute in E; inversion E; reflexivity).
  split; [exact D |].
  exact (proj2 (@whois_data_follows_sender_domain _ _ _ _ _ E) _ D).
Defined.

(** ** Runs without faults, and runs whose move fails *)


Definition is_rename_failed (ev : event) : bool :=
  match ev with RenameFailed _ => true | _ => false end.


Lemma dict_get_dir_remove_other (A : Type) (n n' : str)
    (d : list (str * A)) :
  str_eqb n n' = false ->
  dict_get n (dir_remove n' d) = dict_get n d.
Proof.
  intros H. unfold dir_remove.
  induction d as [|[k v] d IH]; simpl; [reflexivity |].
  destruct (str_eqb n' k) eqn:E; simpl.
  - apply str_eqb_spec in E. subst k. now rewrite H.
  - now rewrite IH.
Qed.










Lemma logs_not_rename_failed (evs : list event) :
  Forall is_log evs -> existsb is_rename_failed evs = false.
Proof.
  induction 1 as [|ev evs H _ IH]; [reflexivity |].
  destruct ev; simpl in *; try contradiction. exact IH.
Qed.

Lemma log_processing_results_events (lib : Lib) (r : Results)
    (w w' : World) (v : exn + unit) :
  log_processing_results lib r w = (v, w') ->
  exists evs, appended w w' evs /\ existsb is_rename_failed evs = false.
Proof.
  unfold log_processing_results, write_json, write_unserialisable,
    datetime_now, bind, next_tick, get_world, set_logs, emit, raise, ret,
    appended. simpl.
  destruct (serialisable (metadata r)); simpl.
  - destruct (write_fault lib (S (tick w)) _) as [| e | e]; simpl.
    + destruct (write_fault lib (S (S (tick w))) _) as [| e | e]; simpl;
        intros H; inversion H; subst; simpl;
        eexists; rewrite <- app_assoc; split; reflexivity.
    + intros H; inversion H; subst; simpl. eexists. split; reflexivity.
    + intros H; inversion H; subst; simpl. eexists. split; reflexivity.
  - destruct (write_fault lib (S (tick w)) _) as [| e | e]; simpl;
      intros H; inversion H; subst; simpl; eexists; split; reflexivity.
Qed.

(** When the move is what failed, the records were written before. *)
Lemma persist_and_move_after_failed_move (lib : Lib) (name : str)
    (r : Results) (w w' : World) (v : exn + option Results) :
  persist_and_move lib name r w = (v, w') ->
  existsb is_rename_failed (new_events w w') = true ->
  (exists e, v = inl e) /\
  consume_dir w' = consume_dir w /\
  processed_dir w' = processed_dir w /\
  logs_dir w' =
    dir_put (actions_log_name (ymd_hms (now lib (tick w))))
      (Json (actions_record r))
      (dir_put (metadata_log_name (ymd_hms (now lib (tick w))))
         (Json (metadata_record r)) (logs_dir w)).
Proof.
  unfold persist_and_move. intros H F.
  apply bind_cases in H as [[e [H ->]] | [u [w1 [H1 H]]]].
  { apply log_processing_results_events in H as [evs [A N]].
    rewrite (new_events_appended A), N in F. discriminate. }
  apply log_processing_results_cases in H1
    as [C1 [P1 [[_ [A1 L1]] | [e' [evs [V _]]]]]]; [| discriminate].
  apply bind_cases in H as [[e [H ->]] | [u2 [w2 [H2 H]]]].
  { apply move_to_processed_cases in H
      as [L [[V _] | [e' [V [A [C P]]]]]]; [discriminate |].
    split; [now exists e |]. cbv zeta in L1.
    repeat split; congruence. }
  apply move_to_processed_cases in H2
    as [L2 [[_ [A2 C2]] | [e' [V _]]]]; [| discriminate].
  unfold logger_info, emit, bind, ret in H. injection H as Hv Hw.
  subst v w'.
  assert (A : appended w
                {| consume_dir := consume_dir w2;
                   processed_dir := processed_dir w2;
                   logs_dir := logs_dir w2;
                   events := events w2 ++ [Logged INFO (success_msg name)];
                   tick := tick w2 |}
                ([Wrote (metadata_log_name (ymd_hms (now lib (tick w))));
                  Wrote (actions_log_name (ymd_hms (now lib (tick w))))]
                 ++ [Renamed name] ++ [Logged INFO (success_msg name)])).
  { unfold appended in *. simpl. rewrite A2, A1, <- !app_assoc.
    reflexivity. }
  erewrite new_events_appended in F by exact A. discriminate.
Qed.

(** The course of [process_email_file] up to persistence: log lines
    only, directories untouched; then either the handler, or
    [persist_and_move] on the result of the analysis. *)
Lemma process_email_file_trace (lib : Lib) (name : str) (w : World) :
  exists pre,
    Forall is_log pre /\
    ((exists e w1,
         process_email_file lib name w = abandon name e w1 /\
         appended w w1 pre /\
         consume_dir w1 = consume_dir w /\
         processed_dir w1 = processed_dir w /\
         logs_dir w1 = logs_dir w)
     \/
     (exists r w2 v w3,
         appended w w2 pre /\
         consume_dir w2 = consume_dir w /\
         processed_dir w2 = processed_dir w /\
         logs_dir w2 = logs_dir w /\
         file_path r = consume_path name /\
         persist_and_move lib name r w2 = (v, w3) /\
         process_email_file lib name w =
           match v with
           | inl e => abandon name e w3
           | inr res => (inr res, w3)
           end)).
Proof.
  rewrite process_email_file_stages. cbv zeta.
  assert (A0 : appended w (snd (logger_info (processing_msg name) w))
                 [Logged INFO (processing_msg name)]) by reflexivity.
  assert (D0 : consume_dir (snd (logger_info (processing_msg name) w))
               = consume_dir w /\
               processed_dir (snd (logger_info (processing_msg name) w))
               = processed_dir w /\
               logs_dir (snd (logger_info (processing_msg name) w))
               = logs_dir w) by (repeat split).
  destruct D0 as [C0 [P0 G0]].
  set (w0 := snd (logger_info (processing_msg name) w)) in *.
  destruct (extraction lib name w0) as [[e | x] w1] eqn:E1.
  { exists [Logged INFO (processing_msg name)].
    split; [repeat constructor |]. left. exists e, w1.
    apply extraction_silent in E1 as [C [P [L V]]].
    split; [reflexivity |].
    split; [unfold appended in *; congruence |].
    repeat split; congruence. }
  apply extraction_silent in E1 as [C1 [P1 [L1 V1]]].
  assert (A1 : appended w w1 [Logged INFO (processing_msg name)])
    by (unfold appended in *; congruence).
  destruct (analysis lib name x w1) as [[e | r] w2] eqn:E2.
  { pose proof (@quiet_analysis lib name x _ _ _ E2) as [C [P [L [ev2 [A2 F2]]]]].
    exists ([Logged INFO (processing_msg name)] ++ ev2).
    split; [constructor; [exact I | exact F2] |]. left. exists e, w2.
    split; [reflexivity |]. split; [exact (appended_trans A1 A2) |].
    repeat split; congruence. }
  pose proof (@quiet_analysis lib name x _ _ _ E2) as [C2 [P2 [L2 [ev2 [A2 F2]]]]].
  exists ([Logged INFO (processing_msg name)] ++ ev2).
  split; [constructor; [exact I | exact F2] |]. right.
  destruct x as [[email_msg md0] [text_content html_content]].
  destruct (@analysis_text_header _ _ _ _ _ _ _ _ E2) as [lu LU].
  pose proof (@analysis_shape lib name email_msg md0 text_content
                html_content w1 w2 r lu LU E2) as [FP _].
  destruct (persist_and_move lib name r w2) as [v w3] eqn:E3.
  exists r, w2, v, w3.
  split; [exact (appended_trans A1 A2) |].
  repeat split; congruence.
Qed.

(** When the move itself fails, after both writes went through, the
    artifact stays in the intake directory and no result is returned,
    yet the two records of this run are in the log directory: the next
    run will process the artifact again and write records for it
    again. *)
Theorem failed_move_leaves_records (lib : Lib) (name : str) (w : World) :
  let run := process_email_file lib name w in
  existsb is_rename_failed (new_events w (snd run)) = true ->
  fst run = inr None /\
  consume_dir (snd run) = consume_dir w /\
  processed_dir (snd run) = processed_dir w /\
  exists res ts,
    file_path res = consume_path name /\
    dict_get (metadata_log_name ts) (logs_dir (snd run))
      = Some (Json (metadata_record res)) /\
    dict_get (actions_log_name ts) (logs_dir (snd run))
      = Some (Json (actions_record res)).
Proof.
  intros run F. subst run.
  destruct (process_email_file_trace lib name w)
    as [pre [L [[e [w1 [R [A [C [P G]]]]]]
                | [r [w2 [v [w3 [A [C [P [G [FP [PM R]]]]]]]]]]]]].
  - exfalso. rewrite R, abandon_effect in F. simpl in F.
    rewrite (@new_events_appended w _
               (pre ++ [Logged ERROR (error_msg name e)])) in F.
    + rewrite existsb_app, (logs_not_rename_failed L) in F. discriminate.
    + unfold appended in *. simpl. rewrite A, <- app_assoc. reflexivity.
  - pose proof PM as PM'.
    apply persist_and_move_cases in PM'
      as [[-> [A3 _]] | [e [ev3 [-> [A3 _]]]]].
    + exfalso. rewrite R in F. simpl in F.
      rewrite (new_events_appended (appended_trans A A3)) in F.
      rewrite existsb_app, (logs_not_rename_failed L) in F. discriminate.
    + rewrite R, abandon_effect in *. simpl in *.
      rewrite (@new_events_appended w _
                 (pre ++ ev3 ++ [Logged ERROR (error_msg name e)])) in F.
      2:{ unfold appended in *. simpl. rewrite A3, A, <- !app_assoc.
          reflexivity. }
      rewrite !existsb_app, (logs_not_rename_failed L) in F. simpl in F.
      rewrite orb_false_r in F.
      rewrite <- (new_events_appended A3) in F.
      destruct (persist_and_move_after_failed_move _ _ _ _ PM F)
        as [_ [C3 [P3 G3]]].
      split; [reflexivity |]. split; [congruence |]. split; [congruence |].
      exists r, (ymd_hms (now lib (tick w2))).
      split; [exact FP |]. rewrite G3. split.
      * rewrite dict_get_dir_put_other by apply log_names_differ.
        apply dict_get_dir_put_same.
      * apply dict_get_dir_put_same.
Qed.

(** A file system on which every move is refused. *)
Definition stuck_lib : Lib :=
  {| message_from_bytes := message_from_bytes (plain_lib sample_message);
     decode_header := decode_header (plain_lib sample_message);
     codec_decode := codec_decode (plain_lib sample_message);
     anchors := anchors (plain_lib sample_message);
     unicode_lower := unicode_lower (plain_lib sample_message);
     set_order := set_order (plain_lib sample_message);
     http_get := http_get (plain_lib sample_message);
     whois_query := whois_query (plain_lib sample_message);
     now := now (plain_lib sample_message);
     write_fault := write_fault (plain_lib sample_message);
     rename_fault :=
       fun _ _ => Some (Exn "PermissionError" (text "Permission denied")) |}.

Lemma failed_move_leaves_records_witness :
  existsb is_rename_failed
    (new_events sample_world
       (snd (process_email_file stuck_lib (text "offer.eml") sample_world)))
  = true /\
  fst (process_email_file stuck_lib (text "offer.eml") sample_world)
  = inr None /\
  consume_dir
    (snd (process_email_file stuck_lib (text "offer.eml") sample_world))
  = consume_dir sample_world.
Proof.
  assert (F : existsb is_rename_failed
                (new_events sample_world
                   (snd (process_email_file stuck_lib (text "offer.eml")
                           sample_world))) = true)
    by (vm_compute; reflexivity).
  split; [exact F |].
  destruct (failed_move_leaves_records stuck_lib (text "offer.eml")
              sample_world F) as [R [C _]].
  split; [exact R | exact C].
Defined.

(** ** The batch *)

Lemma persist_and_move_intake (lib : Lib) (name : str) (r : Results)
    (w w' : World) (v : exn + option Results) :
  persist_and_move lib name r w = (v, w') ->
  (exists evs, appended w w' evs) /\
  (consume_dir w' = consume_dir w \/
   consume_dir w' = dir_remove name (consume_dir w)).
Proof.
  intros H. split.
  { apply persist_and_move_cases in H
      as [[_ [A _]] | [e [evs [_ [A _]]]]]; eauto. }
  unfold persist_and_move in H.
  apply bind_cases in H as [[e [H ->]] | [u [w1 [H1 H]]]].
  { apply log_processing_results_cases in H as [C _]. now left. }
  apply log_processing_results_cases in H1 as [C1 _].
  apply bind_cases in H as [[e [H ->]] | [u2 [w2 [H2 H]]]].
  { apply move_to_processed_cases in H
      as [_ [[_ [_ C]] | [e' [_ [_ [C _]]]]]]; [right | left]; congruence. }
  apply move_to_processed_cases in H2
    as [_ [[_ [_ C]] | [e' [_ [_ [C _]]]]]];
    unfold logger_info, emit, bind, ret in H; injection H as _ <-; simpl;
    [right | left]; congruence.
Qed.

(** One artifact: the activity log grows, starting with the line that
    names the artifact, and the intake directory loses that artifact at
    most. *)
Lemma process_email_file_footprint (lib : Lib) (name : str) (w : World) :
  exists v w' evs,
    process_email_file lib name w = (inr v, w') /\
    appended w w' (Logged INFO (processing_msg name) :: evs) /\
    (consume_dir w' = consume_dir w \/
     consume_dir w' = dir_remove name (consume_dir w)).
Proof.
  rewrite process_email_file_stages. cbv zeta.
  assert (A0 : appended w (snd (logger_info (processing_msg name) w))
                 [Logged INFO (processing_msg name)]) by reflexivity.
  assert (C0 : consume_dir (snd (logger_info (processing_msg name) w))
               = consume_dir w) by reflexivity.
  set (w0 := snd (logger_info (processing_msg name) w)) in *.
  destruct (extraction lib name w0) as [[e | x] w1] eqn:E1.
  { apply extraction_silent in E1 as [C [_ [_ V]]]. rewrite abandon_effect.
    eexists. eexists. exists [Logged ERROR (error_msg name e)].
    split; [reflexivity |]. split; [| left; simpl; congruence].
    unfold appended in *. simpl. rewrite V, A0, <- app_assoc. reflexivity. }
  apply extraction_silent in E1 as [C1 [_ [_ V1]]].
  destruct (analysis lib name x w1) as [[e | r] w2] eqn:E2.
  { pose proof (@quiet_analysis lib name x _ _ _ E2)
      as [C [_ [_ [ev2 [A2 _]]]]].
    rewrite abandon_effect. eexists. eexists.
    exists (ev2 ++ [Logged ERROR (error_msg name e)]).
    split; [reflexivity |]. split; [| left; simpl; congruence].
    unfold appended in *. simpl. rewrite A2, V1, A0, <- !app_assoc.
    reflexivity. }
  pose proof (@quiet_analysis lib name x _ _ _ E2)
    as [C2 [_ [_ [ev2 [A2 _]]]]].
  destruct (persist_and_move lib name r w2) as [[e | v] w3] eqn:E3;
    apply persist_and_move_intake in E3 as [[ev3 A3] C3].
  - rewrite abandon_effect. eexists. eexists.
    exists (ev2 ++ ev3 ++ [Logged ERROR (error_msg name e)]).
    split; [reflexivity |]. split.
    + unfold appended in *. simpl. rewrite A3, A2, V1, A0, <- !app_assoc.
      reflexivity.
    + simpl. destruct C3 as [C3 | C3]; [left | right]; congruence.
  - exists v, w3, (ev2 ++ ev3). split; [reflexivity |]. split.
    + unfold appended in *. rewrite A3, A2, V1, A0, <- !app_assoc.
      reflexivity.
    + destruct C3 as [C3 | C3]; [left | right]; congruence.
Qed.

Lemma process_each_footprint (lib : Lib) (files : list str) :
  forall w,
  exists w' evs,
    process_each lib files w = (inr tt, w') /\
    appended w w' evs /\
    (forall f, In f files -> In (Logged INFO (processing_msg f)) evs) /\
    (forall g, ~ In g files ->
               dict_get g (consume_dir w') = dict_get g (consume_dir w)).
Proof.
  induction files as [|f rest IH]; intros w.
  - exists w, []. split; [reflexivity |].
    split; [unfold appended; now rewrite app_nil_r |].
    split; [intros f [] | reflexivity].
  - destruct (process_email_file_footprint lib f w)
      as [v [w1 [ev1 [E1 [A1 C1]]]]].
    destruct (IH w1) as [w2 [ev2 [E2 [A2 [L2 K2]]]]].
    exists w2, ((Logged INFO (processing_msg f) :: ev1) ++ ev2).
    split.
    { cbn [process_each]. erewrite bind_of_ok by exact E1. exact E2. }
    split; [exact (appended_trans A1 A2) |]. split.
    + intros g [<- | G]; [now left |].
      apply in_or_app. right. now apply L2.
    + intros g N. rewrite K2 by (intros I; apply N; now right).
      destruct C1 as [-> | ->]; [reflexivity |].
      apply dict_get_dir_remove_other.
      destruct (str_eqb g f) eqn:E; [| reflexivity].
      apply str_eqb_spec in E. subst g. exfalso. apply N. now left.
Qed.

Definition no_files_msg : str :=
  text "No email files found in consume directory".

(** [process_all_emails] never raises. Every file of the intake
    directory named [*.eml] or [*.msg] gets its line in the activity
    log, whatever became of the files before it; every other file of the
    intake directory is still there afterwards; and with no such file
    the run only logs that there was nothing to do. *)
Theorem process_all_emails_covers_intake (lib : Lib) (w : World) :
  exists w',
    process_all_emails lib w = (inr tt, w') /\
    (forall f, In f (email_files_of w) ->
               In (Logged INFO (processing_msg f)) (events w')) /\
    (forall g, ~ In g (email_files_of w) ->
               dict_get g (consume_dir w') = dict_get g (consume_dir w)) /\
    (email_files_of w = [] ->
     new_events w w' = [Logged INFO no_files_msg] /\
     consume_dir w' = consume_dir w /\
     processed_dir w' = processed_dir w /\
     logs_dir w' = logs_dir w).
Proof.
  unfold process_all_emails, bind at 1, get_world.
  destruct (email_files_of w) as [|f rest] eqn:E.
  - eexists. split; [reflexivity |]. simpl.
    split; [intros f [] |]. split; [reflexivity |]. intros _.
    split; [| repeat split].
    apply new_events_appended. reflexivity.
  - unfold bind at 1, logger_info, emit.
    match goal with
    | |- context [process_each lib ?l ?w1] =>
        destruct (process_each_footprint lib l w1)
          as [w2 [evs [P [A [L K]]]]]
    end.
    exists w2. split; [exact P |]. split.
    + intros g G. unfold appended in A. rewrite A.
      apply in_or_app. right. now apply L.
    + split; [exact K | discriminate].
Qed.

Definition mixed_intake : World :=
  {| consume_dir :=
       [ (text "notes.txt", ascii_bytes "not a message");
         (text "offer.eml", ascii_bytes "(raw message)") ];
     processed_dir := [];
     logs_dir := [];
     events := [];
     tick := 0 |}.

Lemma process_all_emails_covers_intake_witness :
  In (text "offer.eml") (email_files_of mixed_intake) /\
  ~ In (text "notes.txt") (email_files_of mixed_intake) /\
  exists w',
    process_all_emails (plain_lib sample_message) mixed_intake
      = (inr tt, w') /\
    In (Logged INFO (processing_msg (text "offer.eml"))) (events w') /\
    dict_get (text "notes.txt") (consume_dir w')
      = Some (ascii_bytes "not a message").
Proof.
  assert (I : In (text "offer.eml") (email_files_of mixed_intake))
    by (vm_compute; left; reflexivity).
  assert (N : ~ In (text "notes.txt") (email_files_of mixed_intake))
    by (vm_compute; intros [H | []]; discriminate).
  split; [exact I |]. split; [exact N |].
  destruct (process_all_emails_covers_intake (plain_lib sample_message)
              mixed_intake) as [w' [E [L [K _]]]].
  exists w'. split; [exact E |]. split; [exact (L _ I) |].
  rewrite (K _ N). reflexivity.
Defined.

(** ** Records under one name *)

Lemma dir_put_names (A : Type) (n : str) (v x : A) (d : list (str * A)) :
  dict_get n d = Some x ->
  List.map fst (dir_put n v d) = List.map fst d.
Proof.
  induction d as [|[k y] d IH]; simpl; [discriminate |].
  destruct (str_eqb n k) eqn:E; simpl; [reflexivity |].
  intros H. now rewrite IH.
Qed.

(** Two artifacts logged within the same second share their record
    names: the second pair of records replaces the first, and the log
    directory, hence the summary's count of processed emails, has no
    more metadata records than before. *)
Theorem same_second_overwrites_records (lib : Lib) (r1 r2 : Results)
    (w w1 v1 w2 : World) :
  log_processing_results lib r1 w = (inr tt, w1) ->
  logs_dir v1 = logs_dir w1 ->
  ymd_hms (now lib (tick v1)) = ymd_hms (now lib (tick w)) ->
  log_processing_results lib r2 v1 = (inr tt, w2) ->
  read_json w2 (metadata_log_name (ymd_hms (now lib (tick w))))
    = inr (metadata_record r2) /\
  read_json w2 (actions_log_name (ymd_hms (now lib (tick w))))
    = inr (actions_record r2) /\
  metadata_logs w2 = metadata_logs w1.
Proof.
  intros H1 L T H2.
  apply log_processing_results_cases in H1
    as [_ [_ [[_ [_ L1]] | [e [evs [V _]]]]]]; [| discriminate].
  apply log_processing_results_cases in H2
    as [_ [_ [[_ [_ L2]] | [e [evs [V _]]]]]]; [| discriminate].
  cbv zeta in L1, L2. rewrite T, L in L2.
  set (ts := ymd_hms (now lib (tick w))) in *.
  assert (M1 : dict_get (metadata_log_name ts) (logs_dir w1)
               = Some (Json (metadata_record r1))).
  { rewrite L1. rewrite dict_get_dir_put_other by apply log_names_differ.
    apply dict_get_dir_put_same. }
  assert (A1 : dict_get (actions_log_name ts) (logs_dir w1)
               = Some (Json (actions_record r1))).
  { rewrite L1. apply dict_get_dir_put_same. }
  unfold read_json, metadata_logs. rewrite L2. repeat split.
  - rewrite dict_get_dir_put_other by apply log_names_differ.
    now rewrite dict_get_dir_put_same.
  - now rewrite dict_get_dir_put_same.
  - erewrite dir_put_names.
    + erewrite dir_put_names by exact M1. reflexivity.
    + rewrite dict_get_dir_put_other; [exact A1 |].
      change (str_eqb (actions_log_name ts) (metadata_log_name ts) = false).
      reflexivity.
Qed.

(** A clock that stands still. *)
Definition frozen_lib : Lib :=
  {| message_from_bytes := message_from_bytes (plain_lib sample_message);
     decode_header := decode_header (plain_lib sample_message);
     codec_decode := codec_decode (plain_lib sample_message);
     anchors := anchors (plain_lib sample_message);
     unicode_lower := unicode_lower (plain_lib sample_message);
     set_order := set_order (plain_lib sample_message);
     http_get := http_get (plain_lib sample_message);
     whois_query := whois_query (plain_lib sample_message);
     now := fun _ => sample_clock 0;
     write_fault := write_fault (plain_lib sample_message);
     rename_fault := rename_fault (plain_lib sample_message) |}.

Definition sample_results (path : string) : Results :=
  {| file_path := text path;
     metadata :=
       {| md_timestamp := []; md_subject := []; md_from := []; md_to := [];
          md_date := HStr []; md_message_id := HStr [];
          md_return_path := HStr [];
          md_received := []; md_x_mailer := HStr [];
          md_x_originating_ip := HStr [];
          md_sender_domain := None; md_list_unsubscribe := None |};
     unsubscribe_links := [];
     unsubscribe_results := [];
     whois_data := None;
     identified_companies := [];
     authority_reports := [];
     company_reports := [];
     processing_timestamp := [] |}.

Lemma same_second_overwrites_records_witness :
  exists w1 w2,
    log_processing_results frozen_lib (sample_results "consume/a.eml")
      sample_world = (inr tt, w1) /\
    log_processing_results frozen_lib (sample_results "consume/b.eml") w1
      = (inr tt, w2) /\
    read_json w2
      (metadata_log_name (ymd_hms (now frozen_lib (tick sample_world))))
      = inr (metadata_record (sample_results "consume/b.eml")) /\
    metadata_logs w2 = metadata_logs w1.
Proof.
  destruct (log_processing_results frozen_lib
              (sample_results "consume/a.eml") sample_world)
    as [[e | []] w1] eqn:E1; [vm_compute in E1; discriminate |].
  destruct (log_processing_results frozen_lib
              (sample_results "consume/b.eml") w1)
    as [[e | []] w2] eqn:E2.
  { vm_compute in E1. inversion E1; subst. vm_compute in E2. discriminate. }
  exists w1, w2. split; [reflexivity |]. split; [exact E2 |].
  destruct (@same_second_overwrites_records frozen_lib _ _ _ _ w1 _ E1
              eq_refl eq_refl E2) as [M [_ K]].
  split; [exact M | exact K].
Defined.

(** ** Invariants of the summary *)

(** *** Successes never outnumber attempts *)

Definition counts_ok (s : Summary) : Prop :=
  successful_unsubscribes s <= total_unsubscribe_attempts s.

Lemma count_success_le (attempts : list json) (k : nat) :
  count_success attempts = inr k -> k <= length attempts.
Proof.
  revert k. induction attempts as [|a rest IH]; intros k; simpl.
  - intros H. inversion H. lia.
  - destruct (py_get a "success" JNull) as [e | v]; [discriminate |].
    destruct (count_success rest) as [e | n]; [discriminate |].
    intros H. inversion H; subst. specialize (IH n eq_refl).
    destruct (truthy v); simpl; lia.
Qed.

Lemma py_iter_length (v : json) (n : nat) (items : list json) :
  py_len v = inr n -> py_iter v = inr items -> length items = n.
Proof.
  destruct v; simpl; intros H1 H2; inversion H1; inversion H2; subst;
    try reflexivity; apply length_map.
Qed.

Lemma collect_companies_counts (reports : list json) :
  preserves counts_ok (collect_companies reports).
Proof.
  induction reports as [|report rest IH]; simpl.
  - apply preserves_ret.
  - apply preserves_bind; [apply preserves_lift | intros company].
    apply preserves_bind; [| intros _; exact IH].
    apply (@preserves_when counts_ok
             (fun s => truthy company &&
                       negb (py_in company (companies_identified s)))).
    intros s I _. exact I.
Qed.

Lemma fold_actions_counts (w : World) (actions_file : str) :
  preserves counts_ok (fold_actions w actions_file).
Proof.
  intros s r s' I H. unfold fold_actions in H.
  apply bind_cases in H as [[e [H _]] | [actions_data [s1 [H1 H]]]];
    [now inversion H; subst |].
  inversion H1; subst s1. clear H1.
  apply bind_cases in H as [[e [H _]] | [ua [s1 [H1 H]]]];
    [now inversion H; subst |].
  inversion H1; subst s1. clear H1.
  apply bind_cases in H as [[e [H _]] | [n [s1 [H1 H]]]];
    [now inversion H; subst |].
  unfold lift in H1. injection H1 as Hn <-.
  apply bind_cases in H as [[e [H _]] | [u [s1 [H1 H]]]];
    [inversion H |].
  inversion H1; subst s1. clear H1.
  apply bind_cases in H as [[e [H _]] | [items [s1 [H1 H]]]].
  { inversion H; subst. unfold counts_ok in *. simpl. lia. }
  unfold lift in H1. injection H1 as Hi <-.
  apply bind_cases in H as [[e [H _]] | [k [s1 [H1 H]]]].
  { inversion H; subst. unfold counts_ok in *. simpl. lia. }
  unfold lift in H1. injection H1 as Hk <-.
  pose proof (count_success_le _ Hk) as Lk.
  rewrite (py_iter_length _ Hn Hi) in Lk.
  apply bind_cases in H as [[e [H _]] | [u' [s1 [H1 H]]]];
    [inversion H |].
  inversion H1; subst s1. clear H1.
  assert (I2 : counts_ok (add_successes k (add_attempts n s)))
    by (unfold counts_ok in *; simpl; lia).
  revert H. generalize (add_successes k (add_attempts n s)) I2.
  intros s2 I2' H.
  apply bind_cases in H as [[e [H _]] | [cr [s1 [H1 H]]]];
    [now inversion H; subst |].
  inversion H1; subst s1. clear H1.
  apply bind_cases in H as [[e [H _]] | [reports [s1 [H1 H]]]];
    [now inversion H; subst |].
  inversion H1; subst s1. clear H1.
  exact (@collect_companies_counts reports _ _ _ I2' H).
Qed.

Lemma fold_record_counts (w : World) (log_file : str) :
  preserves counts_ok (fold_record w log_file).
Proof.
  unfold fold_record.
  apply preserves_bind; [apply preserves_lift | intros data].
  apply preserves_bind; [apply preserves_lift | intros md].
  apply preserves_bind; [apply preserves_lift | intros domain].
  apply preserves_bind.
  - apply (@preserves_when counts_ok
             (fun s => truthy domain &&
                       negb (py_in domain (domains_encountered s)))).
    intros s I _. exact I.
  - intros _. destruct (dict_get _ (logs_dir w));
      [apply fold_actions_counts | apply preserves_ret].
Qed.

(** Whatever the log directory holds, records of any shape included,
    the summary never reports more successful opt-outs than attempts. *)
Theorem summary_successes_within_attempts (lib : Lib) (w w' : World)
    (s : Summary) :
  generate_summary_report lib w = (inr (Some s), w') ->
  successful_unsubscribes s <= total_unsubscribe_attempts s.
Proof.
  apply (@generate_summary_report_preserves counts_ok).
  - apply fold_record_counts.
  - intros n d. unfold counts_ok. simpl. lia.
Qed.

(** A log directory whose only actions record lists attempts that are
    not records: they are counted as attempts, then the record is given
    up. *)
Definition odd_world : World :=
  {| consume_dir := [];
     processed_dir := [];
     logs_dir :=
       [ (text "email_metadata_20240101_000001.json",
          Json (JObj [field "metadata" (JObj [])]));
         (text "actions_taken_20240101_000001.json",
          Json (JObj [field "unsubscribe_attempts"
                        (JArr [JInt 1; JInt 2])])) ];
     events := [];
     tick := 0 |}.

Lemma summary_successes_within_attempts_witness :
  exists s w',
    generate_summary_report (plain_lib sample_message) odd_world
      = (inr (Some s), w') /\
    total_unsubscribe_attempts s = 2 /\
    successful_unsubscribes s <= total_unsubscribe_attempts s.
Proof.
  destruct (generate_summary_report (plain_lib sample_message) odd_world)
    as [[e | [s |]] w'] eqn:E;
    [vm_compute in E; discriminate | | vm_compute in E; discriminate].
  exists s, w'. split; [reflexivity |]. split.
  - vm_compute in E. inversion E; reflexivity.
  - exact (@summary_successes_within_attempts _ _ _ _ E).
Defined.

(** *** No entry is listed twice *)

(** Every entry of the list is a true value that is not equal, by
    Python's [==], to an entry before it. *)
Definition listed_once (l : list json) : Prop :=
  forall l1 x l2,
    l = l1 ++ x :: l2 -> truthy x = true /\ py_in x l1 = false.

Lemma listed_once_nil : listed_once [].
Proof. intros l1 x l2 H. destruct l1; discriminate. Qed.

Lemma listed_once_snoc (l : list json) (x : json) :
  listed_once l -> truthy x = true -> py_in x l = false ->
  listed_once (l ++ [x]).
Proof.
  intros L T N l1 y l2. induction l2 as [|z l2 _] using rev_ind; intros H.
  - apply app_inj_tail in H as [-> ->]. now split.
  - rewrite app_comm_cons, app_assoc in H.
    apply app_inj_tail in H as [H _]. exact (L _ _ _ H).
Qed.

Definition lists_ok (s : Summary) : Prop :=
  listed_once (domains_encountered s) /\
  listed_once (companies_identified s).

Lemma collect_companies_lists (reports : list json) :
  preserves lists_ok (collect_companies reports).
Proof.
  induction reports as [|report rest IH]; simpl.
  - apply preserves_ret.
  - apply preserves_bind; [apply preserves_lift | intros company].
    apply preserves_bind; [| intros _; exact IH].
    apply (@preserves_when lists_ok
             (fun s => truthy company &&
                       negb (py_in company (companies_identified s)))).
    intros s [D C] H. apply andb_true_iff in H as [T N].
    apply negb_true_iff in N. split; [exact D |].
    now apply listed_once_snoc.
Qed.

Lemma fold_actions_lists (w : World) (actions_file : str) :
  preserves lists_ok (fold_actions w actions_file).
Proof.
  unfold fold_actions.
  apply preserves_bind; [apply preserves_lift | intros actions_data].
  apply preserves_bind; [apply preserves_lift | intros ua].
  apply preserves_bind; [apply preserves_lift | intros n].
  apply preserves_bind; [now apply preserves_update | intros _].
  apply preserves_bind; [apply preserves_lift | intros attempts].
  apply preserves_bind; [apply preserves_lift | intros k].
  apply preserves_bind; [now apply preserves_update | intros _].
  apply preserves_bind; [apply preserves_lift | intros cr].
  apply preserves_bind; [apply preserves_lift | intros reports].
  apply collect_companies_lists.
Qed.

Lemma fold_record_lists (w : World) (log_file : str) :
  preserves lists_ok (fold_record w log_file).
Proof.
  unfold fold_record.
  apply preserves_bind; [apply preserves_lift | intros data].
  apply preserves_bind; [apply preserves_lift | intros md].
  apply preserves_bind; [apply preserves_lift | intros domain].
  apply preserves_bind.
  - apply (@preserves_when lists_ok
             (fun s => truthy domain &&
                       negb (py_in domain (domains_encountered s)))).
    intros s [D C] H. apply andb_true_iff in H as [T N].
    apply negb_true_iff in N. split; [| exact C].
    now apply listed_once_snoc.
  - intros _. destruct (dict_get _ (logs_dir w));
      [apply fold_actions_lists | apply preserves_ret].
Qed.

(** In a summary, whatever the records hold, the list of sender domains
    and the list of companies contain no empty or null entry and no
    entry equal to an earlier one. *)
Theorem summary_lists_have_no_repeats (lib : Lib) (w w' : World)
    (s : Summary) :
  generate_summary_report lib w = (inr (Some s), w') ->
  listed_once (domains_encountered s) /\
  listed_once (companies_identified s).
Proof.
  apply (@generate_summary_report_preserves lists_ok).
  - apply fold_record_lists.
  - intros n d. split; apply listed_once_nil.
Qed.

(** Two metadata records of the same sender domain, one of them
    without a domain: the domain is listed once. *)
Definition repeated_world : World :=
  {| consume_dir := [];
     processed_dir := [];
     logs_dir :=
       [ (text "email_metadata_20240101_000001.json",
          Json (JObj [field "metadata"
                        (JObj [field "sender_domain" (jstr "a.example")])]));
         (text "email_metadata_20240101_000002.json",
          Json (JObj [field "metadata"
                        (JObj [field "sender_domain" (jstr "a.example")])]));
         (text "email_metadata_20240101_000003.json",
          Json (JObj [field "metadata" (JObj [])])) ];
     events := [];
     tick := 0 |}.

Lemma summary_lists_have_no_repeats_witness :
  exists s w',
    generate_summary_report (plain_lib sample_message) repeated_world
      = (inr (Some s), w') /\
    total_emails_processed s = 3 /\
    domains_encountered s = [jstr "a.example"] /\
    listed_once (domains_encountered s).
Proof.
  destruct (generate_summary_report (plain_lib sample_message)
              repeated_world)
    as [[e | [s |]] w'] eqn:E;
    [vm_compute in E; discriminate | | vm_compute in E; discriminate].
  exists s, w'. split; [reflexivity |]. split; [| split].
  - vm_compute in E. inversion E; reflexivity.
  - vm_compute in E. inversion E; reflexivity.
  - exact (proj1 (@summary_lists_have_no_repeats _ _ _ _ E)).
Defined.

(** ** From the records to the summary *)

(** The characters of [strftime('%Y%m%d_%H%M%S')]: digits and the
    underscore. *)
Definition stamp_char (c : codepoint) : bool :=
  ((48 <=? c) && (c <=? 57) || (c =? 95))%N.

Lemma last_dot_json (x : str) :
  last_dot (x ++ text ".json") = Some (length x).
Proof.
  induction x as [|c x IH]; [reflexivity |].
  cbn [app last_dot length]. now rewrite IH.
Qed.

Lemma stem_json (x : str) : x <> [] -> stem (x ++ text ".json") = x.
Proof.
  intros N. unfold stem. rewrite last_dot_json, length_app.
  replace (0 <? length x) with true
    by (symmetry; apply Nat.ltb_lt; destruct x; [congruence | simpl; lia]).
  replace (S (length x) <? length x + length (text ".json")) with true
    by (symmetry; apply Nat.ltb_lt; simpl; lia).
  simpl. rewrite firstn_app, Nat.sub_diag, firstn_all. simpl.
  apply app_nil_r.
Qed.

Lemma remove_all_stamp (ts : str) :
  forallb stamp_char ts = true ->
  remove_all (text "email_metadata_") ts 0 = ts.
Proof.
  induction ts as [|c ts IH]; [reflexivity |].
  cbn [forallb]. intros H. apply andb_true_iff in H as [C H].
  cbn [remove_all]. rewrite (IH H).
  replace (starts_with (text "email_metadata_") (c :: ts)) with false;
    [reflexivity |].
  symmetry. change (N.eqb 101 c && starts_with (text "mail_metadata_") ts
                    = false).
  apply andb_false_iff. left. apply N.eqb_neq. intros <-.
  vm_compute in C. discriminate.
Qed.

Lemma actions_file_of_stamp (ts : str) :
  forallb stamp_char ts = true ->
  actions_file_of (metadata_log_name ts) = actions_log_name ts.
Proof.
  intros H. unfold actions_file_of, metadata_log_name.
  rewrite app_assoc, stem_json by discriminate.
  f_equal. change (remove_all (text "email_metadata_") ts 0 = ts).
  now apply remove_all_stamp.
Qed.

Lemma starts_with_app (p s : str) : starts_with p (p ++ s) = true.
Proof.
  induction p as [|c p IH]; [reflexivity |].
  simpl. now rewrite N.eqb_refl.
Qed.

Lemma is_metadata_log_name (ts : str) :
  is_metadata_log (metadata_log_name ts) = true.
Proof.
  unfold is_metadata_log, metadata_log_name, ends_with.
  rewrite starts_with_app, app_assoc, rev_app_distr, starts_with_app.
  rewrite !length_app. cbn [andb]. apply Nat.leb_le. simpl. lia.
Qed.

Lemma dict_get_listed (A : Type) (k : str) (v : A) (d : list (str * A)) :
  dict_get k d = Some v -> In k (List.map fst d).
Proof.
  induction d as [|[k' x] d IH]; simpl; [discriminate |].
  destruct (str_eqb k k') eqn:E; [| now right; apply IH].
  apply str_eqb_spec in E. now left.
Qed.

Lemma count_success_written (l : list Attempt) :
  count_success (List.map json_of_attempt l)
  = inr (length (List.filter a_success l)).
Proof.
  induction l as [|a l IH]; [reflexivity |].
  cbn [List.map count_success]. rewrite IH.
  replace (py_get (json_of_attempt a) "success" JNull)
    with (@inr exn json (JBool (a_success a)))
    by (destruct a as [? [?|] ? [?|] [?|] ?]; reflexivity).
  cbn [truthy List.filter]. destruct (a_success a); reflexivity.
Qed.

Lemma py_in_snoc (x y : json) (l : list json) :
  py_in x l = true -> py_in x (l ++ [y]) = true.
Proof. unfold py_in. rewrite existsb_app. now intros ->. Qed.

Lemma py_in_last (d : str) (l : list json) :
  py_in (JStr d) (l ++ [JStr d]) = true.
Proof.
  unfold py_in. rewrite existsb_app. simpl. rewrite str_eqb_refl.
  now rewrite orb_true_r.
Qed.

Lemma collect_companies_keeps (reports : list json) (x : json)
    (s s' : Summary) (r : exn + unit) :
  collect_companies reports s = (r, s') ->
  (py_in x (companies_identified s) = true ->
   py_in x (companies_identified s') = true) /\
  domains_encountered s' = domains_encountered s /\
  total_unsubscribe_attempts s' = total_unsubscribe_attempts s /\
  successful_unsubscribes s' = successful_unsubscribes s.
Proof.
  revert s. induction reports as [|report rest IH]; intros s.
  - intros H. inversion H; subst. now repeat split.
  - cbn [collect_companies]. intros H.
    apply bind_cases in H as [[e [H _]] | [company [s1 [H1 H]]]];
      [inversion H; subst; now repeat split |].
    inversion H1; subst s1. clear H1.
    apply bind_cases in H as [[e [H _]] | [u [s1 [H1 H]]]].
    { destruct (_ && _); inversion H. }
    apply IH in H as [K [D [T U]]].
    destruct (_ && _); inversion H1; subst s1; simpl in *.
    + repeat split; try assumption. intros P. now apply K, py_in_snoc.
    + now repeat split.
Qed.

Lemma collect_companies_written (l : list CompanyReport) (s : Summary) :
  exists s',
    collect_companies (List.map json_of_company_report l) s = (inr tt, s') /\
    forall c, (In c l \/ py_in (JStr (c_company c)) (companies_identified s)
                         = true) ->
              c_company c <> [] ->
              py_in (JStr (c_company c)) (companies_identified s') = true.
Proof.
  revert s. induction l as [|a l IH]; intros s.
  - exists s. split; [reflexivity |]. intros c [[] | H] _. exact H.
  - cbn [List.map collect_companies].
    replace (py_get (json_of_company_report a) "company" JNull)
      with (@inr exn json (JStr (c_company a))) by reflexivity.
    erewrite bind_of_ok by reflexivity.
    destruct (truthy (JStr (c_company a))
              && negb (py_in (JStr (c_company a)) (companies_identified s)))
      eqn:E.
    + destruct (IH (add_company (JStr (c_company a)) s)) as [s' [R K]].
      exists s'. split.
      { erewrite bind_of_ok; [exact R |]. now rewrite E. }
      intros c [[<- | H] | H] N; apply K; auto.
      * right. simpl. apply py_in_last.
      * right. simpl. now apply py_in_snoc.
    + destruct (IH s) as [s' [R K]].
      exists s'. split.
      { erewrite bind_of_ok; [exact R |]. now rewrite E. }
      intros c [[<- | H] | H] N; apply K; auto.
      right. apply andb_false_iff in E as [E | E].
      * destruct (c_company a); [congruence | discriminate].
      * now apply negb_false_iff in E.
Qed.

Lemma fold_actions_written (r : Results) (w : World) (name : str)
    (s : Summary) :
  read_json w name = inr (actions_record r) ->
  exists s',
    fold_actions w name s = (inr tt, s') /\
    domains_encountered s' = domains_encountered s /\
    total_unsubscribe_attempts s'
    = total_unsubscribe_attempts s + length (unsubscribe_results r) /\
    successful_unsubscribes s'
    = successful_unsubscribes s
      + length (List.filter a_success (unsubscribe_results r)) /\
    forall c, In c (company_reports r) -> c_company c <> [] ->
              py_in (JStr (c_company c)) (companies_identified s') = true.
Proof.
  intros R. unfold fold_actions. rewrite R.
  erewrite bind_of_ok by reflexivity. cbv beta.
  erewrite bind_of_ok by reflexivity. cbv beta.
  erewrite bind_of_ok by reflexivity. cbv beta.
  erewrite bind_of_ok by reflexivity. cbv beta.
  erewrite bind_of_ok by reflexivity. cbv beta.
  erewrite bind_of_ok
    by (unfold lift; rewrite count_success_written; reflexivity).
  cbv beta.
  erewrite bind_of_ok by reflexivity. cbv beta.
  erewrite bind_of_ok by reflexivity. cbv beta.
  erewrite bind_of_ok by reflexivity. cbv beta.
  match goal with
  | |- context [collect_companies ?l ?s0] =>
      destruct (collect_companies_written (company_reports r) s0)
        as [s' [C K]];
      pose proof (@collect_companies_keeps l JNull s0 s' _ C)
        as [_ [D [T U]]]
  end.
  exists s'. split; [exact C |]. simpl in D, T, U.
  rewrite length_map in T.
  repeat split; try assumption.
  intros c I N. apply K; auto.
Qed.

(** The summary reads back what the processor wrote. When the two
    records of a result have been written under a time stamp of digits
    and underscores, the metadata record is among the files the summary
    visits, and visiting it adds the number of opt-out attempts of the
    result to the attempts, the number of its successful attempts to
    the successes, and leaves its sender domain and the companies of
    its reports listed. *)
Theorem written_records_are_summarised (lib : Lib) (r : Results)
    (w w1 : World) (s : Summary) :
  forallb stamp_char (ymd_hms (now lib (tick w))) = true ->
  log_processing_results lib r w = (inr tt, w1) ->
  In (metadata_log_name (ymd_hms (now lib (tick w)))) (metadata_logs w1) /\
  exists s',
    fold_record w1 (metadata_log_name (ymd_hms (now lib (tick w)))) s
    = (inr tt, s') /\
    total_unsubscribe_attempts s'
    = total_unsubscribe_attempts s + length (unsubscribe_results r) /\
    successful_unsubscribes s'
    = successful_unsubscribes s
      + length (List.filter a_success (unsubscribe_results r)) /\
    (forall d, md_sender_domain (metadata r) = Some d -> d <> [] ->
               py_in (JStr d) (domains_encountered s') = true) /\
    (forall c, In c (company_reports r) -> c_company c <> [] ->
               py_in (JStr (c_company c)) (companies_identified s') = true).
Proof.
  intros St H.
  apply log_processing_results_cases in H
    as [_ [_ [[_ [_ L]] | [e [evs [V _]]]]]]; [| discriminate].
  cbv zeta in L. set (ts := ymd_hms (now lib (tick w))) in *.
  assert (Md : dict_get (metadata_log_name ts) (logs_dir w1)
               = Some (Json (metadata_record r))).
  { rewrite L, dict_get_dir_put_other by apply log_names_differ.
    apply dict_get_dir_put_same. }
  assert (Ad : dict_get (actions_log_name ts) (logs_dir w1)
               = Some (Json (actions_record r))).
  { rewrite L. apply dict_get_dir_put_same. }
  split.
  { unfold metadata_logs. apply filter_In.
    split; [exact (dict_get_listed _ _ Md) | apply is_metadata_log_name]. }
  unfold fold_record. rewrite (actions_file_of_stamp _ St), Ad.
  unfold read_json at 1. rewrite Md.
  assert (G1 : py_get (metadata_record r) "metadata" (JObj [])
               = inr (json_of_metadata (metadata r))) by reflexivity.
  assert (G2 : py_get (json_of_metadata (metadata r)) "sender_domain" JNull
               = inr (jopt JStr (md_sender_domain (metadata r))))
    by (destruct (metadata r) as [? ? ? ? ? ? ? ? ? ? [?|] [?|]];
        reflexivity).
  erewrite bind_of_ok by reflexivity. cbv beta.
  erewrite bind_of_ok by (unfold lift; rewrite G1; reflexivity). cbv beta.
  erewrite bind_of_ok by (unfold lift; rewrite G2; reflexivity). cbv beta.
  assert (Ra : read_json w1 (actions_log_name ts) = inr (actions_record r))
    by (unfold read_json; now rewrite Ad).
  destruct (truthy (jopt JStr (md_sender_domain (metadata r)))
            && negb (py_in (jopt JStr (md_sender_domain (metadata r)))
                       (domains_encountered s))) eqn:E.
  - destruct (@fold_actions_written r w1 _
                (add_domain (jopt JStr (md_sender_domain (metadata r))) s)
                Ra) as [s' [F [D [T [U K]]]]].
    exists s'. split.
    { erewrite bind_of_ok; [exact F |]. cbv beta. now rewrite E. }
    simpl in D, T, U. repeat split; try assumption.
    intros d Sd N. rewrite D, Sd. simpl. apply py_in_last.
  - destruct (@fold_actions_written r w1 _ s Ra) as [s' [F [D [T [U K]]]]].
    exists s'. split.
    { erewrite bind_of_ok; [exact F |]. cbv beta. now rewrite E. }
    repeat split; try assumption.
    intros d Sd N. rewrite D. rewrite Sd in E. simpl in E.
    destruct d; [congruence |]. simpl in E.
    now apply negb_false_iff in E.
Qed.

(** A result with two opt-out attempts, one of them successful, a
    sender domain and one company report. *)
Definition busy_results : Results :=
  {| file_path := text "consume/a.eml";
     metadata :=
       {| md_timestamp := []; md_subject := []; md_from := []; md_to := [];
          md_date := HStr []; md_message_id := HStr [];
          md_return_path := HStr [];
          md_received := []; md_x_mailer := HStr [];
          md_x_originating_ip := HStr [];
          md_sender_domain := Some (text "a.example");
          md_list_unsubscribe := None |};
     unsubscribe_links :=
       [text "http://a.example/u"; text "http://b.example/u"];
     unsubscribe_results :=
       [ {| a_link := text "http://a.example/u";
            a_status_code := Some 200%Z;
            a_success := true;
            a_response_url := Some (text "http://a.example/u");
            a_error := None;
            a_timestamp := [] |};
         {| a_link := text "http://b.example/u";
            a_status_code := None;
            a_success := false;
            a_response_url := None;
            a_error := Some (text "timed out");
            a_timestamp := [] |} ];
     whois_data := None;
     identified_companies := [text "google"];
     authority_reports := [];
     company_reports :=
       [ {| c_company := text "google";
            c_email := text "phishing@gmail.com";
            c_status := text "Ready for email submission";
            c_timestamp := [] |} ];
     processing_timestamp := [] |}.

Lemma written_records_are_summarised_witness :
  exists w1 s',
    log_processing_results (plain_lib sample_message) busy_results
      sample_world = (inr tt, w1) /\
    fold_record w1
      (metadata_log_name
         (ymd_hms (now (plain_lib sample_message) (tick sample_world))))
      empty_summary = (inr tt, s') /\
    total_unsubscribe_attempts s' = 2 /\
    successful_unsubscribes s' = 1 /\
    py_in (jstr "a.example") (domains_encountered s') = true.
Proof.
  destruct (log_processing_results (plain_lib sample_message) busy_results
              sample_world) as [[e | []] w1] eqn:E1;
    [vm_compute in E1; discriminate |].
  destruct (@written_records_are_summarised (plain_lib sample_message)
              busy_results sample_world w1 empty_summary eq_refl E1)
    as [_ [s' [F [T [U [D _]]]]]].
  exists w1, s'. split; [reflexivity |]. split; [exact F |].
  split; [exact T |]. split; [exact U |].
  apply (D (text "a.example")); [reflexivity | discriminate].
Defined.

(** ** The links of the [List-Unsubscribe] header *)

(** Every match reported by the scan is a match at some position of the
    subject. *)
Lemma scan_matches (ic : bool) (r : regex) (m : str) (caps : list str) :
  forall (s : str) (skip : nat),
    In (m, caps) (scan ic r s skip) ->
    exists before after,
      s = before ++ after /\ match_at ic r after = Some (m, caps).
Proof.
  induction s as [|x s IH]; intros skip; simpl.
  - destruct skip; [| contradiction].
    destruct (match_at ic r []) as [m0 |] eqn:E; [| contradiction].
    intros [H | []]. subst m0. now exists [], [].
  - destruct skip as [| n].
    + destruct (match_at ic r (x :: s)) as [[m0 caps0] |] eqn:E.
      * intros [H | H].
        -- inversion H; subst. now exists [], (x :: s).
        -- apply IH in H as [before [after [-> M]]].
           now exists (x :: before), after.
      * intros H. apply IH in H as [before [after [-> M]]].
        now exists (x :: before), after.
    + intros H. apply IH in H as [before [after [-> M]]].
      now exists (x :: before), after.
Qed.

(** Without [re.IGNORECASE] a word is matched by itself only. *)
Lemma spelled_exact (l w : str) : spelled false l w -> w = l.
Proof.
  intros H. induction H as [|c x l w E _ IH]; [reflexivity |].
  simpl in E. apply N.eqb_eq in E. now subst.
Qed.

(** A match of the header pattern: a bracket, the group, a bracket. *)
Lemma match_at_list_unsub (s m : str) (caps : list str) :
  match_at false list_unsub_pattern s = Some (m, caps) ->
  exists u s',
    s = cp "<" :: u ++ cp ">" :: s' /\ caps = [u] /\
    lang false
      (word "http" +> Opt (Lit (cp "s")) +> word "://" +>
       Plus (fun x => negb (N.eqb x (cp ">")))) u.
Proof.
  unfold match_at, list_unsub_pattern.
  remember (word "http" +> Opt (Lit (cp "s")) +> word "://" +>
            Plus (fun x => negb (N.eqb x (cp ">")))) as body eqn:B.
  cbn [run]. destruct s as [|x s]; [discriminate |].
  unfold lit_ok at 1. destruct (N.eqb (cp "<") x) eqn:E; [| discriminate].
  apply N.eqb_eq in E. subst x. intros H.
  apply run_sound in H as [u [s1 [caps1 [-> [L [G K]]]]]].
  assert (C : caps1 = []) by (apply G; subst body; reflexivity).
  subst caps1. destruct s1 as [|y s2]; [discriminate |].
  unfold lit_ok in K. destruct (N.eqb (cp ">") y) eqn:F; [| discriminate].
  apply N.eqb_eq in F. subst y.
  rewrite firstn_matched in K. inversion K; subst.
  exists u, s2. repeat split. exact L.
Qed.

(** The links taken from the [List-Unsubscribe] header are web
    addresses and nothing else: each one stands in the header between
    angle brackets, begins with [http://] or [https://] in lower case,
    has something after the scheme and holds no closing bracket. An
    entry of another scheme, [mailto:] for one, is never taken. *)
Theorem header_links_are_bracketed_web_addresses (h u : str) :
  In u (findall false list_unsub_pattern h) ->
  exists before after rest,
    h = before ++ text "<" ++ u ++ text ">" ++ after /\
    (u = text "http://" ++ rest \/ u = text "https://" ++ rest) /\
    rest <> [] /\
    forallb (fun x => negb (N.eqb x (cp ">"))) u = true.
Proof.
  intros H. unfold findall in H.
  apply in_map_iff in H as [[m caps] [P H]].
  apply scan_matches in H as [before [tail [-> M]]].
  apply match_at_list_unsub in M as [v [after [-> [-> L]]]].
  cbv [pick snd] in P. subst u.
  destruct L as [w1 [t1 [-> [L1 [w2 [t2 [-> [L2 [w3 [w4 [-> [L3 L4]]]]]]]]]]]].
  apply lang_word in L1; [| discriminate]. apply spelled_exact in L1.
  apply lang_word in L3; [| discriminate]. apply spelled_exact in L3.
  destruct L4 as [N4 F4]. subst w1 w3.
  exists before, after, w4. split; [reflexivity |].
  destruct L2 as [-> | [x [-> E]]].
  - split; [now left |]. split; [exact N4 |].
    simpl. exact F4.
  - unfold lit_ok in E. apply N.eqb_eq in E. subst x.
    split; [now right |]. split; [exact N4 |].
    simpl. exact F4.
Qed.

Lemma header_links_are_bracketed_web_addresses_witness :
  findall false list_unsub_pattern
    (text "<mailto:leave@a.example>, <https://a.example/leave>")
  = [text "https://a.example/leave"] /\
  exists before after rest,
    text "<mailto:leave@a.example>, <https://a.example/leave>"
    = before ++ text "<" ++ text "https://a.example/leave" ++ text ">"
      ++ after /\
    (text "https://a.example/leave" = text "http://" ++ rest \/
     text "https://a.example/leave" = text "https://" ++ rest) /\
    rest <> [] /\
    forallb (fun x => negb (N.eqb x (cp ">")))
      (text "https://a.example/leave") = true.
Proof.
  split; [vm_compute; reflexivity |].
  apply (@header_links_are_bracketed_web_addresses
           (text "<mailto:leave@a.example>, <https://a.example/leave>")
           (text "https://a.example/leave")).
  vm_compute. left. reflexivity.
Defined.

(** ** The links of the HTML anchors *)

(** A word of the pattern at the head of the subject is matched. *)
Lemma run_lits (ic : bool) (R : Type) (l : str) :
  l <> [] ->
  forall (w s : str) (caps : list str) (k : str -> list str -> option R),
    spelled ic l w -> run ic (lits l) (w ++ s) caps k = k s caps.
Proof.
  induction l as [|c l IH]; intros N w s caps k H; [contradiction |].
  inversion H as [|c0 x l0 w0 E T]; subst.
  destruct l as [|c' l].
  - inversion T; subst. cbn [lits run app]. now rewrite E.
  - change (lits (c :: c' :: l)) with (Seq (Lit c) (lits (c' :: l))).
    cbn [run app]. rewrite E. apply IH; [discriminate | exact T].
Qed.

Lemma search_reaches (ic : bool) (r : regex) (a s : str) :
  match_at ic r s <> None -> search ic r (a ++ s) <> None.
Proof.
  intros H. induction a as [|x a IH]; simpl.
  - destruct s; simpl; destruct (match_at ic r _); congruence.
  - destruct (match_at ic r (x :: a ++ s)); [discriminate | exact IH].
Qed.

Lemma search_word (ic : bool) (lit : string) (a w b : str) :
  text lit <> [] -> spelled ic (text lit) w ->
  search ic (word lit) (a ++ w ++ b) <> None.
Proof.
  intros N H. apply search_reaches. unfold match_at, word.
  rewrite run_lits; [discriminate | exact N | exact H].
Qed.

Lemma flat_map_at_most_one (A B : Type) (f : A -> list B) (l : list A) :
  (forall x, length (f x) <= 1) -> length (flat_map f l) <= length l.
Proof.
  intros H. induction l as [|x l IH]; [simpl; lia |].
  cbn [flat_map length]. rewrite length_app. specialize (H x). lia.
Qed.

(** The HTML detector follows the text of the anchors, not their
    targets: every link it returns is the target of an anchor of the
    document, taken as it is written; an anchor gives its target at most
    once, however many patterns its text matches; and an anchor whose
    text in lower case holds the word unsubscribe always gives its
    target. *)
Theorem anchor_links_follow_anchor_text (lib : Lib) (html_content : str) :
  (forall u, In u (anchor_links lib html_content) ->
             exists t, In (t, u) (anchors lib html_content)) /\
  length (anchor_links lib html_content)
    <= length (anchors lib html_content) /\
  (forall t u a b,
      In (t, u) (anchors lib html_content) ->
      lower lib t = a ++ text "unsubscribe" ++ b ->
      In u (anchor_links lib html_content)).
Proof.
  unfold anchor_links. split; [| split].
  - intros u H. apply in_flat_map in H as [[t v] [I H]].
    cbv zeta in H. simpl fst in H. simpl snd in H.
    destruct (existsb _ unsubscribe_patterns); [| contradiction].
    destruct H as [<- | []]. now exists t.
  - apply flat_map_at_most_one. intros [t v]. cbv zeta.
    destruct (existsb _ unsubscribe_patterns); simpl; lia.
  - intros t u a b I E. apply in_flat_map. exists (t, u).
    split; [exact I |]. cbv zeta. simpl fst. simpl snd. rewrite E.
    replace (existsb _ unsubscribe_patterns) with true; [now left |].
    symmetry. unfold unsubscribe_patterns. cbn [existsb].
    destruct (search true (word "unsubscribe")
                (a ++ text "unsubscribe" ++ b)) eqn:S; [reflexivity |].
    exfalso. revert S. apply search_word; [discriminate |].
    repeat constructor.
Qed.

(** A document with two anchors, one of them an opt-out link whose
    target is not a web address. *)
Definition anchors_lib : Lib :=
  {| message_from_bytes := message_from_bytes (plain_lib sample_message);
     decode_header := decode_header (plain_lib sample_message);
     codec_decode := codec_decode (plain_lib sample_message);
     anchors :=
       fun _ => [ (text "Home", text "http://a.example/");
                  (text "Unsubscribe or remove me from this list",
                   text "mailto:leave@a.example") ];
     unicode_lower := unicode_lower (plain_lib sample_message);
     set_order := set_order (plain_lib sample_message);
     http_get := http_get (plain_lib sample_message);
     whois_query := whois_query (plain_lib sample_message);
     now := now (plain_lib sample_message);
     write_fault := write_fault (plain_lib sample_message);
     rename_fault := rename_fault (plain_lib sample_message) |}.

Lemma anchor_links_follow_anchor_text_witness :
  anchor_links anchors_lib (text "<html>") = [text "mailto:leave@a.example"]
  /\ In (text "mailto:leave@a.example")
       (anchor_links anchors_lib (text "<html>")).
Proof.
  split; [vm_compute; reflexivity |].
  apply (proj2 (proj2 (anchor_links_follow_anchor_text anchors_lib
                         (text "<html>")))
           (text "Unsubscribe or remove me from this list")
           (text "mailto:leave@a.example") []
           (text " or remove me from this list")).
  - vm_compute. right. left. reflexivity.
  - vm_compute. reflexivity.
Defined.

(** ** The parts that give no content *)

Lemma add_part_skips (acc : str * str) (ph : list (str * str)) (pc : str)
    (pb : bytes) :
  str_in (text "attachment")
    (hvalue_str (get (Leaf ph pc pb) "Content-Disposition")) = true \/
  (str_eqb pc (text "text/plain") = false /\
   str_eqb pc (text "text/html") = false) \/
  pb = [] ->
  add_part acc (Leaf ph pc pb) = acc.
Proof.
  unfold add_part. destruct acc as [t h]. cbn [get_content_type].
  intros [H | [[H1 H2] | ->]].
  - now rewrite H.
  - rewrite H1, H2. now destruct (negb _).
  - cbn [get_payload_decoded].
    destruct (negb _); [| reflexivity].
    destruct (str_eqb pc (text "text/plain")); [reflexivity |].
    now destruct (str_eqb pc (text "text/html")).
Qed.

(** In a multipart message, a part whose disposition header, printed
    as a string, holds the word attachment, a part that is neither
    plain text nor HTML, and a part without payload give nothing to the
    extracted content: the message without the part has the same text
    and the same HTML. *)
Theorem skipped_parts_give_no_content (h : list (str * str)) (c : str)
    (before after : list Message) (ph : list (str * str)) (pc : str)
    (pb : bytes) :
  str_in (text "attachment")
    (hvalue_str (get (Leaf ph pc pb) "Content-Disposition")) = true \/
  (str_eqb pc (text "text/plain") = false /\
   str_eqb pc (text "text/html") = false) \/
  pb = [] ->
  extract_email_content (Multipart h c (before ++ Leaf ph pc pb :: after))
  = extract_email_content (Multipart h c (before ++ after)).
Proof.
  intros H. unfold extract_email_content. cbn [is_multipart walk].
  rewrite !flat_map_app. cbn [flat_map walk app fold_left].
  rewrite !fold_left_app. cbn [fold_left].
  now rewrite (@add_part_skips _ ph pc pb H).
Qed.

(** A message of two plain-text parts, the second one an attachment. *)
Definition attached_message : Message :=
  Multipart [] (text "multipart/mixed")
    [ Leaf [] (text "text/plain") (ascii_bytes "Dear customer");
      Leaf [(text "Content-Disposition",
             text "attachment; filename=notes.txt")]
        (text "text/plain") (ascii_bytes "private notes") ].

Lemma skipped_parts_give_no_content_witness :
  extract_email_content attached_message = (text "Dear customer", []) /\
  extract_email_content attached_message
  = extract_email_content
      (Multipart [] (text "multipart/mixed")
         [Leaf [] (text "text/plain") (ascii_bytes "Dear customer")]).
Proof.
  split; [vm_compute; reflexivity |].
  apply (@skipped_parts_give_no_content [] (text "multipart/mixed")
           [Leaf [] (text "text/plain") (ascii_bytes "Dear customer")] []
           [(text "Content-Disposition",
             text "attachment; filename=notes.txt")]
           (text "text/plain") (ascii_bytes "private notes")).
  left. vm_compute. reflexivity.
Defined.

(** ** Companies named in the content *)

Lemma starts_with_prefix (p s : str) :
  starts_with p s = true <-> exists b, s = p ++ b.
Proof.
  revert s. induction p as [|c p IH]; intros s; simpl.
  - split; [now exists s | reflexivity].
  - destruct s as [|y s].
    + split; [discriminate | intros [b H]; discriminate].
    + rewrite andb_true_iff, N.eqb_eq, IH. split.
      * intros [-> [b ->]]. now exists b.
      * intros [b H]. inversion H; subst. split; [reflexivity | now exists b].
Qed.

(** [needle in hay] holds exactly when the needle is a piece of the
    hay. *)
Lemma str_in_piece (needle hay : str) :
  str_in needle hay = true <-> exists a b, hay = a ++ needle ++ b.
Proof.
  induction hay as [|x hay IH].
  - simpl. rewrite orb_false_r, starts_with_prefix. split.
    + intros [b H]. now exists [], b.
    + intros [a [b H]]. destruct a; [now exists b | discriminate].
  - rewrite str_in_cons, orb_true_iff, starts_with_prefix, IH. split.
    + intros [[b H] | [a [b ->]]]; [now exists [], b |].
      now exists (x :: a), b.
    + intros [[|y a] [b H]]; [left; now exists b |].
      right. inversion H; subst. now exists a, b.
Qed.

(** A company is identified exactly when its name, a key of the contact
    table, is a piece of the lower-cased text made of the plain text,
    the HTML, the subject and the sender joined by single spaces: the
    name may stand inside a longer word, and nothing but these four
    fields is searched. *)
Theorem company_identified_iff_name_occurs (lib : Lib)
    (text_content html_content : str) (md : Metadata) (company : str) :
  In company (identify_company_from_content lib text_content html_content md)
  <->
  In company (List.map fst company_reporting) /\
  exists a b,
    lower lib (text_content ++ text " " ++ html_content ++ text " " ++
               md_subject md ++ text " " ++ md_from md)
    = a ++ company ++ b.
Proof.
  unfold identify_company_from_content. cbv zeta.
  rewrite filter_In, str_in_piece. reflexivity.
Qed.

(** A subject that names no company but holds the letters of one. *)
Definition groups_metadata : Metadata :=
  {| md_timestamp := []; md_subject := text "News for all GROUPS";
     md_from := text "news@a.example"; md_to := [];
     md_date := HStr []; md_message_id := HStr [];
          md_return_path := HStr [];
     md_received := []; md_x_mailer := HStr [];
          md_x_originating_ip := HStr [];
     md_sender_domain := Some (text "a.example");
     md_list_unsubscribe := None |}.

Lemma company_identified_iff_name_occurs_witness :
  identify_company_from_content (plain_lib sample_message)
    (text "Hello") [] groups_metadata = [text "ups"] /\
  In (text "ups")
    (identify_company_from_content (plain_lib sample_message)
       (text "Hello") [] groups_metadata).
Proof.
  split; [vm_compute; reflexivity |].
  apply (proj2 (company_identified_iff_name_occurs
                  (plain_lib sample_message) (text "Hello") []
                  groups_metadata (text "ups"))).
  split.
  - vm_compute. do 8 right. left. reflexivity.
  - exists (text "hello  news for all gro"), (text " news@a.example").
    vm_compute. reflexivity.
Defined.

(** ** The two detectors together *)

(** The links found in the content are returned without repetition: a
    link that is both the target of a matching anchor and an address of
    the plain text is listed once. Each returned link comes from one of
    the two detectors, and an empty HTML or plain text is not looked
    at. *)
Theorem content_links_are_distinct (lib : Lib)
    (text_content html_content : str) :
  set_order_ok (set_order lib) ->
  NoDup (find_unsubscribe_links lib text_content html_content) /\
  forall u,
    In u (find_unsubscribe_links lib text_content html_content) <->
    (html_content <> [] /\ In u (anchor_links lib html_content)) \/
    (text_content <> [] /\ In u (text_urls text_content)).
Proof.
  intros O. unfold find_unsubscribe_links. cbv zeta.
  destruct (O ((match html_content with
                | [] => []
                | _ :: _ => anchor_links lib html_content
                end) ++
               (match text_content with
                | [] => []
                | _ :: _ => text_urls text_content
                end))) as [D I].
  split; [exact D |]. intros u. rewrite I, in_app_iff.
  destruct html_content as [|x h]; destruct text_content as [|y t];
    simpl; intuition congruence.
Qed.

(** A document whose opt-out anchor and whose plain text give the same
    address. *)
Definition twice_lib : Lib :=
  {| message_from_bytes := message_from_bytes (plain_lib sample_message);
     decode_header := decode_header (plain_lib sample_message);
     codec_decode := codec_decode (plain_lib sample_message);
     anchors :=
       fun _ => [(text "unsubscribe", text "http://a.example/unsubscribe")];
     unicode_lower := unicode_lower (plain_lib sample_message);
     set_order := set_order (plain_lib sample_message);
     http_get := http_get (plain_lib sample_message);
     whois_query := whois_query (plain_lib sample_message);
     now := now (plain_lib sample_message);
     write_fault := write_fault (plain_lib sample_message);
     rename_fault := rename_fault (plain_lib sample_message) |}.

Lemma content_links_are_distinct_witness :
  find_unsubscribe_links twice_lib
    (text "Leave: http://a.example/unsubscribe") (text "<html>")
  = [text "http://a.example/unsubscribe"] /\
  NoDup (find_unsubscribe_links twice_lib
           (text "Leave: http://a.example/unsubscribe") (text "<html>")).
Proof.
  split; [vm_compute; reflexivity |].
  exact (proj1 (@content_links_are_distinct twice_lib
                  (text "Leave: http://a.example/unsubscribe")
                  (text "<html>") nodup_is_set_order)).
Defined.

(** ** Headers with raw bytes *)







